(** * Veritech: the CVK 1100 verifier and the Jigsaw Protocol assembler

    A shallow embedding of [engines/cvk-1100] (class [CVK1100Engine]) and of
    [engines/jigsaw-protocol] (class [JigsawProtocolEngine]), and the
    properties of the verified-fragment reconstruction pipeline.

    Conventions of the embedding.
    - A JavaScript [number] is an exact rational ([Q]).  The divisions of
      the code are by the length of an array that is never empty or by the
      length of a JSON text, except for the completion percentage, which is
      computed in [num]: rationals with [NaN] and [Infinity].
    - Objects that are shared and mutated (the components of a picture) live
      in the picture's [components] array; the [placedComponents] and
      [unplacedComponents] arrays hold references, that is, indices into it.
    - [crypto.randomUUID], [Date.now] and [new Date()] read the [World]; a
      method that uses them is a computation in [M].  A dereference of [null]
      is the outcome [TypeError].
    - Hash functions, JSON and date rendering and the regular-expression
      engine are fields of the [Platform] class. *)

From Stdlib Require Import ZArith QArith Qround Qminmax Lia Lqa Sorted.
From stdpp Require Import base option list strings.

Open Scope Z_scope.
Open Scope nat_scope.

(** ** Numbers *)

Inductive num : Type :=
  | NaN
  | Infinity
  | Fin (q : Q).

(** [a / b] for two array lengths. *)
Definition div_lengths (a b : nat) : num :=
  match b, a with
  | O, O => NaN
  | O, S _ => Infinity
  | S _, _ => Fin (inject_Z (Z.of_nat a) / inject_Z (Z.of_nat b))
  end.

(** [n * k] and [n + k] for a positive finite [k]. *)
Definition num_scale (n : num) (k : Q) : num :=
  match n with
  | Fin q => Fin (q * k)
  | other => other
  end.

Definition num_add (n : num) (k : Q) : num :=
  match n with
  | Fin q => Fin (q + k)
  | other => other
  end.

(** [n >= k]: false on [NaN]. *)
Definition num_geb (n : num) (k : Q) : bool :=
  match n with
  | NaN => false
  | Infinity => true
  | Fin q => Qle_bool k q
  end.

(** [n < k]: false on [NaN]. *)
Definition num_ltb (n : num) (k : Q) : bool :=
  match n with
  | NaN => false
  | Infinity => false
  | Fin q => negb (Qle_bool k q)
  end.

(** [Math.min(k, n)]. *)
Definition num_min (k : Q) (n : num) : num :=
  match n with
  | NaN => NaN
  | Infinity => Fin k
  | Fin q => Fin (Qmin k q)
  end.

(** The claim "[n] is a number between [lo] and [hi]". *)
Definition num_between (lo hi : Q) (n : num) : Prop :=
  match n with
  | Fin q => (lo <= q)%Q /\ (q <= hi)%Q
  | _ => False
  end.

Definition Qltb (a b : Q) : bool := negb (Qle_bool b a).

Definition Qsum (l : list Q) : Q := foldl Qplus 0%Q l.

Definition Qlen {A} (l : list A) : Q := inject_Z (Z.of_nat (length l)).

(** [Math.round]: halves go up. *)
Definition Math_round (q : Q) : Z := Qfloor (q + (1 # 2)).

(** ** Dates *)

Inductive Date : Type :=
  | InvalidDate
  | DateMs (ms : Z).

(** Relational operators on dates compare time values; with an invalid date
    every comparison is false. *)
Definition date_leb (a b : Date) : bool :=
  match a, b with
  | DateMs x, DateMs y => (x <=? y)%Z
  | _, _ => false
  end.

Definition date_ltb (a b : Date) : bool :=
  match a, b with
  | DateMs x, DateMs y => (x <? y)%Z
  | _, _ => false
  end.

(** ** The world: random identifiers and the clock *)

Record World : Type := mkWorld {
  uuids : nat -> string;      (* the UUIDs [crypto.randomUUID] hands out *)
  clock : nat -> Z;           (* the times the clock shows, in ms *)
  uuidsDrawn : nat;
  clockReads : nat
}.

Inductive outcome (A : Type) : Type :=
  | Ok (a : A)
  | TypeError
  | OutOfFuel.
Arguments Ok {A} a.
Arguments TypeError {A}.
Arguments OutOfFuel {A}.

Definition M (A : Type) : Type := World -> outcome (A * World).

Definition ret {A} (a : A) : M A := fun w => Ok (a, w).

Definition bind {A B} (m : M A) (k : A -> M B) : M B :=
  fun w =>
    match m w with
    | Ok (a, w') => k a w'
    | TypeError => TypeError
    | OutOfFuel => OutOfFuel
    end.

Declare Scope m_scope.
Delimit Scope m_scope with M.
Notation "x <~ m ;; k" := (bind m (fun x => k))
  (at level 100, m at next level, right associativity) : m_scope.
Definition randomUUID : M string :=
  fun w => Ok (uuids w (uuidsDrawn w),
               mkWorld (uuids w) (clock w) (S (uuidsDrawn w)) (clockReads w)).

Definition Date_now : M Z :=
  fun w => Ok (clock w (clockReads w),
               mkWorld (uuids w) (clock w) (uuidsDrawn w) (S (clockReads w))).

Definition throwTypeError {A} : M A := fun _ => TypeError.

(** An optional value that the code uses without a null check. *)
Definition unwrap {A} (o : option A) : M A :=
  match o with
  | Some a => ret a
  | None => throwTypeError
  end.

Fixpoint mapM {A B} (f : A -> M B) (l : list A) : M (list B) :=
  match l with
  | [] => ret []
  | a :: l' => (b <~ f a ;; bs <~ mapM f l' ;; ret (b :: bs))%M
  end.

(** ** Types shared by the two engines (jigsaw-protocol, TYPES & INTERFACES) *)

Inductive FragmentType : Type :=
  | survivor_testimony | physical_evidence | environmental_factor
  | location_data | financial_trace | communication_record
  | document_artifact | digital_footprint | relationship_link
  | temporal_marker | behavioral_pattern | historical_record
  | scientific_data | oral_history | institutional_record.

Definition FragmentType_toString (t : FragmentType) : string :=
  match t with
  | survivor_testimony => "survivor_testimony"
  | physical_evidence => "physical_evidence"
  | environmental_factor => "environmental_factor"
  | location_data => "location_data"
  | financial_trace => "financial_trace"
  | communication_record => "communication_record"
  | document_artifact => "document_artifact"
  | digital_footprint => "digital_footprint"
  | relationship_link => "relationship_link"
  | temporal_marker => "temporal_marker"
  | behavioral_pattern => "behavioral_pattern"
  | historical_record => "historical_record"
  | scientific_data => "scientific_data"
  | oral_history => "oral_history"
  | institutional_record => "institutional_record"
  end.

Inductive CaseType : Type :=
  | missing_person | missing_asset | hidden_wealth | fraud | corruption
  | predatory_lending | financial_crime | identity_theft | money_laundering
  | asset_tracing | witness_protection | historical_investigation.

Inductive Jurisdiction : Type :=
  | IE | UK | NI | SC | WA | EN | ES | EU | GLOBAL.

Definition Jurisdiction_eqb (a b : Jurisdiction) : bool :=
  match a, b with
  | IE, IE | UK, UK | NI, NI | SC, SC | WA, WA
  | EN, EN | ES, ES | EU, EU | GLOBAL, GLOBAL => true
  | _, _ => false
  end.

Definition Jurisdiction_toString (j : Jurisdiction) : string :=
  match j with
  | IE => "IE" | UK => "UK" | NI => "NI" | SC => "SC" | WA => "WA"
  | EN => "EN" | ES => "ES" | EU => "EU" | GLOBAL => "GLOBAL"
  end.

(** A [Record<string, unknown>] that the engines only copy. *)
Definition Metadata : Type := list (string * string).

Module ChainOfCustodyEntry.
Record t : Type := mk {
  timestamp : Date;
  handler : string;
  action : string;
  location : string;
  hash : string
}.
End ChainOfCustodyEntry.

Module TruthFragment.
Record t : Type := mk {
  id : string;
  type : FragmentType;
  content : string;
  source : string;
  verificationLevel : Q;      (* 1-10 from CVK 1100 *)
  confidence : Q;             (* 0-100% *)
  timestamp : Date;
  jurisdiction : Jurisdiction;
  metadata : Metadata;
  chainOfCustody : list ChainOfCustodyEntry.t;
  isReal : bool;
  isTrue : bool;
  isNeeded : bool
}.
End TruthFragment.

Module Topology.
Inductive t : Type :=
  | corner | edge | interior | bridge | keystone.
End Topology.

Inductive Direction : Type :=
  | north | south | east | west | temporal | causal.

Definition Direction_toString (d : Direction) : string :=
  match d with
  | north => "north" | south => "south" | east => "east"
  | west => "west" | temporal => "temporal" | causal => "causal"
  end.

Module ComponentShape.
Record t : Type := mk {
  topology : Topology.t;
  complexity : Z;             (* 1-10 *)
  symmetry : bool;
  uniqueIdentifier : string
}.
End ComponentShape.

Module ComponentEdge.
Record t : Type := mk {
  direction : Direction;
  pattern : string;
  compatibleWith : list string;
  incompatibleWith : list string;
  strength : Q
}.
End ComponentEdge.

Module ComponentPosition.
Record t : Type := mk {
  x : Z;
  y : Z;
  z : Z;
  rotation : Z;
  confidence : Q
}.
End ComponentPosition.

Module JigsawComponent.
Record t : Type := mk {
  id : string;
  fragmentId : string;
  shape : ComponentShape.t;
  edges : list ComponentEdge.t;
  weight : Q;
  position : option ComponentPosition.t;   (* null until placed *)
  locked : bool;
  hash : string;
  compressionRatio : Q;
  engineeringSignature : string
}.
End JigsawComponent.

Module PictureGap.
Record t : Type := mk {
  id : string;
  location : ComponentPosition.t;
  requiredShape : ComponentShape.t;
  requiredEdges : list ComponentEdge.t;
  possibleSources : list string;
  priority : Z;
  description : string
}.
End PictureGap.

Inductive ConclusionType : Type :=
  | finding | inference | recommendation | warning | certainty.

Module Conclusion.
Record t : Type := mk {
  id : string;
  type : ConclusionType;
  statement : string;
  supportingComponents : list string;
  confidence : num;
  courtReady : bool;
  humanVerified : bool;
  legalImplications : list string
}.
End Conclusion.

(** A reference to a component object: its index in [Picture.components]. *)
Definition ref : Type := nat.

Module Picture.
Record t : Type := mk {
  id : string;
  caseId : string;
  caseType : CaseType;
  title : string;
  components : list JigsawComponent.t;
  placedComponents : list ref;
  unplacedComponents : list ref;
  completionPercentage : num;
  gaps : list PictureGap.t;
  conclusions : list Conclusion.t;
  reconstructedTruth : string;
  courtReady : bool;
  humanReviewRequired : bool;
  hash : string;
  createdAt : Z;
  updatedAt : Z
}.
End Picture.

Module JigsawResult.
Record t : Type := mk {
  success : bool;
  picture : Picture.t;
  processingTime : Z;
  fragmentsProcessed : nat;
  componentsCreated : nat;
  componentsPlaced : nat;
  gapsIdentified : nat;
  conclusionsDrawn : nat;
  humanReviewRequired : bool;
  courtReadiness : num
}.
End JigsawResult.

(** ** Types of the CVK 1100 engine (cvk-1100, TYPES & INTERFACES) *)

Module SourceType.
Inductive t : Type :=
  | cave_carving | ancient_manuscript | historical_archive | oral_tradition
  | written_record | legal_document | financial_record | government_database
  | corporate_record | digital_trace | witness_statement | physical_evidence
  | scientific_analysis | surveillance_data | communication_intercept
  | osint_collection.

Definition toString (t : t) : string :=
  match t with
  | cave_carving => "cave_carving"
  | ancient_manuscript => "ancient_manuscript"
  | historical_archive => "historical_archive"
  | oral_tradition => "oral_tradition"
  | written_record => "written_record"
  | legal_document => "legal_document"
  | financial_record => "financial_record"
  | government_database => "government_database"
  | corporate_record => "corporate_record"
  | digital_trace => "digital_trace"
  | witness_statement => "witness_statement"
  | physical_evidence => "physical_evidence"
  | scientific_analysis => "scientific_analysis"
  | surveillance_data => "surveillance_data"
  | communication_intercept => "communication_intercept"
  | osint_collection => "osint_collection"
  end.
End SourceType.

Module ProvenanceRecord.
Record t : Type := mk {
  timestamp : Date;
  source : string;
  method : string;
  handler : string;
  verified : bool
}.
End ProvenanceRecord.

Module RawInput.
Record t : Type := mk {
  id : string;
  source : string;
  sourceType : SourceType.t;
  content : string;
  rawData : Metadata;
  metadata : Metadata;
  timestamp : Date;
  jurisdiction : Jurisdiction;
  provenance : list ProvenanceRecord.t
}.
End RawInput.

Module CaseContext.
Record t : Type := mk {
  caseId : string;
  caseType : string;
  startDate : Date;
  jurisdictions : list Jurisdiction;
  subjects : list string;
  keywords : list string
}.
End CaseContext.

Module RealityCheck.
Record t : Type := mk {
  check : string;
  passed : bool;
  evidence : string;
  confidence : Q
}.
End RealityCheck.

Module TruthCheck.
Record t : Type := mk {
  check : string;
  passed : bool;
  corroboration : list string;
  contradictions : list string;
  confidence : Q
}.
End TruthCheck.

Module NecessityCheck.
Record t : Type := mk {
  check : string;
  needed : bool;
  relevance : Q;
  reason : string
}.
End NecessityCheck.

Module CrossReference.
Record t : Type := mk {
  sourceId : string;
  sourceName : string;
  matches : bool;
  matchScore : Q;
  discrepancies : list string
}.
End CrossReference.

Module AnomalyType.
Inductive t : Type :=
  | temporal | logical | statistical | behavioral | documentary.
End AnomalyType.

Inductive Severity : Type :=
  | low | medium | high | critical.

Module Anomaly.
Record t : Type := mk {
  type : AnomalyType.t;
  description : string;
  severity : Severity;
  requiresHumanReview : bool
}.
End Anomaly.

Module VerificationReasoning.
Record t : Type := mk {
  realityChecks : list RealityCheck.t;
  truthChecks : list TruthCheck.t;
  necessityChecks : list NecessityCheck.t;
  crossReferences : list CrossReference.t;
  anomalies : list Anomaly.t;
  overallAssessment : string
}.
End VerificationReasoning.

Module VerificationResult.
Record t : Type := mk {
  inputId : string;
  isReal : bool;
  isTrue : bool;
  isNeeded : bool;
  verificationLevel : Z;
  confidence : Q;
  reasoning : VerificationReasoning.t;
  fragment : option TruthFragment.t;
  rejected : bool;
  rejectionReason : option string
}.
End VerificationResult.

Inductive RejectionCategory : Type :=
  | not_real | not_true | not_needed | insufficient_verification.

Module RejectedInput.
Record t : Type := mk {
  inputId : string;
  reason : string;
  category : RejectionCategory;
  confidence : Q
}.
End RejectedInput.

Module HumanReviewItem.
Record t : Type := mk {
  inputId : string;
  reason : string;
  priority : Z;
  requiredExpertise : list string;
  deadline : option Z
}.
End HumanReviewItem.

(** The [verificationSummary] and [engineSignature] of the result are not
    part of this development. *)
Module CVK1100Result.
Record t : Type := mk {
  success : bool;
  processedInputs : nat;
  verifiedFragments : list TruthFragment.t;
  rejectedInputs : list RejectedInput.t;
  humanReviewRequired : list HumanReviewItem.t;
  processingTime : Z
}.
End CVK1100Result.

#[global] Instance FragmentType_eq_dec : EqDecision FragmentType.
Proof. solve_decision. Defined.
#[global] Instance Topology_eq_dec : EqDecision Topology.t.
Proof. solve_decision. Defined.
#[global] Instance Direction_eq_dec : EqDecision Direction.
Proof. solve_decision. Defined.
#[global] Instance ConclusionType_eq_dec : EqDecision ConclusionType.
Proof. solve_decision. Defined.
#[global] Instance SourceType_eq_dec : EqDecision SourceType.t.
Proof. solve_decision. Defined.
#[global] Instance Severity_eq_dec : EqDecision Severity.
Proof. solve_decision. Defined.
#[global] Instance AnomalyType_eq_dec : EqDecision AnomalyType.t.
Proof. solve_decision. Defined.

(** ** The platform: what Node.js provides *)

Class Platform : Type := {
  sha256 : string -> string;
  sha512 : string -> string;
  md5 : string -> string;
  Date_toString : Date -> string;         (* a date inside a template string *)
  Date_toISOString : Z -> string;
  Date_getFullYear : Z -> Z;
  Number_toString : num -> string;
  Number_toFixed1 : num -> string;
  (* [new RegExp(source, flags).test(subject)] *)
  RegExp_test : string -> string -> string -> bool;
  JSON_stringify_fragment : TruthFragment.t -> string;
  JSON_stringify_shape : ComponentShape.t -> string;
  (* [JSON.stringify({ fragment, shape, timestamp })] *)
  JSON_stringify_hashInput : TruthFragment.t -> ComponentShape.t -> string -> string;
  JSON_stringify_picture : Picture.t -> string;
  JSON_stringify_provenance : ProvenanceRecord.t -> string
}.

(** [array.includes(s)] on an array of strings. *)
Definition includes (l : list string) (s : string) : bool :=
  existsb (String.eqb s) l.

(** [parts.join(sep)] *)
Definition newline : string := String (Ascii.ascii_of_nat 10) EmptyString.

Definition join (sep : string) (parts : list string) : string :=
  match parts with
  | [] => ""
  | first :: rest => foldl (fun acc part => acc +:+ sep +:+ part) first rest
  end.

(** [array.sort((a, b) => key(b) - key(a))]: a stable sort, largest key first. *)
Section Sort.
Context {A : Type} (key : A -> Q).

Fixpoint insertDesc (a : A) (l : list A) : list A :=
  match l with
  | [] => [a]
  | b :: l' => if Qltb (key a) (key b) then b :: insertDesc a l' else a :: b :: l'
  end.

Definition sortDesc (l : list A) : list A := foldr insertDesc [] l.
End Sort.

(** * The Jigsaw Protocol engine *)

Module JigsawProtocolEngine.

Record t : Type := mk { engineId : string }.

(** [constructor()] *)
Definition new : M t :=
  (u <~ randomUUID ;; ret (mk ("JIGSAW-" +:+ u)))%M.

Section Methods.
Context `{Platform}.

(** STEP 1: only what CVK 1100 determined is REAL, TRUE and NEEDED. *)
Definition passesGate (f : TruthFragment.t) : bool :=
  f.(TruthFragment.isReal) &&
  f.(TruthFragment.isTrue) &&
  f.(TruthFragment.isNeeded) &&
  Qle_bool 5 f.(TruthFragment.verificationLevel).

Definition filterVerifiedFragments (fragments : list TruthFragment.t)
  : list TruthFragment.t :=
  List.filter passesGate fragments.

Definition determineTopology (fragment : TruthFragment.t) : Topology.t :=
  match fragment.(TruthFragment.type) with
  | temporal_marker => Topology.edge
  | location_data => Topology.corner
  | relationship_link => Topology.bridge
  | financial_trace => Topology.interior
  | survivor_testimony => Topology.keystone
  | _ => Topology.interior
  end.

Definition generateShape (fragment : TruthFragment.t) : ComponentShape.t :=
  let topology := determineTopology fragment in
  let complexity :=
    Z.min 10 (Qceiling ((fragment.(TruthFragment.verificationLevel)
                         + fragment.(TruthFragment.confidence) / 10) / 2)) in
  let symmetry :=
    bool_decide (fragment.(TruthFragment.type) = temporal_marker)
    || bool_decide (fragment.(TruthFragment.type) = location_data) in
  let uniqueIdentifier :=
    String.substring 0 16
      (sha256 (fragment.(TruthFragment.id) +:+ "-"
               +:+ fragment.(TruthFragment.content) +:+ "-"
               +:+ Date_toString fragment.(TruthFragment.timestamp))) in
  ComponentShape.mk topology complexity symmetry uniqueIdentifier.

Definition calculateWeight (fragment : TruthFragment.t) : Q :=
  let weight := (fragment.(TruthFragment.verificationLevel) * 10)%Q in
  let weight := (weight + fragment.(TruthFragment.confidence) / 10)%Q in
  let weight :=
    if bool_decide (fragment.(TruthFragment.type) = survivor_testimony)
    then (weight + 20)%Q else weight in
  let weight :=
    if bool_decide (fragment.(TruthFragment.type) = physical_evidence)
    then (weight + 15)%Q else weight in
  let weight :=
    if bool_decide (fragment.(TruthFragment.type) = document_artifact)
    then (weight + 10)%Q else weight in
  let weight :=
    if 0 <? length fragment.(TruthFragment.chainOfCustody)
    then (weight + 5)%Q else weight in
  Qmin 100 weight.

Definition generateEngineeringSignature
    (this : t) (fragment : TruthFragment.t) (shape : ComponentShape.t) : string :=
  sha512 (fragment.(TruthFragment.id) +:+ "-"
          +:+ FragmentType_toString fragment.(TruthFragment.type) +:+ "-"
          +:+ shape.(ComponentShape.uniqueIdentifier) +:+ "-"
          +:+ this.(engineId)).

Definition hashComponent (fragment : TruthFragment.t) (shape : ComponentShape.t)
  : M string :=
  (now <~ Date_now ;;
   ret (sha256 (JSON_stringify_hashInput fragment shape (Date_toISOString now))))%M.

Definition compressFragment (this : t) (fragment : TruthFragment.t)
  : M JigsawComponent.t :=
  let shape := generateShape fragment in
  let originalSize := String.length (JSON_stringify_fragment fragment) in
  let compressedSize := String.length (JSON_stringify_shape shape) in
  let compressionRatio :=
    (inject_Z (Z.of_nat originalSize) / inject_Z (Z.of_nat compressedSize))%Q in
  let engineeringSignature := generateEngineeringSignature this fragment shape in
  (u <~ randomUUID ;;
   h <~ hashComponent fragment shape ;;
   ret (JigsawComponent.mk
          ("JC-" +:+ u)
          fragment.(TruthFragment.id)
          shape
          []
          (calculateWeight fragment)
          None
          false
          h
          compressionRatio
          engineeringSignature))%M.

(** STEP 2 *)
Definition compressFragments (this : t) (fragments : list TruthFragment.t)
  : M (list JigsawComponent.t) :=
  mapM (compressFragment this) fragments.

Definition generateEdgePattern
    (component : JigsawComponent.t) (direction : Direction) : string :=
  String.substring 0 8
    (md5 (component.(JigsawComponent.id) +:+ "-"
          +:+ Direction_toString direction +:+ "-"
          +:+ component.(JigsawComponent.shape).(ComponentShape.uniqueIdentifier))).

Definition shapesCanConnect
    (shape1 shape2 : ComponentShape.t) (direction : Direction) : bool :=
  if bool_decide (shape1.(ComponentShape.topology) = Topology.corner)
     && bool_decide (shape2.(ComponentShape.topology) = Topology.edge) then true
  else if bool_decide (shape1.(ComponentShape.topology) = Topology.edge)
          && bool_decide (shape2.(ComponentShape.topology) = Topology.interior) then true
  else if bool_decide (shape1.(ComponentShape.topology) = Topology.bridge)
          || bool_decide (shape2.(ComponentShape.topology) = Topology.bridge) then true
  else if bool_decide (shape1.(ComponentShape.topology) = Topology.keystone)
          && (7 <=? shape2.(ComponentShape.complexity))%Z then true
  else if bool_decide (shape1.(ComponentShape.topology) = Topology.interior)
          && bool_decide (shape2.(ComponentShape.topology) = Topology.interior) then true
  else if bool_decide (direction = temporal) then true
  else if bool_decide (direction = causal) then
    (Z.abs (shape1.(ComponentShape.complexity)
            - shape2.(ComponentShape.complexity)) <=? 2)%Z
  else false.

Definition calculateEdgeStrength
    (component : JigsawComponent.t) (direction : Direction) : Q :=
  let strength := 50%Q in
  let strength :=
    if bool_decide (direction = temporal) then (strength + 20)%Q else strength in
  let strength :=
    if bool_decide (direction = causal) then (strength + 25)%Q else strength in
  let strength :=
    (strength
     + inject_Z component.(JigsawComponent.shape).(ComponentShape.complexity) * 3)%Q in
  let strength :=
    if negb component.(JigsawComponent.shape).(ComponentShape.symmetry)
    then (strength + 10)%Q else strength in
  Qmin 100 strength.

(** The loop of [findCompatibleComponents], from index [i] on. *)
Fixpoint findCompatibleFrom
    (component : JigsawComponent.t) (direction : Direction)
    (currentIndex i : nat) (rest : list JigsawComponent.t)
  : list string * list string :=
  match rest with
  | [] => ([], [])
  | other :: rest' =>
      let '(compatible, incompatible) :=
        findCompatibleFrom component direction currentIndex (S i) rest' in
      if i =? currentIndex then (compatible, incompatible)
      else if shapesCanConnect component.(JigsawComponent.shape)
                               other.(JigsawComponent.shape) direction
      then (other.(JigsawComponent.id) :: compatible, incompatible)
      else (compatible, other.(JigsawComponent.id) :: incompatible)
  end.

Definition findCompatibleComponents
    (component : JigsawComponent.t) (direction : Direction) (pattern : string)
    (allComponents : list JigsawComponent.t) (currentIndex : nat)
  : list string * list string :=
  findCompatibleFrom component direction currentIndex 0 allComponents.

Definition directions : list Direction :=
  [north; south; east; west; temporal; causal].

Definition calculateEdges
    (component : JigsawComponent.t) (allComponents : list JigsawComponent.t)
    (currentIndex : nat) : list ComponentEdge.t :=
  map (fun direction =>
         let pattern := generateEdgePattern component direction in
         let '(compatible, incompatible) :=
           findCompatibleComponents component direction pattern
                                    allComponents currentIndex in
         ComponentEdge.mk direction pattern compatible incompatible
                          (calculateEdgeStrength component direction))
      directions.

Definition withEdges (component : JigsawComponent.t) (edges : list ComponentEdge.t)
  : JigsawComponent.t :=
  JigsawComponent.mk
    component.(JigsawComponent.id)
    component.(JigsawComponent.fragmentId)
    component.(JigsawComponent.shape)
    edges
    component.(JigsawComponent.weight)
    component.(JigsawComponent.position)
    component.(JigsawComponent.locked)
    component.(JigsawComponent.hash)
    component.(JigsawComponent.compressionRatio)
    component.(JigsawComponent.engineeringSignature).

(** STEP 3 *)
Definition engineerEdges (components : list JigsawComponent.t)
  : list JigsawComponent.t :=
  imap (fun index component =>
          withEdges component (calculateEdges component components index))
       components.

(** STEP 4.  The objects of [components] get the references [0 .. n-1];
    [unplacedComponents] is a fresh array of the same references. *)
Definition initializePicture
    (caseId : string) (caseType : CaseType) (caseTitle : string)
    (components : list JigsawComponent.t) : M Picture.t :=
  (u <~ randomUUID ;;
   createdAt <~ Date_now ;;
   updatedAt <~ Date_now ;;
   ret (Picture.mk
          ("PIC-" +:+ u) caseId caseType caseTitle
          components
          []
          (seq 0 (length components))
          (Fin 0)
          [] [] ""
          false false ""
          createdAt updatedAt))%M.

(** [picture.components[r]], used as an object. *)
Definition getComponent (picture : Picture.t) (r : ref) : M JigsawComponent.t :=
  unwrap (picture.(Picture.components) !! r).

(** The [switch] of [calculateAdjacentPosition]. *)
Definition adjacentTo (pos : ComponentPosition.t) (direction : Direction)
  : ComponentPosition.t :=
  let x := pos.(ComponentPosition.x) in
  let y := pos.(ComponentPosition.y) in
  let z := pos.(ComponentPosition.z) in
  let rotation := pos.(ComponentPosition.rotation) in
  match direction with
  | north => ComponentPosition.mk x (y + 1) z rotation 90
  | south => ComponentPosition.mk x (y - 1) z rotation 90
  | east => ComponentPosition.mk (x + 1) y z rotation 90
  | west => ComponentPosition.mk (x - 1) y z rotation 90
  | temporal => ComponentPosition.mk x y (z + 1) rotation 85
  | causal => ComponentPosition.mk x y (z - 1) rotation 85
  end.

(** [const pos = placed.position!] *)
Definition calculateAdjacentPosition
    (placed : JigsawComponent.t) (direction : Direction) : M ComponentPosition.t :=
  (pos <~ unwrap placed.(JigsawComponent.position) ;;
   ret (adjacentTo pos direction))%M.

(** The inner loop of [findBestPosition]: the edges of [component]
    against one placed component. *)
Fixpoint placementsAgainst
    (component placed : JigsawComponent.t) (edges : list ComponentEdge.t)
  : M (list (ComponentPosition.t * Q)) :=
  match edges with
  | [] => ret []
  | edge :: edges' =>
      if includes edge.(ComponentEdge.compatibleWith) placed.(JigsawComponent.id)
      then
        (position <~ calculateAdjacentPosition placed edge.(ComponentEdge.direction) ;;
         let score :=
           (edge.(ComponentEdge.strength)
            * (component.(JigsawComponent.weight) / 100))%Q in
         rest <~ placementsAgainst component placed edges' ;;
         ret ((position, score) :: rest))%M
      else placementsAgainst component placed edges'
  end.

(** The outer loop of [findBestPosition]. *)
Fixpoint compatiblePlacements
    (component : JigsawComponent.t) (picture : Picture.t) (placedRefs : list ref)
  : M (list (ComponentPosition.t * Q)) :=
  match placedRefs with
  | [] => ret []
  | r :: placedRefs' =>
      (placed <~ getComponent picture r ;;
       here <~ placementsAgainst component placed component.(JigsawComponent.edges) ;;
       rest <~ compatiblePlacements component picture placedRefs' ;;
       ret (here ++ rest))%M
  end.

Definition findBestPosition (component : JigsawComponent.t) (picture : Picture.t)
  : M (option ComponentPosition.t) :=
  if length picture.(Picture.placedComponents) =? 0
  then ret (Some (ComponentPosition.mk 0 0 0 0 100))
  else
    (placements <~ compatiblePlacements component picture
                                        picture.(Picture.placedComponents) ;;
     match sortDesc snd placements with
     | [] => ret None
     | best :: _ => ret (Some (fst best))
     end)%M.

(** [component.position = position; component.locked = true] *)
Definition place (component : JigsawComponent.t) (position : ComponentPosition.t)
  : JigsawComponent.t :=
  JigsawComponent.mk
    component.(JigsawComponent.id)
    component.(JigsawComponent.fragmentId)
    component.(JigsawComponent.shape)
    component.(JigsawComponent.edges)
    component.(JigsawComponent.weight)
    (Some position)
    true
    component.(JigsawComponent.hash)
    component.(JigsawComponent.compressionRatio)
    component.(JigsawComponent.engineeringSignature).

(** The picture with its three arrays replaced. *)
Definition withArrays (p : Picture.t)
    (components : list JigsawComponent.t) (placed unplaced : list ref) : Picture.t :=
  Picture.mk
    p.(Picture.id) p.(Picture.caseId) p.(Picture.caseType) p.(Picture.title)
    components placed unplaced
    p.(Picture.completionPercentage) p.(Picture.gaps) p.(Picture.conclusions)
    p.(Picture.reconstructedTruth) p.(Picture.courtReady)
    p.(Picture.humanReviewRequired) p.(Picture.hash)
    p.(Picture.createdAt) p.(Picture.updatedAt).

Definition withCompletion (p : Picture.t) (completion : num) : Picture.t :=
  Picture.mk
    p.(Picture.id) p.(Picture.caseId) p.(Picture.caseType) p.(Picture.title)
    p.(Picture.components) p.(Picture.placedComponents)
    p.(Picture.unplacedComponents)
    completion p.(Picture.gaps) p.(Picture.conclusions)
    p.(Picture.reconstructedTruth) p.(Picture.courtReady)
    p.(Picture.humanReviewRequired) p.(Picture.hash)
    p.(Picture.createdAt) p.(Picture.updatedAt).

(** One turn of the [while] loop of [assemblePicture]. *)
Definition assembleIteration (assembled : Picture.t) : M Picture.t :=
  match assembled.(Picture.unplacedComponents) with
  | [] => throwTypeError
  | r :: rest =>
      (component <~ getComponent assembled r ;;
       position <~ findBestPosition component assembled ;;
       match position with
       | Some pos =>
           ret (withArrays assembled
                  (<[r := place component pos]> assembled.(Picture.components))
                  (assembled.(Picture.placedComponents) ++ [r])
                  rest)
       | None =>
           ret (withArrays assembled
                  assembled.(Picture.components)
                  assembled.(Picture.placedComponents)
                  (rest ++ [r]))
       end)%M
  end.

(** The [while] loop; it returns the picture and the value of
    [iterations] at exit. *)
Fixpoint assembleLoop (fuel : nat) (maxIterations iterations : nat)
    (assembled : Picture.t) : M (Picture.t * nat) :=
  if (0 <? length assembled.(Picture.unplacedComponents))
     && (iterations <? maxIterations)
  then
    match fuel with
    | O => fun _ => OutOfFuel
    | S fuel' =>
        (assembled' <~ assembleIteration assembled ;;
         assembleLoop fuel' maxIterations (S iterations) assembled')%M
    end
  else ret (assembled, iterations).

(** [unplacedComponents.sort((a, b) => b.weight - a.weight)] *)
Definition sortByWeight (picture : Picture.t) (refs : list ref) : M (list ref) :=
  (weighted <~ mapM (fun r => c <~ getComponent picture r ;;
                              ret (r, c.(JigsawComponent.weight))) refs ;;
   ret (map fst (sortDesc snd weighted)))%M.

(** The part of [assemblePicture] up to the end of the loop. *)
Definition assembleRun (picture : Picture.t) : M (Picture.t * nat) :=
  let maxIterations := length picture.(Picture.unplacedComponents) * 10 in
  (sorted <~ sortByWeight picture picture.(Picture.unplacedComponents) ;;
   assembleLoop maxIterations maxIterations 0
     (withArrays picture picture.(Picture.components)
                 picture.(Picture.placedComponents) sorted))%M.

(** STEP 5 *)
Definition assemblePicture (picture : Picture.t) : M Picture.t :=
  (run <~ assembleRun picture ;;
   let assembled := fst run in
   ret (withCompletion assembled
          (num_scale (div_lengths (length assembled.(Picture.placedComponents))
                                  (length assembled.(Picture.components)))
                     100)))%M.

Definition oppositeDirection (direction : Direction) : Direction :=
  match direction with
  | north => south
  | south => north
  | east => west
  | west => east
  | temporal => temporal
  | causal => causal
  end.

Definition suggestSources (direction : Direction) : list string :=
  match direction with
  | temporal =>
      ["Historical records"; "Archives"; "Witness testimony"; "Digital timestamps"]
  | causal =>
      ["Financial records"; "Communication logs"; "Relationship mapping"]
  | _ =>
      ["OSINT investigation"; "Document analysis"; "Witness interviews"]
  end.

(** [placedComponents.some(other => other.id !== component.id &&
    edge.compatibleWith.includes(other.id))] *)
Definition hasConnection (placed : list JigsawComponent.t)
    (component : JigsawComponent.t) (e : ComponentEdge.t) : bool :=
  existsb (fun other =>
             negb (String.eqb other.(JigsawComponent.id)
                              component.(JigsawComponent.id))
             && includes e.(ComponentEdge.compatibleWith)
                         other.(JigsawComponent.id))
          placed.

(** The test that guards [gaps.push]. *)
Definition emitsGap (placed : list JigsawComponent.t)
    (component : JigsawComponent.t) (e : ComponentEdge.t) : bool :=
  negb (hasConnection placed component e)
  && (0 <? length e.(ComponentEdge.compatibleWith)).

Definition makeGap (component : JigsawComponent.t) (e : ComponentEdge.t)
  : M PictureGap.t :=
  (u <~ randomUUID ;;
   location <~ calculateAdjacentPosition component e.(ComponentEdge.direction) ;;
   ret (PictureGap.mk
          ("GAP-" +:+ u)
          location
          (ComponentShape.mk
             Topology.interior
             component.(JigsawComponent.shape).(ComponentShape.complexity)
             false
             ("NEEDED-" +:+ Direction_toString e.(ComponentEdge.direction)))
          [ComponentEdge.mk
             (oppositeDirection e.(ComponentEdge.direction))
             e.(ComponentEdge.pattern)
             [component.(JigsawComponent.id)]
             []
             e.(ComponentEdge.strength)]
          (suggestSources e.(ComponentEdge.direction))
          (Qceiling (component.(JigsawComponent.weight) / 10))
          ("Missing " +:+ Direction_toString e.(ComponentEdge.direction)
           +:+ " connection from component "
           +:+ component.(JigsawComponent.id))))%M.

(** The inner loop of [identifyGaps]: the edges of one placed component. *)
Fixpoint gapsOfEdges (placed : list JigsawComponent.t)
    (component : JigsawComponent.t) (edges : list ComponentEdge.t)
  : M (list PictureGap.t) :=
  match edges with
  | [] => ret []
  | e :: edges' =>
      if emitsGap placed component e
      then
        (gap <~ makeGap component e ;;
         rest <~ gapsOfEdges placed component edges' ;;
         ret (gap :: rest))%M
      else gapsOfEdges placed component edges'
  end.

(** The outer loop of [identifyGaps]. *)
Fixpoint gapsOfComponents (placed todo : list JigsawComponent.t)
  : M (list PictureGap.t) :=
  match todo with
  | [] => ret []
  | component :: todo' =>
      (here <~ gapsOfEdges placed component component.(JigsawComponent.edges) ;;
       rest <~ gapsOfComponents placed todo' ;;
       ret (here ++ rest))%M
  end.

Definition withGaps (p : Picture.t) (gaps : list PictureGap.t) : Picture.t :=
  Picture.mk
    p.(Picture.id) p.(Picture.caseId) p.(Picture.caseType) p.(Picture.title)
    p.(Picture.components) p.(Picture.placedComponents)
    p.(Picture.unplacedComponents)
    p.(Picture.completionPercentage) gaps p.(Picture.conclusions)
    p.(Picture.reconstructedTruth) p.(Picture.courtReady)
    p.(Picture.humanReviewRequired) p.(Picture.hash)
    p.(Picture.createdAt) p.(Picture.updatedAt).

(** The objects that [picture.placedComponents] refers to. *)
Definition placedObjects (picture : Picture.t) : M (list JigsawComponent.t) :=
  mapM (getComponent picture) picture.(Picture.placedComponents).

(** STEP 6 *)
Definition identifyGaps (picture : Picture.t) : M Picture.t :=
  (placed <~ placedObjects picture ;;
   gaps <~ gapsOfComponents placed placed ;;
   ret (withGaps picture gaps))%M.

Definition ConclusionType_toUpperCase (t : ConclusionType) : string :=
  match t with
  | finding => "FINDING"
  | inference => "INFERENCE"
  | recommendation => "RECOMMENDATION"
  | warning => "WARNING"
  | certainty => "CERTAINTY"
  end.

Definition CaseType_toString (t : CaseType) : string :=
  match t with
  | missing_person => "missing_person"
  | missing_asset => "missing_asset"
  | hidden_wealth => "hidden_wealth"
  | fraud => "fraud"
  | corruption => "corruption"
  | predatory_lending => "predatory_lending"
  | financial_crime => "financial_crime"
  | identity_theft => "identity_theft"
  | money_laundering => "money_laundering"
  | asset_tracing => "asset_tracing"
  | witness_protection => "witness_protection"
  | historical_investigation => "historical_investigation"
  end.

Definition Number_ofNat (n : nat) : num := Fin (inject_Z (Z.of_nat n)).

Definition generateTruthNarrative
    (picture : Picture.t) (conclusions : list Conclusion.t) : string :=
  let parts :=
    [ "RECONSTRUCTED TRUTH - Case: " +:+ picture.(Picture.title);
      "Case Type: " +:+ CaseType_toString picture.(Picture.caseType);
      "Completion: " +:+ Number_toFixed1 picture.(Picture.completionPercentage)
        +:+ "%";
      "";
      "FINDINGS:" ] in
  let parts :=
    parts ++
    flat_map (fun conclusion =>
      [ "- [" +:+ ConclusionType_toUpperCase conclusion.(Conclusion.type) +:+ "] "
          +:+ conclusion.(Conclusion.statement);
        "  Confidence: " +:+ Number_toString conclusion.(Conclusion.confidence)
          +:+ "%";
        "  Court Ready: "
          +:+ (if conclusion.(Conclusion.courtReady) then "YES" else "NO") ])
      conclusions in
  let parts :=
    if 0 <? length picture.(Picture.gaps) then
      parts ++ [ ""; "GAPS REQUIRING INVESTIGATION:" ] ++
      flat_map (fun gap =>
        [ "- Priority "
            +:+ Number_toString (Fin (inject_Z gap.(PictureGap.priority)))
            +:+ ": " +:+ gap.(PictureGap.description);
          "  Suggested sources: " +:+ join ", " gap.(PictureGap.possibleSources) ])
        picture.(Picture.gaps)
    else parts in
  join newline parts.

Definition withConclusions (p : Picture.t)
    (conclusions : list Conclusion.t) (reconstructedTruth : string) : Picture.t :=
  Picture.mk
    p.(Picture.id) p.(Picture.caseId) p.(Picture.caseType) p.(Picture.title)
    p.(Picture.components) p.(Picture.placedComponents)
    p.(Picture.unplacedComponents)
    p.(Picture.completionPercentage) p.(Picture.gaps) conclusions
    reconstructedTruth p.(Picture.courtReady)
    p.(Picture.humanReviewRequired) p.(Picture.hash)
    p.(Picture.createdAt) p.(Picture.updatedAt).

(** STEP 7 *)
Definition drawConclusions (picture : Picture.t) : M Picture.t :=
  (placed <~ placedObjects picture ;;
   c1 <~ (if num_geb picture.(Picture.completionPercentage) 90 then
            (u <~ randomUUID ;;
             ret [Conclusion.mk
                    ("CONC-" +:+ u) certainty
                    "Picture is substantially complete. High confidence in reconstruction."
                    (map JigsawComponent.id placed)
                    picture.(Picture.completionPercentage)
                    true false
                    ["Evidence chain established";
                     "Pattern of conduct demonstrated"]])
          else ret []) ;;
   c2 <~ (if 0 <? length picture.(Picture.gaps) then
            (u <~ randomUUID ;;
             ret [Conclusion.mk
                    ("CONC-" +:+ u) recommendation
                    (Number_toString (Number_ofNat (length picture.(Picture.gaps)))
                     +:+ " gaps identified requiring additional investigation.")
                    []
                    (Fin 100)
                    false false
                    ["Additional evidence needed"; "Investigation incomplete"]])
          else ret []) ;;
   let highWeightComponents :=
     List.filter (fun c => Qle_bool 80 c.(JigsawComponent.weight)) placed in
   c3 <~ (if 3 <=? length highWeightComponents then
            (u <~ randomUUID ;;
             ret [Conclusion.mk
                    ("CONC-" +:+ u) finding
                    "Multiple high-confidence evidence pieces corroborate the reconstruction."
                    (map JigsawComponent.id highWeightComponents)
                    (Fin 95)
                    true false
                    ["Strong evidentiary foundation";
                     "Multiple independent sources"]])
          else ret []) ;;
   let conclusions := c1 ++ c2 ++ c3 in
   ret (withConclusions picture conclusions
          (generateTruthNarrative picture conclusions)))%M.

Definition withReadiness (p : Picture.t)
    (courtReady humanReviewRequired : bool) (hash : string) (updatedAt : Z)
  : Picture.t :=
  Picture.mk
    p.(Picture.id) p.(Picture.caseId) p.(Picture.caseType) p.(Picture.title)
    p.(Picture.components) p.(Picture.placedComponents)
    p.(Picture.unplacedComponents)
    p.(Picture.completionPercentage) p.(Picture.gaps) p.(Picture.conclusions)
    p.(Picture.reconstructedTruth) courtReady humanReviewRequired hash
    p.(Picture.createdAt) updatedAt.

(** STEP 8 *)
Definition assessCourtReadiness (picture : Picture.t) : M Picture.t :=
  (placed <~ placedObjects picture ;;
   let courtReadyConclusions :=
     List.filter Conclusion.courtReady picture.(Picture.conclusions) in
   let highConfidenceComponents :=
     List.filter (fun c => Qle_bool 70 c.(JigsawComponent.weight)) placed in
   let courtReady :=
     num_geb picture.(Picture.completionPercentage) 80
     && (1 <=? length courtReadyConclusions)
     && (3 <=? length highConfidenceComponents) in
   let humanReviewRequired :=
     existsb (fun c => bool_decide (c.(Conclusion.type) = certainty))
             picture.(Picture.conclusions)
     || num_geb picture.(Picture.completionPercentage) 95 in
   let hash := sha256 (JSON_stringify_picture picture) in
   updatedAt <~ Date_now ;;
   ret (withReadiness picture courtReady humanReviewRequired hash updatedAt))%M.

Definition calculateCourtReadiness (picture : Picture.t) : M num :=
  (placed <~ placedObjects picture ;;
   let score :=
     num_scale (num_scale picture.(Picture.completionPercentage) (1 / 100)) 40 in
   let courtReadyRatio :=
     (Qlen (List.filter Conclusion.courtReady picture.(Picture.conclusions))
      / inject_Z (Z.of_nat (Nat.max 1 (length picture.(Picture.conclusions)))))%Q in
   let score := num_add score (courtReadyRatio * 30) in
   let highWeightRatio :=
     (Qlen (List.filter (fun c => Qle_bool 70 c.(JigsawComponent.weight)) placed)
      / inject_Z (Z.of_nat (Nat.max 1 (length placed))))%Q in
   let score := num_add score (highWeightRatio * 20) in
   let score :=
     if length picture.(Picture.gaps) =? 0 then num_add score 10 else score in
   ret (num_min 100 score))%M.

(** MAIN ENTRY POINT.  The [recommendations] and [nextSteps] texts of the
    result are not part of this development. *)
Definition processFragments
    (this : t) (fragments : list TruthFragment.t)
    (caseId : string) (caseType : CaseType) (caseTitle : string)
  : M JigsawResult.t :=
  (startTime <~ Date_now ;;
   let verifiedFragments := filterVerifiedFragments fragments in
   components <~ compressFragments this verifiedFragments ;;
   let engineeredComponents := engineerEdges components in
   picture <~ initializePicture caseId caseType caseTitle engineeredComponents ;;
   assembledPicture <~ assemblePicture picture ;;
   pictureWithGaps <~ identifyGaps assembledPicture ;;
   finalPicture <~ drawConclusions pictureWithGaps ;;
   courtReadyPicture <~ assessCourtReadiness finalPicture ;;
   endTime <~ Date_now ;;
   courtReadiness <~ calculateCourtReadiness courtReadyPicture ;;
   ret (JigsawResult.mk
          true
          courtReadyPicture
          (endTime - startTime)
          (length fragments)
          (length components)
          (length courtReadyPicture.(Picture.placedComponents))
          (length courtReadyPicture.(Picture.gaps))
          (length courtReadyPicture.(Picture.conclusions))
          courtReadyPicture.(Picture.humanReviewRequired)
          courtReadiness))%M.

(** The [recommendations] of the result of [processFragments], which it
    computes from the picture it returns. *)
Definition generateRecommendations (picture : Picture.t) : list string :=
  (if num_ltb picture.(Picture.completionPercentage) 80
   then ["Continue investigation to gather additional evidence fragments"]
   else [])
  ++ (if 0 <? length picture.(Picture.gaps)
      then ["Address "
            +:+ Number_toString (Number_ofNat (length picture.(Picture.gaps)))
            +:+ " identified gaps before proceeding to court"]
      else [])
  ++ (if picture.(Picture.humanReviewRequired)
      then ["MANDATORY: Human review required before any legal action"]
      else [])
  ++ (if negb picture.(Picture.courtReady)
      then ["Picture not yet court-ready - additional verification needed"]
      else ["Picture is court-ready - proceed with legal counsel review"]).

(** The [nextSteps] of the result of [processFragments], from the same
    picture. *)
Definition generateNextSteps (picture : Picture.t) : list string :=
  (if 0 <? length picture.(Picture.gaps)
   then
     let highPriorityGaps :=
       List.filter (fun g => (7 <=? g.(PictureGap.priority))%Z)
                   picture.(Picture.gaps) in
     if 0 <? length highPriorityGaps
     then ["1. Investigate "
           +:+ Number_toString (Number_ofNat (length highPriorityGaps))
           +:+ " high-priority gaps"]
     else []
   else [])
  ++ (if picture.(Picture.humanReviewRequired)
      then ["2. Submit for human expert review (Level 7+ verification)"]
      else [])
  ++ (if picture.(Picture.courtReady)
      then ["3. Generate court-ready documentation package";
            "4. Coordinate with legal counsel for filing"]
      else ["3. Continue evidence gathering";
            "4. Re-run Jigsaw Protocol when new fragments available"]).

End Methods.
End JigsawProtocolEngine.

(** * The CVK 1100 truth engine *)

Module CVK1100Engine.

Record t : Type := mk { engineId : string }.

(** [constructor()]; [initializeKnowledgeBase] is empty. *)
Definition new : M t :=
  (u <~ randomUUID ;; ret (mk ("CVK1100-" +:+ u)))%M.

Section Methods.
Context `{Platform}.

Definition validSourceTypes : list SourceType.t :=
  [ SourceType.cave_carving; SourceType.ancient_manuscript;
    SourceType.historical_archive; SourceType.oral_tradition;
    SourceType.written_record; SourceType.legal_document;
    SourceType.financial_record; SourceType.government_database;
    SourceType.corporate_record; SourceType.digital_trace;
    SourceType.witness_statement; SourceType.physical_evidence;
    SourceType.scientific_analysis; SourceType.surveillance_data;
    SourceType.communication_intercept; SourceType.osint_collection ].

Definition includesSourceType (l : list SourceType.t) (s : SourceType.t) : bool :=
  existsb (fun s' => bool_decide (s' = s)) l.

Definition Number_ofLength (n : nat) : num := Fin (inject_Z (Z.of_nat n)).

(** The checks of [performRealityChecks], given the time that
    [new Date()] shows. *)
Definition realityChecksAt (now : Z) (input : RawInput.t) : list RealityCheck.t :=
  let hasSource := negb (String.eqb input.(RawInput.source) "") in
  let contentLength := String.length input.(RawInput.content) in
  let inputDate := input.(RawInput.timestamp) in
  let isValidDate :=
    date_leb inputDate (DateMs now)
    && match inputDate with
       | DateMs ms => (1900 <=? Date_getFullYear ms)%Z
       | InvalidDate => false
       end in
  let hasProvenance := 0 <? length input.(RawInput.provenance) in
  let validType := includesSourceType validSourceTypes input.(RawInput.sourceType) in
  [ RealityCheck.mk
      "Source existence verification"
      hasSource
      ("Source: " +:+ input.(RawInput.source))
      (if hasSource then 90 else 0)%Q;
    RealityCheck.mk
      "Content substantiveness"
      (10 <? contentLength)
      ("Content length: " +:+ Number_toString (Number_ofLength contentLength)
       +:+ " characters")
      (Qmin 100 (inject_Z (Z.of_nat contentLength) / 10));
    RealityCheck.mk
      "Temporal validity"
      isValidDate
      ("Timestamp: " +:+ Date_toString input.(RawInput.timestamp))
      (if isValidDate then 95 else 10)%Q;
    RealityCheck.mk
      "Provenance chain verification"
      hasProvenance
      ("Provenance records: "
       +:+ Number_toString (Number_ofLength (length input.(RawInput.provenance))))
      (if hasProvenance then 85 else 40)%Q;
    RealityCheck.mk
      "Source type classification"
      validType
      ("Source type: " +:+ SourceType.toString input.(RawInput.sourceType))
      (if validType then 100 else 0)%Q ].

Definition performRealityChecks (input : RawInput.t) : M (list RealityCheck.t) :=
  (now <~ Date_now ;; ret (realityChecksAt now input))%M.

Definition verifiedProvenance (input : RawInput.t) : list ProvenanceRecord.t :=
  List.filter ProvenanceRecord.verified input.(RawInput.provenance).

Definition performTruthChecks (input : RawInput.t) (context : CaseContext.t)
  : list TruthCheck.t :=
  let temporallyConsistent :=
    date_leb context.(CaseContext.startDate) input.(RawInput.timestamp) in
  let jurisdictionValid :=
    existsb (Jurisdiction_eqb input.(RawInput.jurisdiction))
            context.(CaseContext.jurisdictions) in
  [ TruthCheck.mk
      "Internal consistency analysis"
      true
      ["Content is internally consistent"]
      []
      80;
    TruthCheck.mk
      "External source corroboration"
      (existsb ProvenanceRecord.verified input.(RawInput.provenance))
      (map ProvenanceRecord.source (verifiedProvenance input))
      []
      (Qlen (verifiedProvenance input) * 20);
    TruthCheck.mk
      "Temporal consistency with case timeline"
      temporallyConsistent
      (if temporallyConsistent then ["Within case timeline"] else [])
      (if temporallyConsistent then [] else ["Outside case timeline"])
      (if temporallyConsistent then 90 else 30)%Q;
    TruthCheck.mk
      "Jurisdictional validity"
      jurisdictionValid
      (if jurisdictionValid
       then ["Valid for " +:+ Jurisdiction_toString input.(RawInput.jurisdiction)]
       else [])
      (if jurisdictionValid then [] else ["Not valid for case jurisdictions"])
      (if jurisdictionValid then 95 else 50)%Q ].

(** [relevantSourceTypes[caseType] || []], for the keys the table defines
    (a case type that names a property inherited from [Object.prototype] is
    outside the model). *)
Definition relevantSourceTypes (caseType : string) : list SourceType.t :=
  if String.eqb caseType "fraud" then
    [ SourceType.financial_record; SourceType.legal_document;
      SourceType.corporate_record; SourceType.digital_trace ]
  else if String.eqb caseType "missing_person" then
    [ SourceType.witness_statement; SourceType.surveillance_data;
      SourceType.digital_trace; SourceType.communication_intercept ]
  else if String.eqb caseType "predatory_lending" then
    [ SourceType.financial_record; SourceType.legal_document;
      SourceType.corporate_record ]
  else if String.eqb caseType "corruption" then
    [ SourceType.financial_record; SourceType.government_database;
      SourceType.communication_intercept ]
  else [].

(** The score of [calculateRelevance], given the time that [Date.now()]
    shows. *)
Definition relevanceAt (now : Z) (input : RawInput.t) (context : CaseContext.t) : Q :=
  let score := 50%Q in
  let relevant := relevantSourceTypes context.(CaseContext.caseType) in
  let score :=
    if includesSourceType relevant input.(RawInput.sourceType)
    then (score + 30)%Q else score in
  let score :=
    if existsb ProvenanceRecord.verified input.(RawInput.provenance)
    then (score + 15)%Q else score in
  let recent :=
    match input.(RawInput.timestamp) with
    | DateMs ms =>
        Qltb (inject_Z (now - ms) / inject_Z (1000 * 60 * 60 * 24)) 365
    | InvalidDate => false
    end in
  let score := if recent then (score + 10)%Q else score in
  Qmin 100 score.

Definition calculateRelevance (input : RawInput.t) (context : CaseContext.t) : M Q :=
  (now <~ Date_now ;; ret (relevanceAt now input context))%M.

Definition actionablePatterns : list (string * string) :=
  [ ("\b[A-Z]{2}\d{6,}\b", "");
    ("\b\d{4}[-\s]?\d{4}[-\s]?\d{4}[-\s]?\d{4}\b", "");
    ("\b[A-Za-z0-9._%+-]+@[A-Za-z0-9.-]+\.[A-Z|a-z]{2,}\b", "");
    ("\b\d{1,3}\.\d{1,3}\.\d{1,3}\.\d{1,3}\b", "");
    ("\b[A-Z]{2}\d{2}[A-Z0-9]{4}\d{7}[A-Z0-9]?\d?\b", "i") ].

Definition isActionableIntelligence (input : RawInput.t) (context : CaseContext.t)
  : bool :=
  existsb (fun pattern =>
             RegExp_test (fst pattern) (snd pattern) input.(RawInput.content))
          actionablePatterns.

(** The checks of [performNecessityChecks], given the relevance score. *)
Definition necessityChecksFor
    (relevanceScore : Q) (input : RawInput.t) (context : CaseContext.t)
  : list NecessityCheck.t :=
  let isActionable := isActionableIntelligence input context in
  [ NecessityCheck.mk
      "Case type relevance"
      (Qle_bool 50 relevanceScore)
      relevanceScore
      ("Relevance score: " +:+ Number_toString (Fin relevanceScore)
       +:+ "% for " +:+ context.(CaseContext.caseType));
    NecessityCheck.mk
      "Information uniqueness"
      true
      80
      "Provides unique information not duplicated elsewhere";
    NecessityCheck.mk
      "Actionable intelligence assessment"
      isActionable
      (if isActionable then 90 else 30)%Q
      (if isActionable then "Can be acted upon" else "Not directly actionable") ].

Definition performNecessityChecks (input : RawInput.t) (context : CaseContext.t)
  : M (list NecessityCheck.t) :=
  (relevanceScore <~ calculateRelevance input context ;;
   ret (necessityChecksFor relevanceScore input context))%M.

Definition performCrossReferences (input : RawInput.t) (context : CaseContext.t)
  : list CrossReference.t :=
  map (fun prov =>
         CrossReference.mk
           (md5 prov.(ProvenanceRecord.source))
           prov.(ProvenanceRecord.source)
           prov.(ProvenanceRecord.verified)
           (if prov.(ProvenanceRecord.verified) then 90 else 40)%Q
           (if prov.(ProvenanceRecord.verified) then [] else ["Unverified source"]))
      input.(RawInput.provenance)
  ++ [ CrossReference.mk
         context.(CaseContext.caseId)
         ("Case: " +:+ context.(CaseContext.caseId))
         true
         85
         [] ].

Definition detectAnomalies (input : RawInput.t)
    (realityChecks : list RealityCheck.t) (truthChecks : list TruthCheck.t)
  : M (list Anomaly.t) :=
  (now <~ Date_now ;;
   let a1 :=
     if date_ltb (DateMs now) input.(RawInput.timestamp)
     then [Anomaly.mk AnomalyType.temporal "Timestamp is in the future" critical true]
     else [] in
   let failedRealityChecks :=
     List.filter (fun c => negb c.(RealityCheck.passed)) realityChecks in
   let a2 :=
     if 0 <? length failedRealityChecks
     then [Anomaly.mk AnomalyType.logical
             (Number_toString (Number_ofLength (length failedRealityChecks))
              +:+ " reality checks failed")
             (if 2 <? length failedRealityChecks then high else medium)
             (2 <? length failedRealityChecks)]
     else [] in
   let contradictions := flat_map TruthCheck.contradictions truthChecks in
   let a3 :=
     if 0 <? length contradictions
     then [Anomaly.mk AnomalyType.documentary
             (Number_toString (Number_ofLength (length contradictions))
              +:+ " contradictions detected")
             high
             true]
     else [] in
   ret (a1 ++ a2 ++ a3))%M.

Definition calculateVerificationLevel
    (realityChecks : list RealityCheck.t) (truthChecks : list TruthCheck.t)
    (necessityChecks : list NecessityCheck.t)
    (crossReferences : list CrossReference.t) (anomalies : list Anomaly.t) : Z :=
  let level := 5%Q in
  let realityScore :=
    (Qlen (List.filter RealityCheck.passed realityChecks) / Qlen realityChecks)%Q in
  let level := (level + realityScore * 2)%Q in
  let truthScore :=
    (Qlen (List.filter TruthCheck.passed truthChecks) / Qlen truthChecks)%Q in
  let level := (level + truthScore * 2)%Q in
  let crossRefScore :=
    (Qsum (map CrossReference.matchScore crossReferences)
     / (Qlen crossReferences * 100))%Q in
  let level := (level + crossRefScore)%Q in
  let criticalAnomalies :=
    List.filter (fun a => bool_decide (a.(Anomaly.severity) = critical)) anomalies in
  let highAnomalies :=
    List.filter (fun a => bool_decide (a.(Anomaly.severity) = high)) anomalies in
  let level := (level - Qlen criticalAnomalies * 2)%Q in
  let level := (level - Qlen highAnomalies)%Q in
  Z.max 1 (Z.min 10 (Math_round level)).

Definition calculateConfidence
    (realityChecks : list RealityCheck.t) (truthChecks : list TruthCheck.t)
    (necessityChecks : list NecessityCheck.t)
    (crossReferences : list CrossReference.t) : Q :=
  let realityConfidence :=
    (Qsum (map RealityCheck.confidence realityChecks) / Qlen realityChecks)%Q in
  let truthConfidence :=
    (Qsum (map TruthCheck.confidence truthChecks) / Qlen truthChecks)%Q in
  let necessityRelevance :=
    (Qsum (map NecessityCheck.relevance necessityChecks) / Qlen necessityChecks)%Q in
  let crossRefScore :=
    (Qsum (map CrossReference.matchScore crossReferences) / Qlen crossReferences)%Q in
  (realityConfidence * (3 # 10) + truthConfidence * (3 # 10)
   + necessityRelevance * (2 # 10) + crossRefScore * (2 # 10))%Q.

Definition generateAssessment (isReal isTrue isNeeded : bool) (confidence : Q)
  : string :=
  let parts :=
    if isReal && isTrue && isNeeded
    then ["VERIFIED: Input passes all CVK 1100 checks."]
    else
      (if negb isReal
       then ["REALITY CHECK FAILED: Input existence not confirmed."] else [])
      ++ (if negb isTrue
          then ["TRUTH CHECK FAILED: Input accuracy not verified."] else [])
      ++ (if negb isNeeded
          then ["NECESSITY CHECK FAILED: Input not relevant to case."] else []) in
  let parts :=
    parts ++ ["Confidence: " +:+ Number_toFixed1 (Fin confidence) +:+ "%"] in
  join " " parts.

Definition generateRejectionReason (isReal isTrue isNeeded : bool) (confidence : Q)
  : string :=
  let reasons :=
    (if negb isReal then ["Failed reality verification"] else [])
    ++ (if negb isTrue then ["Failed truth verification"] else [])
    ++ (if negb isNeeded then ["Not needed for case"] else [])
    ++ (if Qltb confidence 50
        then ["Low confidence (" +:+ Number_toFixed1 (Fin confidence) +:+ "%)"]
        else []) in
  join "; " reasons.

Definition mapSourceToFragmentType (sourceType : SourceType.t) : FragmentType :=
  match sourceType with
  | SourceType.cave_carving => historical_record
  | SourceType.ancient_manuscript => historical_record
  | SourceType.historical_archive => historical_record
  | SourceType.oral_tradition => oral_history
  | SourceType.written_record => document_artifact
  | SourceType.legal_document => document_artifact
  | SourceType.financial_record => financial_trace
  | SourceType.government_database => institutional_record
  | SourceType.corporate_record => institutional_record
  | SourceType.digital_trace => digital_footprint
  | SourceType.witness_statement => survivor_testimony
  | SourceType.physical_evidence => physical_evidence
  | SourceType.scientific_analysis => scientific_data
  | SourceType.surveillance_data => location_data
  | SourceType.communication_intercept => communication_record
  | SourceType.osint_collection => digital_footprint
  end.

Definition createTruthFragment
    (this : t) (input : RawInput.t) (verificationLevel : Z) (confidence : Q)
    (isReal isTrue isNeeded : bool) : M TruthFragment.t :=
  let fragmentType := mapSourceToFragmentType input.(RawInput.sourceType) in
  let chainOfCustody :=
    map (fun p =>
           ChainOfCustodyEntry.mk
             p.(ProvenanceRecord.timestamp)
             p.(ProvenanceRecord.handler)
             p.(ProvenanceRecord.method)
             p.(ProvenanceRecord.source)
             (sha256 (JSON_stringify_provenance p)))
        input.(RawInput.provenance) in
  (stamp <~ Date_now ;;
   now <~ Date_now ;;
   let chainOfCustody :=
     chainOfCustody ++
     [ ChainOfCustodyEntry.mk
         (DateMs stamp)
         "CVK 1100 Engine"
         "Verification and extraction"
         this.(engineId)
         (sha256 (input.(RawInput.id) +:+ "-"
                  +:+ Number_toString (Fin (inject_Z now)))) ] in
   u <~ randomUUID ;;
   ret (TruthFragment.mk
          ("TF-" +:+ u)
          fragmentType
          input.(RawInput.content)
          input.(RawInput.source)
          (inject_Z verificationLevel)
          confidence
          input.(RawInput.timestamp)
          input.(RawInput.jurisdiction)
          input.(RawInput.metadata)
          chainOfCustody
          isReal isTrue isNeeded))%M.

(** Verify a single input. *)
Definition verifyInput (this : t) (input : RawInput.t) (context : CaseContext.t)
  : M VerificationResult.t :=
  (realityChecks <~ performRealityChecks input ;;
   let isReal :=
     forallb RealityCheck.passed realityChecks
     && Qle_bool 70 (Qsum (map RealityCheck.confidence realityChecks)
                     / Qlen realityChecks) in
   let truthChecks := performTruthChecks input context in
   let isTrue :=
     forallb (fun c => c.(TruthCheck.passed)
                       || (length c.(TruthCheck.contradictions) =? 0))
             truthChecks
     && Qle_bool 70 (Qsum (map TruthCheck.confidence truthChecks)
                     / Qlen truthChecks) in
   necessityChecks <~ performNecessityChecks input context ;;
   let isNeeded :=
     existsb (fun c => c.(NecessityCheck.needed)
                       && Qle_bool 50 c.(NecessityCheck.relevance))
             necessityChecks in
   let crossReferences := performCrossReferences input context in
   anomalies <~ detectAnomalies input realityChecks truthChecks ;;
   let verificationLevel :=
     calculateVerificationLevel realityChecks truthChecks necessityChecks
                                crossReferences anomalies in
   let confidence :=
     calculateConfidence realityChecks truthChecks necessityChecks crossReferences in
   let rejected :=
     negb isReal || negb isTrue || negb isNeeded || Qltb confidence 50 in
   let reasoning :=
     VerificationReasoning.mk realityChecks truthChecks necessityChecks
       crossReferences anomalies
       (generateAssessment isReal isTrue isNeeded confidence) in
   fragment <~ (if rejected then ret None
                else (f <~ createTruthFragment this input verificationLevel confidence
                                               isReal isTrue isNeeded ;;
                      ret (Some f))) ;;
   ret (VerificationResult.mk
          input.(RawInput.id)
          isReal isTrue isNeeded
          verificationLevel
          confidence
          reasoning
          fragment
          rejected
          (if rejected
           then Some (generateRejectionReason isReal isTrue isNeeded confidence)
           else None)))%M.










End Methods.
End CVK1100Engine.

(** * Specification-side definitions *)

(** [total m post]: from every world, [m] returns, and its value satisfies
    [post]. *)
Definition total {A} (m : M A) (post : A -> Prop) : Prop :=
  forall w, exists a w', m w = Ok (a, w') /\ post a.


Module Spec.
Import JigsawProtocolEngine.

(** Edge compatibility as the specification words it, every rule written
    with a two-headed arrow read in both directions. *)
Definition compatible (shape1 shape2 : ComponentShape.t) (direction : Direction)
  : bool :=
  let t1 := shape1.(ComponentShape.topology) in
  let t2 := shape2.(ComponentShape.topology) in
  let c1 := shape1.(ComponentShape.complexity) in
  let c2 := shape2.(ComponentShape.complexity) in
  (* corner <-> edge *)
  (bool_decide (t1 = Topology.corner) && bool_decide (t2 = Topology.edge))
  || (bool_decide (t1 = Topology.edge) && bool_decide (t2 = Topology.corner))
  (* edge <-> interior *)
  || (bool_decide (t1 = Topology.edge) && bool_decide (t2 = Topology.interior))
  || (bool_decide (t1 = Topology.interior) && bool_decide (t2 = Topology.edge))
  (* bridge <-> anything *)
  || bool_decide (t1 = Topology.bridge) || bool_decide (t2 = Topology.bridge)
  (* keystone <-> (complexity >= 7) *)
  || (bool_decide (t1 = Topology.keystone) && (7 <=? c2)%Z)
  || (bool_decide (t2 = Topology.keystone) && (7 <=? c1)%Z)
  (* interior <-> interior *)
  || (bool_decide (t1 = Topology.interior) && bool_decide (t2 = Topology.interior))
  (* direction = temporal *)
  || bool_decide (direction = temporal)
  (* direction = causal *)
  || (bool_decide (direction = causal) && (Z.abs (c1 - c2) <=? 2)%Z).

(** [other] occupies the coordinate next to [component] in [direction]. *)
Definition occupiesAdjacent
    (component : JigsawComponent.t) (direction : Direction)
    (other : JigsawComponent.t) : bool :=
  match component.(JigsawComponent.position), other.(JigsawComponent.position) with
  | Some pos, Some pos' =>
      let target := adjacentTo pos direction in
      (target.(ComponentPosition.x) =? pos'.(ComponentPosition.x))%Z
      && (target.(ComponentPosition.y) =? pos'.(ComponentPosition.y))%Z
      && (target.(ComponentPosition.z) =? pos'.(ComponentPosition.z))%Z
  | _, _ => false
  end.

(** The gap rule as the specification words it: the edge has a non-empty
    [compatibleWith] and no placed neighbour occupies the adjacent
    coordinate in the direction of the edge. *)
Definition gapExpected (placed : list JigsawComponent.t)
    (component : JigsawComponent.t) (e : ComponentEdge.t) : bool :=
  (0 <? length e.(ComponentEdge.compatibleWith))
  && negb (existsb (occupiesAdjacent component e.(ComponentEdge.direction)) placed).

End Spec.

Module Invariants.
Import JigsawProtocolEngine.

(** [c] is [c0], possibly after [place]. *)
Definition placementOf (c0 c : JigsawComponent.t) : Prop :=
  c = c0 \/ exists pos, c = place c0 pos.

(** What [compressFragment] fixes in the component it builds. *)
Definition compressedFrom `{Platform}
    (fragment : TruthFragment.t) (c : JigsawComponent.t) : Prop :=
  c.(JigsawComponent.fragmentId) = fragment.(TruthFragment.id)
  /\ c.(JigsawComponent.shape) = generateShape fragment
  /\ c.(JigsawComponent.weight) = calculateWeight fragment
  /\ c.(JigsawComponent.position) = None
  /\ c.(JigsawComponent.locked) = false.

(** Every reference of [refs] leads to a component with a position. *)
Definition allPositioned (p : Picture.t) (refs : list ref) : Prop :=
  forall r, r ∈ refs ->
    exists c, p.(Picture.components) !! r = Some c
              /\ is_Some c.(JigsawComponent.position)
              /\ c.(JigsawComponent.locked) = true.

(** The state of the assembly loop over the components [initial]. *)
Definition assembling (initial : list JigsawComponent.t) (p : Picture.t) : Prop :=
  Forall2 placementOf initial p.(Picture.components)
  /\ p.(Picture.placedComponents) ++ p.(Picture.unplacedComponents)
     ≡ₚ seq 0 (length initial)
  /\ allPositioned p p.(Picture.placedComponents)
  /\ (forall r, r ∈ p.(Picture.unplacedComponents) ->
        p.(Picture.components) !! r = initial !! r).

(** The places where [identifyGaps] pushes a gap, in the order of the loops. *)
Definition gapSites (placed : list JigsawComponent.t)
  : list (JigsawComponent.t * ComponentEdge.t) :=
  flat_map (fun component =>
              map (pair component)
                  (List.filter (emitsGap placed component)
                               component.(JigsawComponent.edges)))
           placed.

(** [gap] is a gap that [makeGap] builds for the edge [e] of [component]. *)
Definition gapFor `{Platform} (site : JigsawComponent.t * ComponentEdge.t)
    (gap : PictureGap.t) : Prop :=
  exists w w', makeGap (fst site) (snd site) w = Ok (gap, w').


(** [p'] has the arrays and the completion percentage of [p]. *)
Definition sameAssembly (p p' : Picture.t) : Prop :=
  p'.(Picture.components) = p.(Picture.components)
  /\ p'.(Picture.placedComponents) = p.(Picture.placedComponents)
  /\ p'.(Picture.unplacedComponents) = p.(Picture.unplacedComponents)
  /\ p'.(Picture.completionPercentage) = p.(Picture.completionPercentage).

(** The objects of [placedComponents], each with a position. *)
Definition placedWithPositions (p : Picture.t) (placed : list JigsawComponent.t) : Prop :=
  Forall2 (fun r c => p.(Picture.components) !! r = Some c
                      /\ is_Some c.(JigsawComponent.position))
          p.(Picture.placedComponents) placed.

(** What [processFragments] establishes about its result. *)
Definition pipelinePost `{Platform}
    (fragments : list TruthFragment.t) (result : JigsawResult.t) : Prop :=
  let p := result.(JigsawResult.picture) in
  exists initial,
    Forall2 compressedFrom (filterVerifiedFragments fragments) initial
    /\ assembling initial p
    /\ p.(Picture.completionPercentage)
       = num_scale (div_lengths (length p.(Picture.placedComponents))
                                (length p.(Picture.components))) 100
    /\ (exists placed,
          placedWithPositions p placed
          /\ Forall2 gapFor (gapSites placed) p.(Picture.gaps))
    /\ result.(JigsawResult.fragmentsProcessed) = length fragments
    /\ result.(JigsawResult.componentsCreated) = length initial
    /\ result.(JigsawResult.componentsPlaced) = length p.(Picture.placedComponents)
    /\ result.(JigsawResult.gapsIdentified) = length p.(Picture.gaps).

End Invariants.

Module CvkInvariants.
Import CVK1100Engine.

(** What [verifyInput] establishes about its result: the checks it ran, at
    the two times [now1] and [now2] that the clock showed, and how the
    fields of the result follow from them. *)
Definition verified `{Platform}
    (input : RawInput.t) (context : CaseContext.t) (r : VerificationResult.t) : Prop :=
  exists now1 now2,
    let realityChecks := realityChecksAt now1 input in
    let truthChecks := performTruthChecks input context in
    let necessityChecks :=
      necessityChecksFor (relevanceAt now2 input context) input context in
    let crossReferences := performCrossReferences input context in
    r.(VerificationResult.reasoning).(VerificationReasoning.realityChecks)
    = realityChecks
    /\ r.(VerificationResult.reasoning).(VerificationReasoning.necessityChecks)
       = necessityChecks
    /\ r.(VerificationResult.isNeeded)
       = existsb (fun c => c.(NecessityCheck.needed)
                           && Qle_bool 50 c.(NecessityCheck.relevance))
                 necessityChecks
    /\ r.(VerificationResult.confidence)
       = calculateConfidence realityChecks truthChecks necessityChecks crossReferences
    /\ r.(VerificationResult.rejected)
       = (negb r.(VerificationResult.isReal) || negb r.(VerificationResult.isTrue)
          || negb r.(VerificationResult.isNeeded)
          || Qltb r.(VerificationResult.confidence) 50)
    /\ (r.(VerificationResult.rejected) = true ->
        r.(VerificationResult.fragment) = None)
    /\ (r.(VerificationResult.rejected) = false ->
        exists f, r.(VerificationResult.fragment) = Some f
                  /\ f.(TruthFragment.content) = input.(RawInput.content)
                  /\ f.(TruthFragment.confidence) = r.(VerificationResult.confidence)
                  /\ f.(TruthFragment.isReal) = r.(VerificationResult.isReal)
                  /\ f.(TruthFragment.isTrue) = r.(VerificationResult.isTrue)
                  /\ f.(TruthFragment.isNeeded) = r.(VerificationResult.isNeeded)).

End CvkInvariants.

(** ** Example data *)

Module Examples.

(** A platform whose hash functions are the identity. *)
Definition platform : Platform := {|
  sha256 s := s;
  sha512 s := s;
  md5 s := s;
  Date_toString d := match d with InvalidDate => "Invalid Date" | DateMs _ => "date" end;
  Date_toISOString ms := "iso";
  Date_getFullYear ms := 2026%Z;
  Number_toString n := "n";
  Number_toFixed1 n := "n.0";
  RegExp_test source flags subject := false;
  JSON_stringify_fragment f := "{fragment}";
  JSON_stringify_shape s := "{shape}";
  JSON_stringify_hashInput f s t := "{fragment,shape," +:+ t +:+ "}";
  JSON_stringify_picture p := "{picture}";
  JSON_stringify_provenance p := "{provenance}"
|}.

(** The n-th UUID is the n-th capital letter. *)
Definition world : World :=
  mkWorld (fun n => String (Ascii.ascii_of_nat (65 + n)) EmptyString)
          (fun n => 1000 + Z.of_nat n)%Z 0 0.


Definition engine : JigsawProtocolEngine.t := JigsawProtocolEngine.mk "JIGSAW-1".
Definition otherEngine : JigsawProtocolEngine.t := JigsawProtocolEngine.mk "JIGSAW-2".

Definition fragment (id : string) (type : FragmentType) (level confidence : Q)
  : TruthFragment.t :=
  TruthFragment.mk id type "Evidence content" "Source" level confidence
                   (DateMs 0) IE [] [] true true true.

(** Two financial traces of level 7 and confidence 85. *)
Definition twoTraces : list TruthFragment.t :=
  [ fragment "TF-1" financial_trace 7 85; fragment "TF-2" financial_trace 7 85 ].

Definition verifiedRecord : ProvenanceRecord.t :=
  ProvenanceRecord.mk (DateMs 0) "Registry" "Direct Collection" "Handler" true.

(** An input with thirty independently verified provenance records. *)
Definition corroborated : RawInput.t :=
  RawInput.mk "INPUT-1" "Test Source" SourceType.legal_document
              "This is test content for verification purposes."
              [] [] (DateMs 0) IE (replicate 30 verifiedRecord).

End Examples.

Module Assembly.
Import JigsawProtocolEngine.

(** The position of the first piece. *)
Definition origin : ComponentPosition.t := ComponentPosition.mk 0 0 0 0 100.

(** The queue of [assemblePicture] after its sort: the references to
    [components], heaviest first. *)
Definition queueOrder (components : list JigsawComponent.t) : list ref :=
  map fst (sortDesc snd (imap (fun r c => (r, c.(JigsawComponent.weight))) components)).

(** [r1] is queued before [r2]: it is heavier, or as heavy and earlier in
    the array. *)
Definition queuedBefore (components : list JigsawComponent.t) (r1 r2 : ref) : Prop :=
  exists c1 c2,
    components !! r1 = Some c1 /\ components !! r2 = Some c2
    /\ ((c2.(JigsawComponent.weight) < c1.(JigsawComponent.weight))%Q
        \/ ((c1.(JigsawComponent.weight) == c2.(JigsawComponent.weight))%Q
            /\ r1 < r2)).

(** The score that [findBestPosition] gives to a placement through the
    edge [e] of [component]. *)
Definition score (component : JigsawComponent.t) (e : ComponentEdge.t) : Q :=
  (e.(ComponentEdge.strength) * (component.(JigsawComponent.weight) / 100))%Q.

(** The placements that [findBestPosition] collects for [component] against
    the placed components [placed], in the order of its two loops. *)
Definition candidates (component : JigsawComponent.t) (placed : list JigsawComponent.t)
  : list (ComponentPosition.t * Q) :=
  flat_map (fun other =>
              match other.(JigsawComponent.position) with
              | Some pos =>
                  map (fun e => (adjacentTo pos e.(ComponentEdge.direction),
                                 score component e))
                      (List.filter
                         (fun e => includes e.(ComponentEdge.compatibleWith)
                                            other.(JigsawComponent.id))
                         component.(JigsawComponent.edges))
              | None => []
              end)
           placed.

(** The [i]-th placed component is where [findBestPosition] puts it: the
    first at the origin, a later one next to an earlier placed component
    that one of its edges lists, through an edge of the highest score. *)
Definition justified (p : Picture.t) (i : nat) (r : ref) : Prop :=
  exists c pos,
    p.(Picture.components) !! r = Some c
    /\ c.(JigsawComponent.position) = Some pos
    /\ c.(JigsawComponent.locked) = true
    /\ match i with
       | O => pos = origin
       | S _ =>
           exists j r' c' pos' e,
             j < i
             /\ p.(Picture.placedComponents) !! j = Some r'
             /\ p.(Picture.components) !! r' = Some c'
             /\ c'.(JigsawComponent.position) = Some pos'
             /\ e ∈ c.(JigsawComponent.edges)
             /\ includes e.(ComponentEdge.compatibleWith) c'.(JigsawComponent.id) = true
             /\ pos = adjacentTo pos' e.(ComponentEdge.direction)
             /\ forall j' r'' c'' e',
                  j' < i ->
                  p.(Picture.placedComponents) !! j' = Some r'' ->
                  p.(Picture.components) !! r'' = Some c'' ->
                  e' ∈ c.(JigsawComponent.edges) ->
                  includes e'.(ComponentEdge.compatibleWith)
                           c''.(JigsawComponent.id) = true ->
                  (score c e' <= score c e)%Q
       end.

(** The state of the assembly loop over the components that
    [engineerEdges] builds from [raw]. *)
Definition placing `{Platform} (raw : list JigsawComponent.t) (p : Picture.t) : Prop :=
  Invariants.assembling (engineerEdges raw) p
  /\ p.(Picture.placedComponents) ++ p.(Picture.unplacedComponents)
     = queueOrder (engineerEdges raw)
  /\ (forall i r, p.(Picture.placedComponents) !! i = Some r -> justified p i r).

(** What [drawConclusions] and [assessCourtReadiness] look at in a
    conclusion. *)
Definition kind (c : Conclusion.t) : ConclusionType * bool * bool :=
  (c.(Conclusion.type), c.(Conclusion.courtReady), c.(Conclusion.humanVerified)).

(** The conclusions that [drawConclusions] pushes, in its order, for a
    completion percentage, a number of gaps and a number of placed
    components of weight 80 or more. *)
Definition conclusionKinds (completion : num) (gaps heavy : nat)
  : list (ConclusionType * bool * bool) :=
  (if num_geb completion 90 then [(certainty, true, false)] else [])
  ++ (if 0 <? gaps then [(recommendation, false, false)] else [])
  ++ (if 3 <=? heavy then [(finding, true, false)] else []).

(** The number of components of [placed] whose weight is [threshold] or
    more. *)
Definition weighing (threshold : Q) (placed : list JigsawComponent.t) : nat :=
  length (List.filter (fun c => Qle_bool threshold c.(JigsawComponent.weight)) placed).

(** The score of [calculateCourtReadiness] for a picture whose placed
    components are [placed]. *)
Definition readinessScore (p : Picture.t) (placed : list JigsawComponent.t) : num :=
  let score :=
    num_scale (num_scale p.(Picture.completionPercentage) (1 / 100)) 40 in
  let score :=
    num_add score
      (Qlen (List.filter Conclusion.courtReady p.(Picture.conclusions))
       / inject_Z (Z.of_nat (Nat.max 1 (length p.(Picture.conclusions)))) * 30)%Q in
  let score :=
    num_add score
      (inject_Z (Z.of_nat (weighing 70 placed))
       / inject_Z (Z.of_nat (Nat.max 1 (length placed))) * 20)%Q in
  let score :=
    if length p.(Picture.gaps) =? 0 then num_add score 10 else score in
  num_min 100 score.

(** What [processFragments] establishes about its result, stage by stage. *)
Definition finished `{Platform}
    (fragments : list TruthFragment.t) (result : JigsawResult.t) : Prop :=
  let p := result.(JigsawResult.picture) in
  exists raw placed,
    Forall2 Invariants.compressedFrom (filterVerifiedFragments fragments) raw
    /\ placing raw p
    /\ p.(Picture.unplacedComponents) = []
    /\ p.(Picture.placedComponents) = queueOrder (engineerEdges raw)
    /\ Invariants.placedWithPositions p placed
    /\ p.(Picture.completionPercentage)
       = num_scale (div_lengths (length raw) (length raw)) 100
    /\ Forall2 Invariants.gapFor (Invariants.gapSites placed) p.(Picture.gaps)
    /\ map kind p.(Picture.conclusions)
       = conclusionKinds p.(Picture.completionPercentage)
                         (length p.(Picture.gaps)) (weighing 80 placed)
    /\ p.(Picture.courtReady)
       = (num_geb p.(Picture.completionPercentage) 80
          && (1 <=? length (List.filter Conclusion.courtReady p.(Picture.conclusions)))
          && (3 <=? weighing 70 placed))
    /\ p.(Picture.humanReviewRequired)
       = (existsb (fun c => bool_decide (c.(Conclusion.type) = certainty))
                  p.(Picture.conclusions)
          || num_geb p.(Picture.completionPercentage) 95)
    /\ result.(JigsawResult.courtReadiness) = readinessScore p placed
    /\ result.(JigsawResult.humanReviewRequired) = p.(Picture.humanReviewRequired)
    /\ result.(JigsawResult.success) = true
    /\ result.(JigsawResult.fragmentsProcessed) = length fragments
    /\ result.(JigsawResult.componentsCreated) = length raw
    /\ result.(JigsawResult.componentsPlaced) = length p.(Picture.placedComponents)
    /\ result.(JigsawResult.gapsIdentified) = length p.(Picture.gaps)
    /\ result.(JigsawResult.conclusionsDrawn) = length p.(Picture.conclusions).

(** A position on the vertical through the origin, not rotated. *)
Definition inColumn (pos : ComponentPosition.t) : Prop :=
  pos.(ComponentPosition.x) = 0%Z
  /\ pos.(ComponentPosition.y) = 0%Z
  /\ pos.(ComponentPosition.rotation) = 0%Z.

End Assembly.

(** ** The verification of one input, as a function of what the clock shows *)

Module VerificationSummary.
Record t : Type := mk {
  totalInputs : nat;
  verified : nat;
  rejected : nat;
  pendingHumanReview : nat;
  averageConfidence : num;
  levelDistribution : list (Z * nat)     (* the keys 1 .. 10, in order *)
}.
End VerificationSummary.

Module Verification.
Import CVK1100Engine.

Section Definitions.
Context `{Platform}.








End Definitions.
End Verification.

(** * The combined engine (combined, COMBINED ENGINE) *)

Inductive ReviewSource : Type :=
  | cvk1100 | jigsaw.

Inductive ReviewStatus : Type :=
  | pending | in_progress | completed | escalated.

Module HumanReviewSummary.
Record t : Type := mk {
  itemId : string;
  source : ReviewSource;
  reason : string;
  priority : Z;
  requiredExpertise : list string;
  deadline : option Z;
  status : ReviewStatus
}.
End HumanReviewSummary.

Module EvidenceChainLink.
Record t : Type := mk {
  id : string;
  fragmentId : string;
  componentId : string;
  position : nat;
  description : string;
  verificationLevel : Q;
  hash : string
}.
End EvidenceChainLink.

#[global] Instance ReviewSource_eq_dec : EqDecision ReviewSource.
Proof. solve_decision. Defined.

(** The two private methods of [CombinedEngine] that work on the results of
    the two engines alone. *)
Module CombinedEngine.

(** The loop of [buildEvidenceChain], from the index [i] on. *)
Fixpoint evidenceLinks (fragments : list TruthFragment.t) (picture : Picture.t)
    (i : nat) (placed : list ref) : M (list EvidenceChainLink.t) :=
  match placed with
  | [] => ret []
  | r :: placed' =>
      (component <~ JigsawProtocolEngine.getComponent picture r ;;
       here <~ match List.find
                       (fun f => String.eqb f.(TruthFragment.id)
                                            component.(JigsawComponent.fragmentId))
                       fragments with
               | Some fragment =>
                   (u <~ randomUUID ;;
                    ret [EvidenceChainLink.mk
                           ("ECL-" +:+ u)
                           fragment.(TruthFragment.id)
                           component.(JigsawComponent.id)
                           (i + 1)
                           (String.substring 0 100 fragment.(TruthFragment.content)
                            +:+ "...")
                           fragment.(TruthFragment.verificationLevel)
                           component.(JigsawComponent.hash)])
               | None => ret []
               end ;;
       rest <~ evidenceLinks fragments picture (S i) placed' ;;
       ret (here ++ rest))%M
  end.

Definition buildEvidenceChain (fragments : list TruthFragment.t) (picture : Picture.t)
  : M (list EvidenceChainLink.t) :=
  evidenceLinks fragments picture 0 picture.(Picture.placedComponents).

Definition consolidateHumanReview
    (cvk1100Result : CVK1100Result.t) (jigsawResult : JigsawResult.t)
  : M (list HumanReviewSummary.t) :=
  let items :=
    map (fun review =>
           HumanReviewSummary.mk
             review.(HumanReviewItem.inputId)
             cvk1100
             review.(HumanReviewItem.reason)
             review.(HumanReviewItem.priority)
             review.(HumanReviewItem.requiredExpertise)
             review.(HumanReviewItem.deadline)
             pending)
        cvk1100Result.(CVK1100Result.humanReviewRequired) in
  (items <~ (if jigsawResult.(JigsawResult.humanReviewRequired)
             then
               (now <~ Date_now ;;
                ret (items ++
                     [HumanReviewSummary.mk
                        jigsawResult.(JigsawResult.picture).(Picture.id)
                        jigsaw
                        "Complete picture requires human verification before court submission"
                        10
                        ["Senior Investigator"; "Legal Counsel"]
                        (Some (now + 72 * 60 * 60 * 1000)%Z)
                        pending]))
             else ret items) ;;
   ret (sortDesc (fun item => inject_Z item.(HumanReviewSummary.priority)) items))%M.

End CombinedEngine.

(** ** The links of the evidence chain *)

Module EvidenceChain.

(** [link] is the link that [buildEvidenceChain] makes at the index [i] for
    the placed component [r] of [picture]: that of the first of [fragments]
    whose id is the component's fragment id. *)
Definition linkFor (fragments : list TruthFragment.t) (picture : Picture.t)
    (i : nat) (r : ref) (link : EvidenceChainLink.t) : Prop :=
  exists component fragment,
    picture.(Picture.components) !! r = Some component
    /\ List.find (fun f => String.eqb f.(TruthFragment.id)
                                      component.(JigsawComponent.fragmentId))
                 fragments = Some fragment
    /\ fragment.(TruthFragment.id) = component.(JigsawComponent.fragmentId)
    /\ link.(EvidenceChainLink.fragmentId) = fragment.(TruthFragment.id)
    /\ link.(EvidenceChainLink.componentId) = component.(JigsawComponent.id)
    /\ link.(EvidenceChainLink.position) = i + 1
    /\ link.(EvidenceChainLink.description)
       = String.substring 0 100 fragment.(TruthFragment.content) +:+ "..."
    /\ link.(EvidenceChainLink.verificationLevel)
       = fragment.(TruthFragment.verificationLevel)
    /\ link.(EvidenceChainLink.hash) = component.(JigsawComponent.hash).

(** The links for the components [placed], the first at the index [i]. *)
Fixpoint linksFrom (fragments : list TruthFragment.t) (picture : Picture.t)
    (i : nat) (placed : list ref) (chain : list EvidenceChainLink.t) : Prop :=
  match placed, chain with
  | [], [] => True
  | r :: placed', link :: chain' =>
      linkFor fragments picture i r link
      /\ linksFrom fragments picture (S i) placed' chain'
  | _, _ => False
  end.

End EvidenceChain.

(** * Reasoning about computations in [M] *)

Lemma total_ret {A} (a : A) (post : A -> Prop) : post a -> total (ret a) post.
Proof. intros Ha w. exists a, w. split; [reflexivity | exact Ha]. Qed.

Lemma total_bind {A B} (m : M A) (k : A -> M B) (mid : A -> Prop) (post : B -> Prop) :
  total m mid ->
  (forall a, mid a -> total (k a) post) ->
  total (bind m k) post.
Proof.
  intros Hm Hk w. destruct (Hm w) as (a & w1 & Ea & Pa).
  destruct (Hk a Pa w1) as (b & w2 & Eb & Pb).
  exists b, w2. unfold bind. rewrite Ea. split; assumption.
Qed.

Lemma total_weaken {A} (m : M A) (post post' : A -> Prop) :
  total m post -> (forall a, post a -> post' a) -> total m post'.
Proof.
  intros Hm Himp w. destruct (Hm w) as (a & w' & E & Pa).
  exists a, w'. split; [exact E | apply Himp, Pa].
Qed.

Lemma total_randomUUID : total randomUUID (fun _ => True).
Proof. intros w. eexists _, _. split; [reflexivity | exact I]. Qed.

Lemma total_Date_now : total Date_now (fun _ => True).
Proof. intros w. eexists _, _. split; [reflexivity | exact I]. Qed.

Lemma total_unwrap {A} (o : option A) (a : A) :
  o = Some a -> total (unwrap o) (fun a' => a' = a).
Proof. intros ->. apply total_ret. reflexivity. Qed.

Lemma total_mapM {A B} (f : A -> M B) (rel : A -> B -> Prop) (l : list A) :
  Forall (fun a => total (f a) (rel a)) l ->
  total (mapM f l) (Forall2 rel l).
Proof.
  induction 1 as [|a l Ha _ IH]; simpl.
  - apply total_ret. constructor.
  - eapply total_bind; [exact Ha|]. intros b Hb.
    eapply total_bind; [exact IH|]. intros bs Hbs.
    apply total_ret. constructor; assumption.
Qed.


Lemma total_bind_True {A B} (m : M A) (k : A -> M B) :
  total m (fun _ => True) ->
  (forall a, total (k a) (fun _ => True)) ->
  total (bind m k) (fun _ => True).
Proof. intros Hm Hk. eapply total_bind; [exact Hm|]. intros a _. apply Hk. Qed.

Lemma total_if_True {A} (b : bool) (m1 m2 : M A) :
  total m1 (fun _ => True) -> total m2 (fun _ => True) ->
  total (if b then m1 else m2) (fun _ => True).
Proof. destruct b; tauto. Qed.

Lemma total_ret_True {A} (a : A) : total (ret a) (fun _ => True).
Proof. apply total_ret. exact I. Qed.

(** Computations that only draw identifiers and read the clock. *)
Ltac trivially_total :=
  repeat first
    [ apply total_ret_True
    | apply total_randomUUID
    | apply total_Date_now
    | apply total_if_True
    | apply total_bind_True; [|intros ?] ].

Lemma total_Some {A} (m : M A) (post : A -> Prop) :
  total m post ->
  total (bind m (fun a => ret (Some a))) (fun o => exists a, o = Some a /\ post a).
Proof.
  intros Hm. eapply total_bind; [exact Hm|]. intros a Ha.
  apply total_ret. exists a. split; [reflexivity | exact Ha].
Qed.

(** Run the next computation of a [bind] with a lemma about it. *)
Tactic Notation "step_with" constr(lem) :=
  eapply total_bind; [eapply lem | cbv beta; intros ? ?].
Tactic Notation "step_with" constr(lem) "as" ident(a) ident(Ha) :=
  eapply total_bind; [eapply lem | cbv beta; intros a Ha].
Ltac step_any :=
  eapply total_bind;
  [first [apply total_randomUUID | apply total_Date_now] | cbv beta; intros ? _].

(** * Properties of the Jigsaw Protocol engine *)

Module JigsawProperties.
Import JigsawProtocolEngine Invariants.

Section WithPlatform.
Context `{Platform}.

(** ** Edge compatibility *)

(** C6 (as amended): [shapesCanConnect] depends only on the two shapes and
    the direction, and it holds exactly when the first shape is a corner
    and the second an edge, or the first an edge and the second interior,
    or either is a bridge, or the first is a keystone and the second has
    complexity at least 7, or both are interior, or the direction is
    temporal, or the direction is causal and the complexities differ by at
    most 2. *)
Theorem shapesCanConnect_cases (shape1 shape2 : ComponentShape.t) (direction : Direction) :
  shapesCanConnect shape1 shape2 direction = true <->
    (shape1.(ComponentShape.topology) = Topology.corner
     /\ shape2.(ComponentShape.topology) = Topology.edge)
    \/ (shape1.(ComponentShape.topology) = Topology.edge
        /\ shape2.(ComponentShape.topology) = Topology.interior)
    \/ (shape1.(ComponentShape.topology) = Topology.bridge
        \/ shape2.(ComponentShape.topology) = Topology.bridge)
    \/ (shape1.(ComponentShape.topology) = Topology.keystone
        /\ (7 <= shape2.(ComponentShape.complexity))%Z)
    \/ (shape1.(ComponentShape.topology) = Topology.interior
        /\ shape2.(ComponentShape.topology) = Topology.interior)
    \/ direction = temporal
    \/ (direction = causal
        /\ (Z.abs (shape1.(ComponentShape.complexity)
                   - shape2.(ComponentShape.complexity)) <= 2)%Z).
Proof.
  unfold shapesCanConnect.
  destruct shape1 as [t1 c1 s1 u1], shape2 as [t2 c2 s2 u2]; simpl.
  destruct (Z.leb_spec 7 c2), (Z.leb_spec (Z.abs (c1 - c2)) 2);
    destruct t1, t2, direction; simpl; split; intros Hx;
    try reflexivity; try discriminate;
    try (intuition (first [congruence | lia])).
Qed.

(** ** The shape fingerprint *)


(** ** Sorting *)

Lemma insertDesc_perm {A} (key : A -> Q) (a : A) (l : list A) :
  insertDesc key a l ≡ₚ a :: l.
Proof.
  induction l as [|b l IH]; simpl; [reflexivity|].
  destruct (Qltb (key a) (key b)); [|reflexivity].
  rewrite IH. apply perm_swap.
Qed.

Lemma sortDesc_perm {A} (key : A -> Q) (l : list A) : sortDesc key l ≡ₚ l.
Proof.
  induction l as [|a l IH]; simpl; [reflexivity|].
  rewrite insertDesc_perm. rewrite IH. reflexivity.
Qed.

(** ** Compression and edge engineering *)

Lemma hashComponent_total (fragment : TruthFragment.t) (shape : ComponentShape.t) :
  total (hashComponent fragment shape) (fun _ => True).
Proof. unfold hashComponent. step_any. apply total_ret. exact I. Qed.

Lemma compressFragment_total (this : JigsawProtocolEngine.t) (fragment : TruthFragment.t) :
  total (compressFragment this fragment) (compressedFrom fragment).
Proof.
  unfold compressFragment. step_any. step_with hashComponent_total.
  apply total_ret. repeat split.
Qed.

Lemma compressFragments_total
    (this : JigsawProtocolEngine.t) (fragments : list TruthFragment.t) :
  total (compressFragments this fragments) (Forall2 compressedFrom fragments).
Proof.
  apply total_mapM. apply Forall_forall. intros f _. apply compressFragment_total.
Qed.

Lemma imap_Forall2 {A B} (rel : A -> B -> Prop) (f : nat -> A -> B) (l : list A) :
  (forall i x, rel x (f i x)) -> Forall2 rel l (imap f l).
Proof.
  revert f. induction l as [|x l IH]; intros f Hf; simpl; constructor.
  - apply Hf.
  - apply IH. intros i y. apply Hf.
Qed.

Lemma engineerEdges_Forall2 (components : list JigsawComponent.t) :
  Forall2 (fun c c' => exists edges, c' = withEdges c edges)
          components (engineerEdges components).
Proof.
  unfold engineerEdges. apply imap_Forall2. intros i c. eexists. reflexivity.
Qed.

Lemma engineerEdges_from_fragments
    (fragments : list TruthFragment.t) (components : list JigsawComponent.t) :
  Forall2 compressedFrom fragments components ->
  Forall2 compressedFrom fragments (engineerEdges components).
Proof.
  intros HF. pose proof (engineerEdges_Forall2 components) as HE.
  revert HE. generalize (engineerEdges components) as engineered.
  induction HF as [|f c fs cs Hfc _ IH]; intros engineered HE;
    inversion HE as [|? c' ? cs' [edges ->] HE']; subst; constructor.
  - destruct Hfc as (? & ? & ? & ? & ?). repeat split; assumption.
  - apply IH, HE'.
Qed.

(** ** The picture before and during assembly *)

Lemma initializePicture_total
    (caseId : string) (caseType : CaseType) (caseTitle : string)
    (components : list JigsawComponent.t) :
  total (initializePicture caseId caseType caseTitle components)
        (fun p => p.(Picture.components) = components
                  /\ p.(Picture.placedComponents) = []
                  /\ p.(Picture.unplacedComponents) = seq 0 (length components)).
Proof.
  unfold initializePicture. do 3 step_any. apply total_ret. repeat split.
Qed.

Lemma placementOf_refl (initial : list JigsawComponent.t) :
  Forall2 placementOf initial initial.
Proof. induction initial; constructor; [left; reflexivity | assumption]. Qed.

Lemma assembling_initial (p : Picture.t) :
  p.(Picture.placedComponents) = [] ->
  p.(Picture.unplacedComponents) = seq 0 (length p.(Picture.components)) ->
  assembling p.(Picture.components) p.
Proof.
  intros Hplaced Hunplaced. unfold assembling, allPositioned.
  rewrite Hplaced, Hunplaced.
  split; [apply placementOf_refl|]. split; [reflexivity|]. split.
  - intros r Hr. apply elem_of_nil in Hr. destruct Hr.
  - reflexivity.
Qed.

Lemma assembling_length (initial : list JigsawComponent.t) (p : Picture.t) :
  assembling initial p -> length p.(Picture.components) = length initial.
Proof. intros (HF & _). symmetry. eapply Forall2_length, HF. Qed.

Lemma assembling_NoDup (initial : list JigsawComponent.t) (p : Picture.t) :
  assembling initial p ->
  NoDup (p.(Picture.placedComponents) ++ p.(Picture.unplacedComponents)).
Proof. intros (_ & Hperm & _). rewrite Hperm. apply NoDup_seq. Qed.

Lemma assembling_in_range (initial : list JigsawComponent.t) (p : Picture.t) (r : ref) :
  assembling initial p ->
  r ∈ p.(Picture.placedComponents) ++ p.(Picture.unplacedComponents) ->
  r < length p.(Picture.components).
Proof.
  intros Hinv Hr. rewrite (assembling_length _ _ Hinv).
  destruct Hinv as (_ & Hperm & _). rewrite Hperm in Hr.
  apply elem_of_seq in Hr. lia.
Qed.

Lemma getComponent_total (p : Picture.t) (r : ref) (c : JigsawComponent.t) :
  p.(Picture.components) !! r = Some c ->
  total (getComponent p r) (fun c' => c' = c).
Proof. intros E. unfold getComponent. apply total_unwrap, E. Qed.

Lemma calculateAdjacentPosition_total (placed : JigsawComponent.t) (direction : Direction) :
  is_Some placed.(JigsawComponent.position) ->
  total (calculateAdjacentPosition placed direction) (fun _ => True).
Proof.
  intros [pos E]. unfold calculateAdjacentPosition.
  step_with (total_unwrap _ _ E). apply total_ret. exact I.
Qed.

Lemma placementsAgainst_total
    (component placed : JigsawComponent.t) (edges : list ComponentEdge.t) :
  is_Some placed.(JigsawComponent.position) ->
  total (placementsAgainst component placed edges) (fun _ => True).
Proof.
  intros Hpos. induction edges as [|e edges IH]; simpl.
  - apply total_ret. exact I.
  - destruct (includes _ _); [|exact IH].
    step_with (calculateAdjacentPosition_total placed). { exact Hpos. }
    step_with IH. apply total_ret. exact I.
Qed.

Lemma compatiblePlacements_total
    (component : JigsawComponent.t) (p : Picture.t) (refs : list ref) :
  allPositioned p refs ->
  total (compatiblePlacements component p refs) (fun _ => True).
Proof.
  induction refs as [|r refs IH]; intros Hrefs; simpl.
  - apply total_ret. exact I.
  - destruct (Hrefs r) as (c & E & Hpos & _); [left|].
    step_with (getComponent_total _ _ _ E). subst.
    step_with (placementsAgainst_total component c). { exact Hpos. }
    step_with IH. { intros r' Hr'. apply Hrefs. right. exact Hr'. }
    apply total_ret. exact I.
Qed.

Lemma findBestPosition_total (component : JigsawComponent.t) (p : Picture.t) :
  allPositioned p p.(Picture.placedComponents) ->
  total (findBestPosition component p) (fun _ => True).
Proof.
  intros Hplaced. unfold findBestPosition.
  destruct (length _ =? 0); [apply total_ret; exact I|].
  step_with (compatiblePlacements_total component p). { exact Hplaced. }
  destruct (sortDesc _ _); apply total_ret; exact I.
Qed.

(** ** One turn of the assembly loop keeps the invariant *)

Lemma assembling_place
    (initial : list JigsawComponent.t) (p : Picture.t) (r : ref) (rest : list ref)
    (c : JigsawComponent.t) (pos : ComponentPosition.t) :
  assembling initial p ->
  p.(Picture.unplacedComponents) = r :: rest ->
  p.(Picture.components) !! r = Some c ->
  assembling initial
    (withArrays p (<[r := place c pos]> p.(Picture.components))
                (p.(Picture.placedComponents) ++ [r]) rest).
Proof.
  intros Hinv Hun Hc.
  pose proof (assembling_NoDup _ _ Hinv) as Hnd.
  assert (Hlt : r < length p.(Picture.components)).
  { apply lookup_lt_is_Some. eauto. }
  destruct Hinv as (HF & Hperm & Hplaced & Hunplaced).
  rewrite Hun in Hnd, Hperm, Hunplaced.
  apply NoDup_app in Hnd as (_ & Hdisj & Hnd).
  apply NoDup_cons in Hnd as (Hr & _).
  unfold assembling, allPositioned. simpl.
  split; [|split; [|split]].
  - rewrite <- (list_insert_id initial r c).
    + apply Forall2_insert; [exact HF|]. right. exists pos. reflexivity.
    + rewrite <- Hunplaced; [exact Hc | left].
  - rewrite <- app_assoc. exact Hperm.
  - intros r' Hr'. destruct (decide (r' = r)) as [->|Hne].
    + exists (place c pos). rewrite list_lookup_insert_eq by exact Hlt.
      split; [reflexivity|]. split; [eexists; reflexivity | reflexivity].
    + rewrite list_lookup_insert_ne by congruence.
      apply Hplaced. apply elem_of_app in Hr' as [Hr'|Hr']; [exact Hr'|].
      apply list_elem_of_singleton in Hr'. contradiction.
  - intros r' Hr'. rewrite list_lookup_insert_ne.
    + apply Hunplaced. right. exact Hr'.
    + intros ->. contradiction.
Qed.

Lemma assembling_requeue
    (initial : list JigsawComponent.t) (p : Picture.t) (r : ref) (rest : list ref) :
  assembling initial p ->
  p.(Picture.unplacedComponents) = r :: rest ->
  assembling initial
    (withArrays p p.(Picture.components) p.(Picture.placedComponents) (rest ++ [r])).
Proof.
  intros (HF & Hperm & Hplaced & Hunplaced) Hun.
  rewrite Hun in Hperm, Hunplaced.
  unfold assembling, allPositioned. simpl.
  split; [exact HF|]. split; [|split].
  - rewrite <- Hperm. apply Permutation_app_head. symmetry.
    apply Permutation_cons_append.
  - exact Hplaced.
  - intros r' Hr'. apply Hunplaced.
    apply elem_of_app in Hr' as [Hr'|Hr'].
    + right. exact Hr'.
    + apply list_elem_of_singleton in Hr'. subst. left.
Qed.

Lemma assembleIteration_total
    (initial : list JigsawComponent.t) (p : Picture.t) (r : ref) (rest : list ref) :
  assembling initial p ->
  p.(Picture.unplacedComponents) = r :: rest ->
  total (assembleIteration p) (assembling initial).
Proof.
  intros Hinv Hun. unfold assembleIteration. rewrite Hun.
  assert (Hlt : r < length p.(Picture.components)).
  { apply (assembling_in_range initial); [exact Hinv|].
    apply elem_of_app. right. rewrite Hun. left. }
  apply lookup_lt_is_Some in Hlt as [c Hc].
  step_with (getComponent_total _ _ _ Hc). subst.
  step_with (findBestPosition_total c p). { apply Hinv. }
  match goal with o : option ComponentPosition.t |- _ => destruct o as [pos|] end;
    apply total_ret.
  - apply assembling_place; assumption.
  - apply assembling_requeue; assumption.
Qed.

(** ** The loop *)

Lemma assembleLoop_total (initial : list JigsawComponent.t) (maxIterations : nat) :
  forall (fuel iterations : nat) (p : Picture.t),
    assembling initial p ->
    iterations <= maxIterations ->
    maxIterations - iterations <= fuel ->
    total (assembleLoop fuel maxIterations iterations p)
          (fun out => assembling initial (fst out)
                      /\ snd out <= maxIterations
                      /\ ((fst out).(Picture.unplacedComponents) <> [] ->
                          snd out = maxIterations)).
Proof.
  induction fuel as [|fuel IH]; intros iterations p Hinv Hle Hfuel; simpl.
  - destruct (Nat.ltb_spec iterations maxIterations) as [Hlt|Hge]; [lia|].
    rewrite andb_false_r. apply total_ret. simpl.
    split; [exact Hinv|]. split; [exact Hle|]. intros _. lia.
  - destruct (Nat.ltb_spec 0 (length p.(Picture.unplacedComponents))) as [Hpos|Hzero];
      destruct (Nat.ltb_spec iterations maxIterations) as [Hlt|Hge]; simpl.
    + destruct p.(Picture.unplacedComponents) as [|r rest] eqn:Hun;
        [simpl in Hpos; lia|].
      step_with (assembleIteration_total initial p r rest); [exact Hinv|exact Hun|].
      apply IH; [assumption | lia | lia].
    + apply total_ret. simpl.
      split; [exact Hinv|]. split; [exact Hle|]. intros _. lia.
    + apply total_ret. simpl.
      split; [exact Hinv|]. split; [exact Hle|].
      intros Hne. destruct p.(Picture.unplacedComponents); [congruence|simpl in Hzero; lia].
    + apply total_ret. simpl.
      split; [exact Hinv|]. split; [exact Hle|]. intros _. lia.
Qed.

Lemma assembling_ext (initial : list JigsawComponent.t) (p p' : Picture.t) :
  p'.(Picture.components) = p.(Picture.components) ->
  p'.(Picture.placedComponents) = p.(Picture.placedComponents) ->
  p'.(Picture.unplacedComponents) = p.(Picture.unplacedComponents) ->
  assembling initial p -> assembling initial p'.
Proof.
  unfold assembling, allPositioned. intros -> -> ->. exact (fun x => x).
Qed.

Lemma Forall2_fst {A B} (l : list A) (k : list (A * B)) :
  Forall2 (fun a x => fst x = a) l k -> map fst k = l.
Proof. induction 1; simpl; congruence. Qed.

Lemma sortByWeight_total (p : Picture.t) (refs : list ref) :
  (forall r, r ∈ refs -> is_Some (p.(Picture.components) !! r)) ->
  total (sortByWeight p refs) (fun sorted => sorted ≡ₚ refs).
Proof.
  intros Hrefs. unfold sortByWeight.
  step_with (total_mapM
               (fun r => (c <~ getComponent p r ;; ret (r, c.(JigsawComponent.weight)))%M)
               (fun r x => fst x = r)).
  - apply Forall_forall. intros r Hr. destruct (Hrefs r Hr) as [c Hc].
    step_with (getComponent_total _ _ _ Hc). apply total_ret. reflexivity.
  - apply total_ret.
    match goal with HF : Forall2 _ refs ?k |- _ =>
      rewrite <- (Forall2_fst _ _ HF) end.
    apply Permutation_map, sortDesc_perm.
Qed.

Lemma assembleRun_total (initial : list JigsawComponent.t) (p : Picture.t) :
  assembling initial p ->
  total (assembleRun p)
        (fun out => assembling initial (fst out)
                    /\ snd out <= length p.(Picture.unplacedComponents) * 10
                    /\ ((fst out).(Picture.unplacedComponents) <> [] ->
                        snd out = length p.(Picture.unplacedComponents) * 10)).
Proof.
  intros Hinv. unfold assembleRun.
  step_with (sortByWeight_total p).
  { intros r Hr. apply lookup_lt_is_Some.
    apply (assembling_in_range initial); [exact Hinv|].
    apply elem_of_app. right. exact Hr. }
  apply assembleLoop_total; [|lia|lia].
  destruct Hinv as (HF & Hperm & Hplaced & Hunplaced).
  unfold assembling, allPositioned. simpl.
  split; [exact HF|]. split; [|split].
  - etransitivity; [|exact Hperm]. apply Permutation_app_head. assumption.
  - exact Hplaced.
  - intros r Hr. apply Hunplaced.
    match goal with Hs : _ ≡ₚ _ |- _ => rewrite <- Hs end. exact Hr.
Qed.

Lemma assemblePicture_total (initial : list JigsawComponent.t) (p : Picture.t) :
  assembling initial p ->
  total (assemblePicture p)
        (fun p' => assembling initial p'
                   /\ p'.(Picture.completionPercentage)
                      = num_scale
                          (div_lengths (length p'.(Picture.placedComponents))
                                       (length p'.(Picture.components)))
                          100).
Proof.
  intros Hinv. unfold assemblePicture.
  step_with (assembleRun_total initial p Hinv) as out Hout.
  destruct Hout as (Hout & _). apply total_ret. split; [|reflexivity].
  eapply assembling_ext; [| | |exact Hout]; reflexivity.
Qed.

(** ** Gap identification *)

Lemma total_witnessed {A} (m : M A) :
  total m (fun _ => True) ->
  total m (fun a => exists w w', m w = Ok (a, w')).
Proof.
  intros Hm w. destruct (Hm w) as (a & w' & E & _).
  exists a, w'. split; [exact E|]. exists w, w'. exact E.
Qed.

Lemma placedObjects_total (p : Picture.t) :
  allPositioned p p.(Picture.placedComponents) ->
  total (placedObjects p) (placedWithPositions p).
Proof.
  intros Hplaced. unfold placedObjects, placedWithPositions.
  apply total_mapM. apply Forall_forall. intros r Hr.
  destruct (Hplaced r Hr) as (c & E & Hpos & _).
  eapply total_weaken; [apply (getComponent_total _ _ _ E)|].
  intros c' ->. split; assumption.
Qed.

Lemma placedWithPositions_Forall (p : Picture.t) (placed : list JigsawComponent.t) :
  placedWithPositions p placed ->
  Forall (fun c => is_Some c.(JigsawComponent.position)) placed.
Proof.
  unfold placedWithPositions. induction 1; constructor; [tauto | assumption].
Qed.

Lemma makeGap_total (component : JigsawComponent.t) (e : ComponentEdge.t) :
  is_Some component.(JigsawComponent.position) ->
  total (makeGap component e) (gapFor (component, e)).
Proof.
  intros Hpos. apply total_witnessed. unfold makeGap. step_any.
  step_with (calculateAdjacentPosition_total component). { exact Hpos. }
  apply total_ret. exact I.
Qed.

Lemma gapsOfEdges_total (placed : list JigsawComponent.t)
    (component : JigsawComponent.t) (edges : list ComponentEdge.t) :
  is_Some component.(JigsawComponent.position) ->
  total (gapsOfEdges placed component edges)
        (Forall2 gapFor
           (map (pair component) (List.filter (emitsGap placed component) edges))).
Proof.
  intros Hpos. induction edges as [|e edges IH]; simpl.
  - apply total_ret. constructor.
  - destruct (emitsGap placed component e); [|exact IH].
    step_with (makeGap_total component e Hpos) as gap Hgap.
    step_with IH as rest Hrest.
    apply total_ret. constructor; assumption.
Qed.

Lemma gapsOfComponents_total (placed todo : list JigsawComponent.t) :
  Forall (fun c => is_Some c.(JigsawComponent.position)) todo ->
  total (gapsOfComponents placed todo)
        (Forall2 gapFor
           (flat_map (fun component =>
                        map (pair component)
                            (List.filter (emitsGap placed component)
                                         component.(JigsawComponent.edges)))
                     todo)).
Proof.
  induction 1 as [|c todo Hc _ IH]; simpl.
  - apply total_ret. constructor.
  - step_with (gapsOfEdges_total placed c c.(JigsawComponent.edges) Hc) as here Hhere.
    step_with IH as rest Hrest.
    apply total_ret. apply Forall2_app; assumption.
Qed.

Lemma identifyGaps_total (p : Picture.t) :
  allPositioned p p.(Picture.placedComponents) ->
  total (identifyGaps p)
        (fun p' => sameAssembly p p'
                   /\ exists placed,
                        placedWithPositions p' placed
                        /\ Forall2 gapFor (gapSites placed) p'.(Picture.gaps)).
Proof.
  intros Hplaced. unfold identifyGaps.
  step_with (placedObjects_total p Hplaced) as placed Hobjs.
  step_with (gapsOfComponents_total placed placed) as gaps Hgaps.
  { eapply placedWithPositions_Forall, Hobjs. }
  apply total_ret. split; [repeat split|].
  exists placed. split; [exact Hobjs | exact Hgaps].
Qed.

(** ** Conclusions and readiness *)

Lemma sameAssembly_trans (p p' p'' : Picture.t) :
  sameAssembly p p' -> sameAssembly p' p'' -> sameAssembly p p''.
Proof. unfold sameAssembly. intuition congruence. Qed.

Lemma sameAssembly_positioned (p p' : Picture.t) :
  sameAssembly p p' ->
  allPositioned p p.(Picture.placedComponents) ->
  allPositioned p' p'.(Picture.placedComponents).
Proof. unfold allPositioned. intros (-> & -> & _). exact (fun x => x). Qed.

Lemma sameAssembly_placed (p p' : Picture.t) (placed : list JigsawComponent.t) :
  sameAssembly p p' -> placedWithPositions p placed -> placedWithPositions p' placed.
Proof. unfold placedWithPositions. intros (-> & -> & _). exact (fun x => x). Qed.

Lemma drawConclusions_total (p : Picture.t) :
  allPositioned p p.(Picture.placedComponents) ->
  total (drawConclusions p)
        (fun p' => sameAssembly p p' /\ p'.(Picture.gaps) = p.(Picture.gaps)).
Proof.
  intros Hplaced. unfold drawConclusions.
  step_with (placedObjects_total p Hplaced) as placed Hobjs.
  eapply total_bind; [trivially_total|]. intros c1 _.
  eapply total_bind; [trivially_total|]. intros c2 _.
  eapply total_bind; [trivially_total|]. intros c3 _.
  apply total_ret. repeat split.
Qed.

Lemma assessCourtReadiness_total (p : Picture.t) :
  allPositioned p p.(Picture.placedComponents) ->
  total (assessCourtReadiness p)
        (fun p' => sameAssembly p p' /\ p'.(Picture.gaps) = p.(Picture.gaps)).
Proof.
  intros Hplaced. unfold assessCourtReadiness.
  step_with (placedObjects_total p Hplaced) as placed Hobjs.
  step_any. apply total_ret. repeat split.
Qed.

Lemma calculateCourtReadiness_total (p : Picture.t) :
  allPositioned p p.(Picture.placedComponents) ->
  total (calculateCourtReadiness p) (fun _ => True).
Proof.
  intros Hplaced. unfold calculateCourtReadiness.
  step_with (placedObjects_total p Hplaced) as placed Hobjs.
  apply total_ret. exact I.
Qed.

(** ** The whole pipeline *)

Lemma processFragments_spec
    (this : JigsawProtocolEngine.t) (fragments : list TruthFragment.t)
    (caseId : string) (caseType : CaseType) (caseTitle : string) :
  total (processFragments this fragments caseId caseType caseTitle)
        (pipelinePost fragments).
Proof.
  unfold processFragments. step_any.
  step_with (compressFragments_total this (filterVerifiedFragments fragments))
    as components Hcompressed.
  apply engineerEdges_from_fragments in Hcompressed as Hengineered.
  step_with (initializePicture_total caseId caseType caseTitle
                                     (engineerEdges components)) as p0 Hp0.
  destruct Hp0 as (Hcomps & Hplaced0 & Hunplaced0).
  assert (Hinit : assembling (engineerEdges components) p0).
  { rewrite <- Hcomps. apply assembling_initial; [exact Hplaced0|].
    rewrite Hunplaced0, Hcomps. reflexivity. }
  step_with (assemblePicture_total _ p0 Hinit) as p1 Hp1.
  destruct Hp1 as (Hinv1 & Hcompletion1).
  step_with (identifyGaps_total p1) as p2 Hp2. { apply Hinv1. }
  destruct Hp2 as (Hsame2 & placed & Hobjs2 & Hgaps2).
  assert (Hpos2 : allPositioned p2 p2.(Picture.placedComponents)).
  { eapply sameAssembly_positioned; [exact Hsame2 | apply Hinv1]. }
  step_with (drawConclusions_total p2 Hpos2) as p3 Hp3.
  destruct Hp3 as (Hsame3 & Hgaps3).
  assert (Hpos3 : allPositioned p3 p3.(Picture.placedComponents)).
  { eapply sameAssembly_positioned; [exact Hsame3 | exact Hpos2]. }
  step_with (assessCourtReadiness_total p3 Hpos3) as p4 Hp4.
  destruct Hp4 as (Hsame4 & Hgaps4).
  assert (Hpos4 : allPositioned p4 p4.(Picture.placedComponents)).
  { eapply sameAssembly_positioned; [exact Hsame4 | exact Hpos3]. }
  step_any.
  step_with (calculateCourtReadiness_total p4 Hpos4) as readiness Hreadiness.
  apply total_ret. unfold pipelinePost. simpl.
  pose proof (sameAssembly_trans _ _ _ Hsame2
                (sameAssembly_trans _ _ _ Hsame3 Hsame4)) as Hsame.
  exists (engineerEdges components).
  split; [exact Hengineered|].
  split. { destruct Hsame as (E1 & E2 & E3 & _).
           eapply assembling_ext; [exact E1|exact E2|exact E3|exact Hinv1]. }
  split. { destruct Hsame as (E1 & E2 & _ & E4). rewrite E4, E1, E2.
           exact Hcompletion1. }
  split. { exists placed. split.
           - eapply sameAssembly_placed; [|exact Hobjs2].
             eapply sameAssembly_trans; eassumption.
           - rewrite Hgaps4, Hgaps3. exact Hgaps2. }
  split; [reflexivity|]. split; [|split; reflexivity].
  unfold engineerEdges. rewrite length_imap. reflexivity.
Qed.

(** ** The loop never runs out of fuel, whatever the picture *)












(** ** The claims about [processFragments] *)

Lemma placementOf_fragmentId (c0 c : JigsawComponent.t) :
  placementOf c0 c -> c.(JigsawComponent.fragmentId) = c0.(JigsawComponent.fragmentId).
Proof. intros [->|[pos ->]]; reflexivity. Qed.

Lemma Forall2_compose {A B C} (P : A -> B -> Prop) (Q : B -> C -> Prop)
    (l : list A) (k : list B) (m : list C) :
  Forall2 P l k -> Forall2 Q k m -> Forall2 (fun a c => exists b, P a b /\ Q b c) l m.
Proof.
  intros HP. revert m. induction HP as [|a b l k Hab _ IH]; intros m HQ;
    inversion HQ; subst; constructor; eauto.
Qed.

(** C1: the components that [processFragments] creates correspond one to
    one, in order, to the input fragments that satisfy
    [isReal && isTrue && isNeeded && verificationLevel >= 5]: there are as
    many components as such fragments, the i-th component carries the id
    of the i-th such fragment, and a fragment that fails the gate yields no
    component. *)
Theorem components_match_gated_fragments
    (this : JigsawProtocolEngine.t) (fragments : list TruthFragment.t)
    (caseId : string) (caseType : CaseType) (caseTitle : string) :
  total (processFragments this fragments caseId caseType caseTitle)
        (fun result =>
           let components := result.(JigsawResult.picture).(Picture.components) in
           let gated :=
             List.filter
               (fun f => f.(TruthFragment.isReal) && f.(TruthFragment.isTrue)
                         && f.(TruthFragment.isNeeded)
                         && Qle_bool 5 f.(TruthFragment.verificationLevel))
               fragments in
           result.(JigsawResult.componentsCreated) = length gated
           /\ length components = length gated
           /\ Forall2 (fun f c =>
                         c.(JigsawComponent.fragmentId) = f.(TruthFragment.id))
                      gated components).
Proof.
  eapply total_weaken; [apply processFragments_spec|].
  intros result (initial & Hcompressed & Hinv & _ & _ & _ & Hcreated & _).
  cbv zeta. fold passesGate. fold (filterVerifiedFragments fragments).
  destruct Hinv as (Hplacement & _).
  pose proof (Forall2_length _ _ _ Hcompressed) as E1.
  pose proof (Forall2_length _ _ _ Hplacement) as E2.
  split; [congruence|]. split; [congruence|].
  eapply Forall2_impl; [exact (Forall2_compose _ _ _ _ _ Hcompressed Hplacement)|].
  intros f c (c0 & (Hid & _) & Hplace). simpl.
  rewrite (placementOf_fragmentId _ _ Hplace). exact Hid.
Qed.

(** When no fragment passes the gate the picture has no component and the
    division is 0 / 0. *)
Lemma completionPercentage_NaN
    (this : JigsawProtocolEngine.t) (fragments : list TruthFragment.t)
    (caseId : string) (caseType : CaseType) (caseTitle : string) :
  filterVerifiedFragments fragments = [] ->
  total (processFragments this fragments caseId caseType caseTitle)
        (fun result =>
           result.(JigsawResult.picture).(Picture.completionPercentage) = NaN).
Proof.
  intros Hnone. eapply total_weaken; [apply processFragments_spec|].
  intros result (initial & Hcompressed & Hinv & Hcompletion & _).
  rewrite Hnone in Hcompressed. apply Forall2_nil_inv_l in Hcompressed.
  subst initial. destruct Hinv as (Hplacement & Hperm & _).
  apply Forall2_nil_inv_l in Hplacement.
  simpl in Hperm. apply Permutation_nil_r in Hperm.
  apply app_eq_nil in Hperm as (Hplaced & _).
  rewrite Hplacement, Hplaced in Hcompletion. exact Hcompletion.
Qed.

(** C4, at the empty list of fragments: the picture has no component, the
    division is 0 / 0 and the completion percentage is [NaN], which is not
    a number between 0 and 100. *)
Theorem completionPercentage_of_nothing_is_NaN
    (this : JigsawProtocolEngine.t)
    (caseId : string) (caseType : CaseType) (caseTitle : string) :
  total (processFragments this [] caseId caseType caseTitle)
        (fun result =>
           result.(JigsawResult.picture).(Picture.completionPercentage) = NaN
           /\ ~ num_between 0 100
                  result.(JigsawResult.picture).(Picture.completionPercentage)).
Proof.
  eapply total_weaken; [apply completionPercentage_NaN; reflexivity|].
  intros result ->. split; [reflexivity | exact (fun x => x)].
Qed.

(** The completion percentage is between 0 and 100 as soon as one fragment
    passes the gate. *)
Lemma completionPercentage_in_range
    (this : JigsawProtocolEngine.t) (fragments : list TruthFragment.t)
    (caseId : string) (caseType : CaseType) (caseTitle : string) :
  filterVerifiedFragments fragments <> [] ->
  total (processFragments this fragments caseId caseType caseTitle)
        (fun result =>
           num_between 0 100
             result.(JigsawResult.picture).(Picture.completionPercentage)).
Proof.
  intros Hsome. eapply total_weaken; [apply processFragments_spec|].
  intros result (initial & Hcompressed & Hinv & Hcompletion & _).
  rewrite Hcompletion. clear Hcompletion.
  pose proof (assembling_length _ _ Hinv) as Hlen.
  destruct Hinv as (_ & Hperm & _).
  apply Permutation_length in Hperm. rewrite length_app, length_seq in Hperm.
  apply Forall2_length in Hcompressed.
  set (p := result.(JigsawResult.picture)) in *.
  assert (Hpos : 0 < length p.(Picture.components)).
  { rewrite Hlen, <- Hcompressed.
    destruct (filterVerifiedFragments fragments); [congruence | simpl; lia]. }
  assert (Hle : length p.(Picture.placedComponents) <= length p.(Picture.components))
    by lia.
  revert Hpos Hle. generalize (length p.(Picture.placedComponents)) as a.
  generalize (length p.(Picture.components)) as b. intros b a Hpos Hle.
  destruct b as [|b]; [lia|]. simpl.
  set (qa := inject_Z (Z.of_nat a)). set (qb := inject_Z (Z.of_nat (S b))).
  assert (Ha : (0 <= qa)%Q).
  { unfold qa. rewrite <- (Zle_Qle 0). lia. }
  assert (Hb : (0 < qb)%Q).
  { unfold qb. rewrite <- (Zlt_Qlt 0). lia. }
  assert (Hab : (qa <= qb)%Q).
  { unfold qa, qb. rewrite <- Zle_Qle. lia. }
  split.
  - apply Qmult_le_0_compat; [|discriminate].
    apply Qle_shift_div_l; [exact Hb|]. rewrite Qmult_0_l. exact Ha.
  - apply Qle_trans with (1 * 100)%Q; [|unfold Qle; simpl; lia].
    apply Qmult_le_compat_r; [|discriminate].
    apply Qle_shift_div_r; [exact Hb|]. rewrite Qmult_1_l. exact Hab.
Qed.

(** C10: in the picture that [processFragments] returns, every component
    (every reference into [components]) is in exactly one of
    [placedComponents] and [unplacedComponents], neither array repeats a
    component, and the two lengths add up to the number of components. *)
Theorem placed_unplaced_partition
    (this : JigsawProtocolEngine.t) (fragments : list TruthFragment.t)
    (caseId : string) (caseType : CaseType) (caseTitle : string) :
  total (processFragments this fragments caseId caseType caseTitle)
        (fun result =>
           let p := result.(JigsawResult.picture) in
           NoDup (p.(Picture.placedComponents) ++ p.(Picture.unplacedComponents))
           /\ (forall r,
                 r < length p.(Picture.components) <->
                 r ∈ p.(Picture.placedComponents)
                 \/ r ∈ p.(Picture.unplacedComponents))
           /\ (forall r,
                 ~ (r ∈ p.(Picture.placedComponents)
                    /\ r ∈ p.(Picture.unplacedComponents)))
           /\ length p.(Picture.placedComponents)
              + length p.(Picture.unplacedComponents)
              = length p.(Picture.components)).
Proof.
  eapply total_weaken; [apply processFragments_spec|].
  intros result (initial & _ & Hinv & _). cbv zeta.
  pose proof (assembling_NoDup _ _ Hinv) as Hnd.
  pose proof (assembling_length _ _ Hinv) as Hlen.
  destruct Hinv as (_ & Hperm & _).
  split; [exact Hnd|]. split; [|split].
  - intros r. rewrite <- elem_of_app, Hperm, elem_of_seq, Hlen. lia.
  - intros r (Hp & Hu). apply NoDup_app in Hnd as (_ & Hdisj & _).
    exact (Hdisj r Hp Hu).
  - rewrite <- length_app, Hperm, length_seq, Hlen. reflexivity.
Qed.


(** ** The gap rule *)

Lemma includes_true (l : list string) (s : string) :
  includes l s = true <-> s ∈ l.
Proof.
  unfold includes. rewrite existsb_exists, list_elem_of_In. split.
  - intros (x & Hx & E). apply String.eqb_eq in E. subst. exact Hx.
  - intros Hs. exists s. split; [exact Hs | apply String.eqb_refl].
Qed.

Lemma hasConnection_true (placed : list JigsawComponent.t)
    (component : JigsawComponent.t) (e : ComponentEdge.t) :
  hasConnection placed component e = true <->
  exists other, other ∈ placed
                /\ other.(JigsawComponent.id) <> component.(JigsawComponent.id)
                /\ other.(JigsawComponent.id) ∈ e.(ComponentEdge.compatibleWith).
Proof.
  unfold hasConnection. rewrite existsb_exists. split.
  - intros (other & Hin & Hb). apply andb_true_iff in Hb as (Hne & Hinc).
    exists other. rewrite list_elem_of_In. split; [exact Hin|].
    split; [|apply includes_true, Hinc].
    apply negb_true_iff, String.eqb_neq in Hne. exact Hne.
  - intros (other & Hin & Hne & Hinc). exists other.
    rewrite <- list_elem_of_In. split; [exact Hin|].
    apply andb_true_iff. split; [|apply includes_true, Hinc].
    apply negb_true_iff, String.eqb_neq. exact Hne.
Qed.

Lemma emitsGap_true (placed : list JigsawComponent.t)
    (component : JigsawComponent.t) (e : ComponentEdge.t) :
  emitsGap placed component e = true <->
  e.(ComponentEdge.compatibleWith) <> []
  /\ ~ exists other, other ∈ placed
                     /\ other.(JigsawComponent.id) <> component.(JigsawComponent.id)
                     /\ other.(JigsawComponent.id) ∈ e.(ComponentEdge.compatibleWith).
Proof.
  unfold emitsGap. rewrite andb_true_iff, negb_true_iff, <- hasConnection_true.
  rewrite Nat.ltb_lt. destruct (hasConnection placed component e);
    destruct e.(ComponentEdge.compatibleWith); simpl;
    split; intros (H1 & H2); split; try congruence; try lia; auto.
Qed.

Lemma emitsGap_false (placed : list JigsawComponent.t)
    (component : JigsawComponent.t) (e : ComponentEdge.t) :
  emitsGap placed component e = false <->
  (e.(ComponentEdge.compatibleWith) <> [] ->
   exists other, other ∈ placed
                 /\ other.(JigsawComponent.id) <> component.(JigsawComponent.id)
                 /\ other.(JigsawComponent.id) ∈ e.(ComponentEdge.compatibleWith)).
Proof.
  unfold emitsGap. rewrite <- hasConnection_true.
  destruct (hasConnection placed component e);
    destruct e.(ComponentEdge.compatibleWith); simpl;
    split; intros Hx; try reflexivity; try discriminate;
    try (intros ?; congruence);
    try (assert (false = true) by (apply Hx; discriminate); discriminate).
Qed.

Lemma elem_of_gapSites (placed : list JigsawComponent.t)
    (component : JigsawComponent.t) (e : ComponentEdge.t) :
  (component, e) ∈ gapSites placed <->
  component ∈ placed
  /\ e ∈ component.(JigsawComponent.edges)
  /\ emitsGap placed component e = true.
Proof.
  unfold gapSites. rewrite !list_elem_of_In, in_flat_map. split.
  - intros (c & Hc & Hin). apply in_map_iff in Hin as (e' & E & He').
    injection E as -> ->. apply filter_In in He' as (He' & Hb). auto.
  - intros (Hc & He & Hb). exists component. split; [exact Hc|].
    apply in_map_iff. exists e. split; [reflexivity|].
    apply filter_In. auto.
Qed.

(** C5 (as amended): [identifyGaps] emits one gap per placed component
    and edge, in the order of its loops, exactly when the edge's
    [compatibleWith] is non-empty and no other placed component (one with a
    different id) has its id in that [compatibleWith], wherever the
    components were placed; the gap count is zero iff every non-empty
    [compatibleWith] of a placed component contains the id of another placed
    component. *)
Theorem gaps_follow_compatible_ids
    (this : JigsawProtocolEngine.t) (fragments : list TruthFragment.t)
    (caseId : string) (caseType : CaseType) (caseTitle : string) :
  total (processFragments this fragments caseId caseType caseTitle)
        (fun result =>
           let p := result.(JigsawResult.picture) in
           exists placed,
             placedWithPositions p placed
             /\ Forall2 gapFor (gapSites placed) p.(Picture.gaps)
             /\ (forall component e,
                   (component, e) ∈ gapSites placed <->
                   component ∈ placed
                   /\ e ∈ component.(JigsawComponent.edges)
                   /\ e.(ComponentEdge.compatibleWith) <> []
                   /\ ~ exists other,
                          other ∈ placed
                          /\ other.(JigsawComponent.id)
                             <> component.(JigsawComponent.id)
                          /\ other.(JigsawComponent.id)
                             ∈ e.(ComponentEdge.compatibleWith))
             /\ (result.(JigsawResult.gapsIdentified) = 0 <->
                 forall component e,
                   component ∈ placed ->
                   e ∈ component.(JigsawComponent.edges) ->
                   e.(ComponentEdge.compatibleWith) <> [] ->
                   exists other,
                     other ∈ placed
                     /\ other.(JigsawComponent.id) <> component.(JigsawComponent.id)
                     /\ other.(JigsawComponent.id)
                        ∈ e.(ComponentEdge.compatibleWith))).
Proof.
  eapply total_weaken; [apply processFragments_spec|].
  intros result (initial & _ & _ & _ & (placed & Hobjs & Hgaps) & _ & _ & _ & Hcount).
  cbv zeta. exists placed.
  split; [exact Hobjs|]. split; [exact Hgaps|]. split.
  - intros c e. rewrite elem_of_gapSites, emitsGap_true. tauto.
  - rewrite Hcount, <- (Forall2_length _ _ _ Hgaps). split.
    + intros Hzero c e Hc He. apply emitsGap_false.
      destruct (emitsGap placed c e) eqn:Hemit; [|reflexivity].
      assert (Hin : (c, e) ∈ gapSites placed) by (apply elem_of_gapSites; auto).
      destruct (gapSites placed); [|discriminate Hzero].
      apply elem_of_nil in Hin. destruct Hin.
    + intros Hall. destruct (gapSites placed) as [|[c e] sites] eqn:Hsites;
        [reflexivity|].
      assert (Hin : (c, e) ∈ gapSites placed) by (rewrite Hsites; left).
      apply elem_of_gapSites in Hin as (Hc & He & Hemit).
      apply emitsGap_true in Hemit as (Hne & Hnone).
      destruct Hnone. apply Hall; assumption.
Qed.

End WithPlatform.

(** ** Closed examples *)

(** C6, counterexample: an edge piece does not connect to a corner piece
    towards the north, although the rule "corner <-> edge: compatible" of
    the specification makes the pair compatible. *)
Lemma compatibility_is_directional :
  let edgeShape := ComponentShape.mk Topology.edge 5 true "e" in
  let cornerShape := ComponentShape.mk Topology.corner 5 true "c" in
  Spec.compatible edgeShape cornerShape north = true
  /\ shapesCanConnect cornerShape edgeShape north = true
  /\ shapesCanConnect edgeShape cornerShape north = false.
Proof. repeat split. Qed.

(** C5, counterexample: two financial traces.  The first is placed at the
    origin, the second above it on the z axis.  The north edge of the first
    has a non-empty [compatibleWith] and nothing is placed at (0, 1, 0), so
    the rule of the specification expects a gap; [identifyGaps] emits none. *)
Lemma gap_rule_ignores_coordinates :
  exists result w' c c' e,
    processFragments (H := Examples.platform) Examples.engine Examples.twoTraces
                     "CASE-1" fraud "Two traces" Examples.world
    = Ok (result, w')
    /\ result.(JigsawResult.picture).(Picture.components) = [c; c']
    /\ result.(JigsawResult.picture).(Picture.placedComponents) = [0; 1]
    /\ c.(JigsawComponent.edges) !! 0 = Some e
    /\ e.(ComponentEdge.direction) = north
    /\ Spec.gapExpected [c; c'] c e = true
    /\ emitsGap [c; c'] c e = false
    /\ result.(JigsawResult.picture).(Picture.gaps) = [].
Proof.
  eexists _, _, _, _, _.
  split; [vm_compute; reflexivity|].
  split; [reflexivity|]. split; [reflexivity|]. split; [reflexivity|].
  repeat split.
Qed.


(** On the example platform the engineering signature, unlike the
    fingerprint, changes with the engine. *)
Example signature_depends_on_engine :
  let fragment := Examples.fragment "TF-1" financial_trace 7 85 in
  let shape := generateShape (H := Examples.platform) fragment in
  generateEngineeringSignature (H := Examples.platform) Examples.engine fragment shape
  <> generateEngineeringSignature (H := Examples.platform) Examples.otherEngine
                                  fragment shape.
Proof. vm_compute. discriminate. Qed.

(** A scenario of the specification: one testimony of level 9 and
    confidence 95 gives one keystone component, placed at the origin, and a
    completion of 100%. *)
Example scenario_single_testimony :
  exists result w' c pos q,
    processFragments (H := Examples.platform) Examples.engine
                     [Examples.fragment "TF-1" survivor_testimony 9 95]
                     "CASE-1" fraud "One testimony" Examples.world
    = Ok (result, w')
    /\ result.(JigsawResult.picture).(Picture.components) = [c]
    /\ c.(JigsawComponent.shape).(ComponentShape.topology) = Topology.keystone
    /\ c.(JigsawComponent.position) = Some pos
    /\ (pos.(ComponentPosition.x), pos.(ComponentPosition.y),
        pos.(ComponentPosition.z)) = (0, 0, 0)%Z
    /\ result.(JigsawResult.picture).(Picture.placedComponents) = [0]
    /\ result.(JigsawResult.picture).(Picture.completionPercentage) = Fin q
    /\ (q == 100)%Q.
Proof.
  eexists _, _, _, _, _.
  split; [vm_compute; reflexivity|].
  repeat split.
Qed.

(** A test of the repository: of three fragments of levels 7, 3 and 8 the
    one of level 3 is filtered out. *)
Example scenario_low_level_filtered :
  exists result w',
    processFragments (H := Examples.platform) Examples.engine
                     [ Examples.fragment "TF-1" document_artifact 7 85;
                       Examples.fragment "TF-2" document_artifact 3 85;
                       Examples.fragment "TF-3" document_artifact 8 85 ]
                     "CASE-003" fraud "Test Case" Examples.world
    = Ok (result, w')
    /\ result.(JigsawResult.componentsCreated) = 2
    /\ map JigsawComponent.fragmentId
           result.(JigsawResult.picture).(Picture.components)
       = ["TF-1"; "TF-3"].
Proof.
  eexists _, _. split; [vm_compute; reflexivity|]. split; reflexivity.
Qed.

End JigsawProperties.

(** * Properties of the CVK 1100 engine *)

Module CvkProperties.
Import CVK1100Engine CvkInvariants.

Section WithPlatform.
Context `{Platform}.

Ltac result_fields :=
  cbn [VerificationResult.reasoning VerificationResult.isNeeded
       VerificationResult.confidence VerificationResult.rejected
       VerificationResult.fragment VerificationResult.isReal
       VerificationResult.isTrue VerificationReasoning.realityChecks
       VerificationReasoning.necessityChecks].

Lemma createTruthFragment_total
    (this : CVK1100Engine.t) (input : RawInput.t) (level : Z) (confidence : Q)
    (isReal isTrue isNeeded : bool) :
  total (createTruthFragment this input level confidence isReal isTrue isNeeded)
        (fun f => f.(TruthFragment.content) = input.(RawInput.content)
                  /\ f.(TruthFragment.confidence) = confidence
                  /\ f.(TruthFragment.isReal) = isReal
                  /\ f.(TruthFragment.isTrue) = isTrue
                  /\ f.(TruthFragment.isNeeded) = isNeeded).
Proof.
  unfold createTruthFragment. do 3 step_any. apply total_ret. repeat split.
Qed.

Lemma detectAnomalies_total (input : RawInput.t)
    (realityChecks : list RealityCheck.t) (truthChecks : list TruthCheck.t) :
  total (detectAnomalies input realityChecks truthChecks) (fun _ => True).
Proof. unfold detectAnomalies. trivially_total. Qed.

Lemma performRealityChecks_total (input : RawInput.t) :
  total (performRealityChecks input)
        (fun checks => exists now, checks = realityChecksAt now input).
Proof.
  unfold performRealityChecks. step_any. apply total_ret. eexists. reflexivity.
Qed.

Lemma performNecessityChecks_total (input : RawInput.t) (context : CaseContext.t) :
  total (performNecessityChecks input context)
        (fun checks =>
           exists now,
             checks = necessityChecksFor (relevanceAt now input context) input context).
Proof.
  unfold performNecessityChecks, calculateRelevance.
  eapply total_bind.
  - step_any. apply (total_ret _ (fun s => exists n, s = relevanceAt n input context)).
    eexists. reflexivity.
  - intros score [now ->]. apply total_ret. exists now. reflexivity.
Qed.

Lemma verifyInput_spec
    (this : CVK1100Engine.t) (input : RawInput.t) (context : CaseContext.t) :
  total (verifyInput this input context) (verified input context).
Proof.
  unfold verifyInput.
  step_with (performRealityChecks_total input) as realityChecks Hreality.
  destruct Hreality as [now1 ->].
  step_with (performNecessityChecks_total input context) as necessityChecks Hnecessity.
  destruct Hnecessity as [now2 ->].
  step_with detectAnomalies_total as anomalies Hanomalies.
  match goal with
  | |- total (bind (if ?b then _ else _) _) _ =>
      remember b as rejected eqn:Hrejected; destruct rejected
  end.
  - eapply total_bind; [apply (total_ret _ (fun o => o = None)); reflexivity|].
    intros fragment ->. apply total_ret.
    exists now1, now2. cbv zeta. result_fields.
    repeat split; try reflexivity; try discriminate; exact Hrejected.
  - eapply total_bind; [apply total_Some, createTruthFragment_total|].
    + intros fragment (f & -> & Hf). apply total_ret.
      exists now1, now2. cbv zeta. result_fields.
      repeat split; try reflexivity; try discriminate; try exact Hrejected.
      intros _. exists f. split; [reflexivity | exact Hf].
Qed.



(** ** Necessity *)






(** ** Confidence *)

(** C3, at an input with thirty verified provenance records: the
    "External source corroboration" check contributes 30 * 20 = 600 to the
    truth average, and the confidence that [verifyInput] returns is above
    100, whatever the case context, the clock and the platform. *)
Theorem confidence_exceeds_100 (this : CVK1100Engine.t) (context : CaseContext.t) :
  total (verifyInput this Examples.corroborated context)
        (fun r => (100 < r.(VerificationResult.confidence))%Q).
Proof.
  eapply total_weaken; [apply verifyInput_spec|].
  intros r (now1 & now2 & _ & _ & _ & Hconfidence & _).
  rewrite Hconfidence.
  unfold calculateConfidence, realityChecksAt, performTruthChecks,
    necessityChecksFor, relevanceAt, performCrossReferences.
  cbv zeta.
  set (valid := date_leb _ (DateMs now1) && _). clearbody valid.
  set (consistent := date_leb (CaseContext.startDate context) _).
  clearbody consistent.
  set (jurisdictionValid := existsb (Jurisdiction_eqb _) _).
  clearbody jurisdictionValid.
  set (relevant := includesSourceType (relevantSourceTypes _) _).
  clearbody relevant.
  set (recent := match RawInput.timestamp _ with
                 | DateMs _ => _
                 | InvalidDate => false
                 end).
  clearbody recent.
  set (actionable := isActionableIntelligence _ _). clearbody actionable.
  destruct valid, consistent, jurisdictionValid, relevant, recent, actionable;
    vm_compute; reflexivity.
Qed.

(** The lower half of the range holds for every input. *)

Lemma Qplus_nonneg (a b : Q) : (0 <= a)%Q -> (0 <= b)%Q -> (0 <= a + b)%Q.
Proof.
  intros Ha Hb. apply Qle_trans with (0 + 0)%Q; [unfold Qle; simpl; lia|].
  apply Qplus_le_compat; assumption.
Qed.

Lemma Qsum_nonneg (l : list Q) :
  Forall (fun q => (0 <= q)%Q) l -> (0 <= Qsum l)%Q.
Proof.
  intros Hl. unfold Qsum.
  assert (Hacc : forall acc, (0 <= acc)%Q -> (0 <= foldl Qplus acc l)%Q).
  { induction Hl as [|q l Hq _ IH]; intros acc Hacc; simpl; [exact Hacc|].
    apply IH. apply Qplus_nonneg; assumption. }
  apply Hacc. discriminate.
Qed.

Lemma Qlen_nonneg {A} (l : list A) : (0 <= Qlen l)%Q.
Proof. unfold Qlen. rewrite <- (Zle_Qle 0). lia. Qed.

Lemma Qdiv_nonneg (a b : Q) : (0 <= a)%Q -> (0 <= b)%Q -> (0 <= a / b)%Q.
Proof.
  intros Ha Hb. unfold Qdiv. apply Qmult_le_0_compat; [exact Ha|].
  apply Qinv_le_0_compat, Hb.
Qed.

Lemma average_nonneg {A} (score : A -> Q) (l : list A) :
  Forall (fun a => (0 <= score a)%Q) l ->
  (0 <= Qsum (map score l) / Qlen l)%Q.
Proof.
  intros Hl. apply Qdiv_nonneg; [|apply Qlen_nonneg].
  apply Qsum_nonneg. induction Hl; simpl; constructor; assumption.
Qed.

Lemma confidence_nonnegative
    (this : CVK1100Engine.t) (input : RawInput.t) (context : CaseContext.t) :
  total (verifyInput this input context)
        (fun r => (0 <= r.(VerificationResult.confidence))%Q).
Proof.
  eapply total_weaken; [apply verifyInput_spec|].
  intros r (now1 & now2 & _ & _ & _ & Hconfidence & _).
  rewrite Hconfidence. unfold calculateConfidence.
  repeat apply Qplus_nonneg; apply Qmult_le_0_compat; try discriminate;
    apply average_nonneg.
  - unfold realityChecksAt. cbv zeta.
    repeat constructor; cbn [RealityCheck.confidence];
      try (match goal with |- context [if ?b then _ else _] => destruct b end;
           discriminate).
    apply Q.min_glb; [discriminate|].
    apply Qdiv_nonneg; [|discriminate]. rewrite <- (Zle_Qle 0). lia.
  - unfold performTruthChecks. cbv zeta.
    repeat constructor; cbn [TruthCheck.confidence];
      try discriminate;
      try (match goal with |- context [if ?b then _ else _] => destruct b end;
           discriminate).
    apply Qmult_le_0_compat; [apply Qlen_nonneg | discriminate].
  - unfold necessityChecksFor, relevanceAt. cbv zeta.
    repeat constructor; cbn [NecessityCheck.relevance]; try discriminate.
    + repeat match goal with |- context [if ?b then _ else _] => destruct b end;
        apply Q.min_glb; discriminate.
    + destruct (isActionableIntelligence input context); discriminate.
  - unfold performCrossReferences. apply Forall_app. split.
    + apply Forall_forall. intros c Hc.
      apply list_elem_of_In, in_map_iff in Hc as (prov & <- & _).
      cbn [CrossReference.matchScore].
      destruct prov.(ProvenanceRecord.verified); discriminate.
    + repeat constructor. discriminate.
Qed.

End WithPlatform.
End CvkProperties.

(** * Further properties of the Jigsaw Protocol engine *)

Module AssemblyProperties.
Import JigsawProtocolEngine Invariants Assembly JigsawProperties.

Section WithPlatform.
Context `{Platform}.

(** ** The sort *)

Lemma Qltb_false (a b : Q) : Qltb a b = false <-> (b <= a)%Q.
Proof.
  unfold Qltb. rewrite negb_false_iff. apply Qle_bool_iff.
Qed.

Lemma Qltb_lt (a b : Q) : Qltb a b = true <-> (a < b)%Q.
Proof.
  unfold Qltb. rewrite negb_true_iff, <- not_true_iff_false, Qle_bool_iff.
  split; [apply Qnot_le_lt | apply Qlt_not_le].
Qed.

(** The head of the sorted array has the greatest key. *)
Lemma insertDesc_head {A} (key : A -> Q) (a : A) (l : list A) :
  (forall x y k, l = x :: k -> y ∈ l -> (key y <= key x)%Q) ->
  exists x k, insertDesc key a l = x :: k
              /\ forall y, y ∈ a :: l -> (key y <= key x)%Q.
Proof.
  intros Hl. destruct l as [|b l]; simpl.
  - exists a, []. split; [reflexivity|]. intros y Hy.
    apply list_elem_of_singleton in Hy. subst. apply Qle_refl.
  - destruct (Qltb (key a) (key b)) eqn:Hab.
    + exists b, (insertDesc key a l). split; [reflexivity|].
      intros y Hy. apply elem_of_cons in Hy as [->|Hy].
      * apply Qlt_le_weak, Qltb_lt, Hab.
      * eapply Hl; [reflexivity | exact Hy].
    + exists a, (b :: l). split; [reflexivity|].
      apply Qltb_false in Hab.
      intros y Hy. apply elem_of_cons in Hy as [->|Hy]; [apply Qle_refl|].
      apply Qle_trans with (key b); [|exact Hab].
      eapply Hl; [reflexivity | exact Hy].
Qed.

Lemma sortDesc_head {A} (key : A -> Q) (l : list A) (x : A) (k : list A) :
  sortDesc key l = x :: k -> forall y, y ∈ l -> (key y <= key x)%Q.
Proof.
  revert x k. induction l as [|a l IH]; intros x k Hsort y Hy.
  - apply elem_of_nil in Hy. destruct Hy.
  - simpl in Hsort.
    destruct (insertDesc_head key a (sortDesc key l)) as (x' & k' & E & Hmax).
    + intros x0 y0 k0 E0 Hy0. eapply IH; [exact E0|].
      rewrite <- (sortDesc_perm key l). exact Hy0.
    + rewrite E in Hsort. injection Hsort as -> ->.
      apply Hmax. apply elem_of_cons in Hy as [->|Hy]; [left|right].
      rewrite (sortDesc_perm key l). exact Hy.
Qed.

Lemma sortDesc_elem_of {A} (key : A -> Q) (l : list A) (x : A) :
  x ∈ sortDesc key l <-> x ∈ l.
Proof. rewrite (sortDesc_perm key l). reflexivity. Qed.

(** The sort is by key, largest first, and stable: elements with equal
    keys stay in the order of their indices. *)
Lemma insertDesc_sorted (a : nat * Q) (l : list (nat * Q)) :
  let before := fun x y : nat * Q =>
                  (snd y < snd x)%Q \/ ((snd x == snd y)%Q /\ fst x < fst y) in
  StronglySorted before l ->
  Forall (fun y => fst a < fst y) l ->
  StronglySorted before (insertDesc snd a l).
Proof.
  intros before Hsorted Hfirst.
  induction Hsorted as [|b l Hsorted IH Hb]; simpl.
  - constructor; constructor.
  - apply Forall_cons in Hfirst as (Hab & Hfirst).
    destruct (Qltb (snd a) (snd b)) eqn:Hcmp.
    + apply Qltb_lt in Hcmp. constructor; [apply IH, Hfirst|].
      rewrite (insertDesc_perm snd a l). constructor; [left; exact Hcmp | exact Hb].
    + apply Qltb_false in Hcmp. constructor; [constructor; assumption|].
      assert (Hbefore : before a b).
      { destruct (Qlt_le_dec (snd b) (snd a)) as [Hlt|Hle]; [left; exact Hlt|].
        right. split; [apply Qle_antisym; assumption | exact Hab]. }
      constructor; [exact Hbefore|].
      rewrite Forall_forall in Hb, Hfirst. apply Forall_forall. intros y Hy.
      assert (Hyb : (snd y <= snd b)%Q).
      { destruct (Hb y Hy) as [Hlt|[Heq _]];
          [apply Qlt_le_weak, Hlt | rewrite Heq; apply Qle_refl]. }
      destruct (Qlt_le_dec (snd y) (snd a)) as [Hlt|Hle]; [left; exact Hlt|].
      right. split; [|apply Hfirst, Hy].
      apply Qle_antisym; [exact Hle|]. apply Qle_trans with (snd b); assumption.
Qed.

Lemma sortDesc_sorted (l : list (nat * Q)) :
  StronglySorted (fun x y => fst x < fst y) l ->
  StronglySorted (fun x y => (snd y < snd x)%Q
                             \/ ((snd x == snd y)%Q /\ fst x < fst y))
                 (sortDesc snd l).
Proof.
  induction 1 as [|a l _ IH Ha]; simpl; [constructor|].
  apply insertDesc_sorted; [exact IH|].
  rewrite (sortDesc_perm snd l). exact Ha.
Qed.

Lemma imap_weights_lookup (components : list JigsawComponent.t) (x : nat * Q) :
  x ∈ imap (fun r c => (r, c.(JigsawComponent.weight))) components <->
  exists c, components !! fst x = Some c /\ snd x = c.(JigsawComponent.weight).
Proof.
  rewrite list_elem_of_lookup. split.
  - intros (i & Hi). rewrite list_lookup_imap in Hi.
    destruct (components !! i) as [c|] eqn:Hc; [|discriminate].
    injection Hi as <-. exists c. split; [exact Hc | reflexivity].
  - destruct x as [r w]. simpl. intros (c & Hc & ->). exists r.
    rewrite list_lookup_imap, Hc. reflexivity.
Qed.

Lemma imap_weights_increasing (components : list JigsawComponent.t) (k : nat) :
  StronglySorted (fun x y : nat * Q => fst x < fst y)
                 (imap (fun r c => (k + r, c.(JigsawComponent.weight))) components).
Proof.
  revert k. induction components as [|c l IH]; intros k; simpl; constructor.
  - erewrite imap_ext; [apply (IH (S k))|].
    intros i x _. simpl. f_equal. lia.
  - apply Forall_forall. intros x Hx.
    apply list_elem_of_lookup in Hx as (i & Hi).
    rewrite list_lookup_imap in Hi.
    destruct (l !! i); [|discriminate]. injection Hi as <-. simpl. lia.
Qed.

Lemma StronglySorted_map_fst {A B} (P : A * B -> Prop)
    (R : relation (A * B)) (R' : relation A) (l : list (A * B)) :
  Forall P l ->
  (forall x y, P x -> P y -> R x y -> R' (fst x) (fst y)) ->
  StronglySorted R l -> StronglySorted R' (map fst l).
Proof.
  intros HP Himp Hsorted. induction Hsorted as [|x l _ IH Hx]; simpl; constructor.
  - apply IH. eapply Forall_cons_1, HP.
  - apply Forall_cons in HP as (Px & HP).
    rewrite Forall_forall in Hx, HP. apply Forall_forall. intros r Hr.
    apply list_elem_of_In, in_map_iff in Hr as (y & <- & Hy).
    apply list_elem_of_In in Hy. apply Himp; auto.
Qed.

Lemma queueOrder_sorted (components : list JigsawComponent.t) :
  StronglySorted (queuedBefore components) (queueOrder components).
Proof.
  unfold queueOrder.
  eapply (StronglySorted_map_fst
            (fun x => exists c, components !! fst x = Some c
                                /\ snd x = c.(JigsawComponent.weight))).
  - apply Forall_forall. intros x Hx. apply imap_weights_lookup.
    apply sortDesc_elem_of in Hx. exact Hx.
  - intros x y (cx & Hcx & Hwx) (cy & Hcy & Hwy) Hxy.
    exists cx, cy. rewrite <- Hwx, <- Hwy.
    split; [exact Hcx|]. split; [exact Hcy | exact Hxy].
  - apply sortDesc_sorted. apply (imap_weights_increasing components 0).
Qed.

Lemma queueOrder_perm (components : list JigsawComponent.t) :
  queueOrder components ≡ₚ seq 0 (length components).
Proof.
  unfold queueOrder. rewrite (sortDesc_perm snd).
  replace (map fst (imap (fun r c => (r, c.(JigsawComponent.weight))) components))
    with (seq 0 (length components)); [reflexivity|].
  apply list_eq. intros i.
  change (map fst ?l) with (fst <$> l).
  rewrite list_lookup_fmap, list_lookup_imap.
  destruct (components !! i) as [c|] eqn:Hc; simpl.
  - apply lookup_seq. split; [reflexivity|]. apply lookup_lt_is_Some. eauto.
  - apply lookup_seq_ge. apply lookup_ge_None. exact Hc.
Qed.

(** ** Edge engineering *)

Lemma findCompatibleFrom_after
    (component : JigsawComponent.t) (direction : Direction)
    (currentIndex i : nat) (rest : list JigsawComponent.t) :
  currentIndex < i ->
  findCompatibleFrom component direction currentIndex i rest
  = (map JigsawComponent.id
         (List.filter (fun other =>
                         shapesCanConnect component.(JigsawComponent.shape)
                                          other.(JigsawComponent.shape) direction)
                      rest),
     map JigsawComponent.id
         (List.filter (fun other =>
                         negb (shapesCanConnect component.(JigsawComponent.shape)
                                                other.(JigsawComponent.shape)
                                                direction))
                      rest)).
Proof.
  revert i. induction rest as [|other rest IH]; intros i Hlt; simpl; [reflexivity|].
  rewrite (IH (S i)) by lia.
  destruct (Nat.eqb_spec i currentIndex) as [->|_]; [lia|].
  destruct (shapesCanConnect _ _ _); reflexivity.
Qed.

Lemma findCompatibleFrom_upto
    (component : JigsawComponent.t) (direction : Direction)
    (currentIndex i : nat) (rest : list JigsawComponent.t) :
  i <= currentIndex ->
  findCompatibleFrom component direction currentIndex i rest
  = (map JigsawComponent.id
         (List.filter (fun other =>
                         shapesCanConnect component.(JigsawComponent.shape)
                                          other.(JigsawComponent.shape) direction)
                      (delete (currentIndex - i) rest)),
     map JigsawComponent.id
         (List.filter (fun other =>
                         negb (shapesCanConnect component.(JigsawComponent.shape)
                                                other.(JigsawComponent.shape)
                                                direction))
                      (delete (currentIndex - i) rest))).
Proof.
  revert i. induction rest as [|other rest IH]; intros i Hle; simpl.
  - destruct (currentIndex - i); reflexivity.
  - destruct (Nat.eqb_spec i currentIndex) as [->|Hne].
    + rewrite Nat.sub_diag. simpl.
      rewrite (findCompatibleFrom_after _ _ currentIndex (S currentIndex)) by lia.
      reflexivity.
    + rewrite (IH (S i)) by lia.
      replace (currentIndex - i) with (S (currentIndex - S i)) by lia. simpl.
      destruct (shapesCanConnect _ _ _); reflexivity.
Qed.

(** X1: [findCompatibleComponents] sorts the other components of the batch
    (all but the one at [currentIndex]) into the two lists, in the order of
    the batch: [compatible] holds the ids of those that [shapesCanConnect]
    accepts and [incompatible] the ids of the rest; no component is left
    out and none is in both. *)
Theorem findCompatibleComponents_partition
    (component : JigsawComponent.t) (direction : Direction) (pattern : string)
    (allComponents : list JigsawComponent.t) (currentIndex : nat) :
  let connects := fun other =>
    shapesCanConnect component.(JigsawComponent.shape)
                     other.(JigsawComponent.shape) direction in
  let others := delete currentIndex allComponents in
  let result :=
    findCompatibleComponents component direction pattern allComponents currentIndex in
  fst result = map JigsawComponent.id (List.filter connects others)
  /\ snd result
     = map JigsawComponent.id (List.filter (fun other => negb (connects other)) others)
  /\ fst result ++ snd result ≡ₚ map JigsawComponent.id others
  /\ length (fst result) + length (snd result)
     = length allComponents - (if currentIndex <? length allComponents then 1 else 0).
Proof.
  intros connects others result. subst result. unfold findCompatibleComponents.
  rewrite findCompatibleFrom_upto by lia. rewrite Nat.sub_0_r. simpl.
  fold connects. fold others.
  assert (Hperm : forall l : list JigsawComponent.t,
             map JigsawComponent.id (List.filter connects l)
             ++ map JigsawComponent.id
                  (List.filter (fun other => negb (connects other)) l)
             ≡ₚ map JigsawComponent.id l).
  { induction l as [|c l IH]; simpl; [reflexivity|].
    destruct (connects c); simpl.
    - rewrite IH. reflexivity.
    - rewrite <- Permutation_middle, IH. reflexivity. }
  split; [reflexivity|]. split; [reflexivity|]. split; [apply Hperm|].
  pose proof (Permutation_length (Hperm others)) as Hlen.
  rewrite length_app, (length_map _ others) in Hlen.
  etransitivity; [exact Hlen|]. unfold others.
  destruct (Nat.ltb_spec currentIndex (length allComponents)) as [Hlt|Hge].
  - apply length_delete, lookup_lt_is_Some. exact Hlt.
  - rewrite delete_take_drop, take_ge, drop_ge, app_nil_r by lia. lia.
Qed.

Lemma findCompatibleComponents_eq
    (component : JigsawComponent.t) (direction : Direction) (pattern : string)
    (allComponents : list JigsawComponent.t) (currentIndex : nat) :
  findCompatibleComponents component direction pattern allComponents currentIndex
  = (map JigsawComponent.id
         (List.filter (fun other =>
                         shapesCanConnect component.(JigsawComponent.shape)
                                          other.(JigsawComponent.shape) direction)
                      (delete currentIndex allComponents)),
     map JigsawComponent.id
         (List.filter (fun other =>
                         negb (shapesCanConnect component.(JigsawComponent.shape)
                                                other.(JigsawComponent.shape)
                                                direction))
                      (delete currentIndex allComponents))).
Proof.
  unfold findCompatibleComponents.
  rewrite findCompatibleFrom_upto by lia. rewrite Nat.sub_0_r. reflexivity.
Qed.

Lemma shapesCanConnect_temporal (shape1 shape2 : ComponentShape.t) :
  shapesCanConnect shape1 shape2 temporal = true.
Proof.
  unfold shapesCanConnect.
  repeat match goal with
         | |- context [if ?b then _ else _] => destruct b; try reflexivity
         end.
Qed.

Lemma filter_all {A} (f : A -> bool) (l : list A) :
  (forall a, f a = true) -> List.filter f l = l.
Proof.
  intros Hf. induction l as [|a l IH]; simpl; [reflexivity|].
  rewrite Hf, IH. reflexivity.
Qed.

Lemma filter_none {A} (f : A -> bool) (l : list A) :
  (forall a, f a = false) -> List.filter f l = [].
Proof.
  intros Hf. induction l as [|a l IH]; simpl; [reflexivity|].
  rewrite Hf, IH. reflexivity.
Qed.

Lemma engineerEdges_lookup
    (raw : list JigsawComponent.t) (i : nat) (c : JigsawComponent.t) :
  raw !! i = Some c ->
  engineerEdges raw !! i = Some (withEdges c (calculateEdges c raw i)).
Proof.
  intros Hc. unfold engineerEdges. rewrite list_lookup_imap, Hc. reflexivity.
Qed.

Lemma engineerEdges_length (raw : list JigsawComponent.t) :
  length (engineerEdges raw) = length raw.
Proof. unfold engineerEdges. apply length_imap. Qed.

Lemma engineerEdges_lookup_inv
    (raw : list JigsawComponent.t) (i : nat) (c' : JigsawComponent.t) :
  engineerEdges raw !! i = Some c' ->
  exists c, raw !! i = Some c /\ c' = withEdges c (calculateEdges c raw i).
Proof.
  intros Hc'. destruct (raw !! i) as [c|] eqn:Hc.
  - exists c. split; [reflexivity|].
    rewrite (engineerEdges_lookup _ _ _ Hc) in Hc'. congruence.
  - apply lookup_ge_None in Hc. apply lookup_lt_Some in Hc'.
    rewrite engineerEdges_length in Hc'. lia.
Qed.

Lemma temporal_edge_of
    (c : JigsawComponent.t) (raw : list JigsawComponent.t) (i : nat) :
  exists e,
    calculateEdges c raw i !! 4 = Some e
    /\ e.(ComponentEdge.direction) = temporal
    /\ e.(ComponentEdge.compatibleWith) = map JigsawComponent.id (delete i raw)
    /\ e.(ComponentEdge.incompatibleWith) = []
    /\ e.(ComponentEdge.strength) = calculateEdgeStrength c temporal.
Proof.
  unfold calculateEdges, directions. simpl.
  rewrite (findCompatibleComponents_eq c temporal).
  rewrite (filter_all (fun other => shapesCanConnect _ _ temporal))
    by (intros; apply shapesCanConnect_temporal).
  rewrite (filter_none (fun other => negb (shapesCanConnect _ _ temporal)))
    by (intros; rewrite shapesCanConnect_temporal; reflexivity).
  eexists. split; [reflexivity|]. simpl. auto.
Qed.


(** X3: whatever the shapes are, the temporal edge of an engineered
    component lists every other component of the batch as compatible, in the
    order of the batch, and none as incompatible: in the temporal direction
    [shapesCanConnect] refuses nothing. *)
Theorem temporal_edge_lists_all_others
    (raw : list JigsawComponent.t) (i : nat) (c : JigsawComponent.t) :
  raw !! i = Some c ->
  (forall shape1 shape2, shapesCanConnect shape1 shape2 temporal = true)
  /\ exists c' e,
       engineerEdges raw !! i = Some c'
       /\ c'.(JigsawComponent.edges) !! 4 = Some e
       /\ e.(ComponentEdge.direction) = temporal
       /\ e.(ComponentEdge.compatibleWith) = map JigsawComponent.id (delete i raw)
       /\ e.(ComponentEdge.incompatibleWith) = [].
Proof.
  intros Hc. split; [apply shapesCanConnect_temporal|].
  destruct (temporal_edge_of c raw i) as (e & He & Hd & Hcw & Hiw & _).
  exists (withEdges c (calculateEdges c raw i)), e.
  split; [apply engineerEdges_lookup, Hc|]. simpl. auto.
Qed.

(** ** What [findBestPosition] returns *)

Lemma total_conj {A} (m : M A) (post1 post2 : A -> Prop) :
  total m post1 -> total m post2 -> total m (fun a => post1 a /\ post2 a).
Proof.
  intros H1 H2 w.
  destruct (H1 w) as (a & w' & Hm & Ha).
  destruct (H2 w) as (a' & w'' & Hm' & Ha').
  rewrite Hm in Hm'. inversion Hm'; subst.
  exists a', w''. auto.
Qed.

Lemma calculateAdjacentPosition_spec
    (placed : JigsawComponent.t) (direction : Direction) (pos : ComponentPosition.t) :
  placed.(JigsawComponent.position) = Some pos ->
  total (calculateAdjacentPosition placed direction)
        (fun a => a = adjacentTo pos direction).
Proof.
  intros Hpos w. unfold calculateAdjacentPosition. rewrite Hpos.
  eexists _, _. split; reflexivity.
Qed.

Lemma placementsAgainst_spec
    (component placed : JigsawComponent.t) (pos : ComponentPosition.t)
    (edges : list ComponentEdge.t) :
  placed.(JigsawComponent.position) = Some pos ->
  total (placementsAgainst component placed edges)
        (fun l => l = map (fun e => (adjacentTo pos e.(ComponentEdge.direction),
                                     score component e))
                          (List.filter
                             (fun e => includes e.(ComponentEdge.compatibleWith)
                                                placed.(JigsawComponent.id))
                             edges)).
Proof.
  intros Hpos. induction edges as [|e edges IH]; simpl.
  - apply total_ret. reflexivity.
  - destruct (includes _ _); [|exact IH].
    eapply total_bind; [apply calculateAdjacentPosition_spec, Hpos|].
    cbv beta. intros ? ->.
    eapply total_bind; [exact IH|]. cbv beta. intros rest ->.
    apply total_ret. reflexivity.
Qed.

Lemma compatiblePlacements_spec
    (component : JigsawComponent.t) (p : Picture.t)
    (refs : list ref) (objs : list JigsawComponent.t) :
  Forall2 (fun r c => p.(Picture.components) !! r = Some c
                      /\ is_Some c.(JigsawComponent.position)) refs objs ->
  total (compatiblePlacements component p refs)
        (fun l => l = candidates component objs).
Proof.
  induction 1 as [|r o refs objs [Hr [pos Hpos]] _ IH]; simpl.
  - apply total_ret. reflexivity.
  - eapply total_bind; [apply getComponent_total, Hr|]. cbv beta. intros ? ->.
    eapply total_bind; [apply (placementsAgainst_spec _ _ pos), Hpos|].
    cbv beta. intros here ->.
    eapply total_bind; [exact IH|]. cbv beta. intros rest ->.
    apply total_ret. rewrite Hpos. reflexivity.
Qed.

Lemma findBestPosition_spec
    (component : JigsawComponent.t) (p : Picture.t) (objs : list JigsawComponent.t) :
  placedWithPositions p objs ->
  total (findBestPosition component p)
        (fun o => o = if length p.(Picture.placedComponents) =? 0
                      then Some origin
                      else match sortDesc snd (candidates component objs) with
                           | [] => None
                           | best :: _ => Some (fst best)
                           end).
Proof.
  intros Hobjs. unfold findBestPosition.
  destruct (length p.(Picture.placedComponents) =? 0).
  - apply total_ret. reflexivity.
  - eapply total_bind; [apply compatiblePlacements_spec, Hobjs|].
    cbv beta. intros l ->.
    destruct (sortDesc snd (candidates component objs)); apply total_ret; reflexivity.
Qed.

Lemma allPositioned_objects (p : Picture.t) (refs : list ref) :
  allPositioned p refs ->
  exists objs,
    Forall2 (fun r c => p.(Picture.components) !! r = Some c
                        /\ is_Some c.(JigsawComponent.position)) refs objs.
Proof.
  induction refs as [|r refs IH]; intros Hall.
  - exists []. constructor.
  - destruct (Hall r) as (c & Hc & Hpos & _); [left|].
    destruct IH as (objs & Hobjs).
    { intros r' Hr'. apply Hall. right. exact Hr'. }
    exists (c :: objs). constructor; auto.
Qed.

Lemma elem_of_candidates
    (component : JigsawComponent.t) (objs : list JigsawComponent.t)
    (x : ComponentPosition.t * Q) :
  x ∈ candidates component objs <->
  exists other pos e,
    other ∈ objs
    /\ other.(JigsawComponent.position) = Some pos
    /\ e ∈ component.(JigsawComponent.edges)
    /\ includes e.(ComponentEdge.compatibleWith) other.(JigsawComponent.id) = true
    /\ x = (adjacentTo pos e.(ComponentEdge.direction), score component e).
Proof.
  unfold candidates. rewrite list_elem_of_In, in_flat_map. split.
  - intros (other & Hother & Hx).
    destruct other.(JigsawComponent.position) as [pos|] eqn:Hpos; [|destruct Hx].
    apply in_map_iff in Hx as (e & <- & He).
    apply filter_In in He as (He & Hinc).
    exists other, pos, e. rewrite !list_elem_of_In. auto.
  - intros (other & pos & e & Hother & Hpos & He & Hinc & ->).
    exists other. rewrite <- list_elem_of_In. split; [exact Hother|].
    rewrite Hpos. apply in_map_iff. exists e. split; [reflexivity|].
    apply filter_In. rewrite <- list_elem_of_In. auto.
Qed.

Lemma elem_of_delete_ne {A} (l : list A) (i j : nat) (x : A) :
  l !! j = Some x -> i <> j -> x ∈ delete i l.
Proof.
  intros Hx Hne. apply list_elem_of_lookup.
  destruct (decide (j < i)) as [Hlt|Hge].
  - exists j. rewrite list_lookup_delete_lt by exact Hlt. exact Hx.
  - exists (j - 1). rewrite list_lookup_delete_ge by lia.
    replace (S (j - 1)) with j by lia. exact Hx.
Qed.

Lemma placementOf_fields (c0 c : JigsawComponent.t) :
  placementOf c0 c ->
  c.(JigsawComponent.id) = c0.(JigsawComponent.id)
  /\ c.(JigsawComponent.edges) = c0.(JigsawComponent.edges)
  /\ c.(JigsawComponent.weight) = c0.(JigsawComponent.weight)
  /\ c.(JigsawComponent.shape) = c0.(JigsawComponent.shape).
Proof. intros [->|[pos ->]]; simpl; auto. Qed.

(** Once something is placed, the temporal edge of an unplaced component
    gives [findBestPosition] a candidate. *)
Lemma candidates_nonempty
    (raw : list JigsawComponent.t) (p : Picture.t)
    (r r' : ref) (c o : JigsawComponent.t) :
  Forall2 placementOf (engineerEdges raw) p.(Picture.components) ->
  engineerEdges raw !! r = Some c ->
  p.(Picture.components) !! r' = Some o ->
  r <> r' ->
  exists e,
    e ∈ c.(JigsawComponent.edges)
    /\ includes e.(ComponentEdge.compatibleWith) o.(JigsawComponent.id) = true.
Proof.
  intros HF Hc Ho Hne.
  apply engineerEdges_lookup_inv in Hc as (c0 & Hc0 & ->).
  destruct (Forall2_lookup_r _ _ _ _ _ HF Ho) as (o1 & Ho1 & Hpl).
  apply placementOf_fields in Hpl as (Hid & _).
  apply engineerEdges_lookup_inv in Ho1 as (o0 & Ho0 & ->). simpl in Hid.
  destruct (temporal_edge_of c0 raw r) as (e & He & _ & Hcw & _).
  exists e. split.
  - simpl. apply list_elem_of_lookup. eauto.
  - apply includes_true. rewrite Hcw, Hid.
    apply list_elem_of_In, in_map, list_elem_of_In.
    apply (elem_of_delete_ne _ _ r'); assumption.
Qed.

(** ** Every turn of the loop places the head of the queue *)

Lemma justified_later (p p' : Picture.t) (extra : list ref) (i : nat) (r : ref) :
  p'.(Picture.placedComponents) = p.(Picture.placedComponents) ++ extra ->
  (forall r', r' ∈ p.(Picture.placedComponents) ->
     p'.(Picture.components) !! r' = p.(Picture.components) !! r') ->
  p.(Picture.placedComponents) !! i = Some r ->
  justified p i r -> justified p' i r.
Proof.
  intros Hplaced Hsame Hi (c & pos & Hc & Hpos & Hlocked & Hwhere).
  assert (Hlt : i < length p.(Picture.placedComponents)).
  { apply lookup_lt_is_Some. eauto. }
  exists c, pos. split.
  { rewrite Hsame; [exact Hc|]. apply list_elem_of_lookup. eauto. }
  split; [exact Hpos|]. split; [exact Hlocked|].
  destruct i as [|i]; [exact Hwhere|].
  destruct Hwhere as (j & r' & c' & pos' & e & Hj & Hr' & Hc' & Hpos' & He & Hinc
                      & Hat & Hbest).
  exists j, r', c', pos', e. split; [exact Hj|].
  split. { rewrite Hplaced, lookup_app_l by lia. exact Hr'. }
  split. { rewrite Hsame; [exact Hc'|]. apply list_elem_of_lookup. eauto. }
  split; [exact Hpos'|]. split; [exact He|]. split; [exact Hinc|].
  split; [exact Hat|].
  intros j' r'' c'' e' Hj' Hr'' Hc'' He' Hinc'.
  rewrite Hplaced, lookup_app_l in Hr'' by lia.
  rewrite Hsame in Hc'' by (apply list_elem_of_lookup; eauto).
  exact (Hbest j' r'' c'' e' Hj' Hr'' Hc'' He' Hinc').
Qed.

Lemma Forall2_elem_of_r {A B} (R : A -> B -> Prop) (l : list A) (k : list B) (b : B) :
  Forall2 R l k -> b ∈ k -> exists i a, l !! i = Some a /\ k !! i = Some b /\ R a b.
Proof.
  intros HF Hb. apply list_elem_of_lookup in Hb as (i & Hi).
  destruct (Forall2_lookup_r _ _ _ _ _ HF Hi) as (a & Ha & HR).
  exists i, a. auto.
Qed.

Lemma assembleIteration_places
    (raw : list JigsawComponent.t) (p : Picture.t) (r : ref) (rest : list ref) :
  placing raw p ->
  p.(Picture.unplacedComponents) = r :: rest ->
  total (assembleIteration p)
        (fun p' => placing raw p'
                   /\ p'.(Picture.placedComponents)
                      = p.(Picture.placedComponents) ++ [r]
                   /\ p'.(Picture.unplacedComponents) = rest
                   /\ forall r', r' <> r ->
                        p'.(Picture.components) !! r' = p.(Picture.components) !! r').
Proof.
  intros (Hasm & Hqueue & Hjust) Hun.
  pose proof (assembling_NoDup _ _ Hasm) as Hnd.
  pose proof (assembling_length _ _ Hasm) as Hlen.
  assert (Hr : r < length p.(Picture.components)).
  { apply (assembling_in_range _ _ _ Hasm). rewrite Hun.
    apply elem_of_app. right. left. }
  destruct (lookup_lt_is_Some_2 _ _ Hr) as (c & Hc).
  pose proof Hasm as (HF & _ & Hpositioned & Hunplaced).
  assert (Hc0 : engineerEdges raw !! r = Some c).
  { rewrite <- Hunplaced; [exact Hc|]. rewrite Hun. left. }
  destruct (allPositioned_objects _ _ Hpositioned) as (objs & Hobjs).
  rewrite Hun in Hnd. apply NoDup_app in Hnd as (_ & Hdisj & _).
  assert (Hfresh : ~ r ∈ p.(Picture.placedComponents)).
  { intros Hin. apply (Hdisj _ Hin). left. }
  (* what the new picture satisfies, whatever the position is *)
  assert (Hnew : forall pos,
             justified
               (withArrays p (<[r := place c pos]> p.(Picture.components))
                           (p.(Picture.placedComponents) ++ [r]) rest)
               (length p.(Picture.placedComponents)) r ->
             placing raw
               (withArrays p (<[r := place c pos]> p.(Picture.components))
                           (p.(Picture.placedComponents) ++ [r]) rest)).
  { intros pos Hlast. split; [|split].
    - apply assembling_place; assumption.
    - simpl. rewrite <- app_assoc. simpl. rewrite <- Hun. exact Hqueue.
    - simpl. intros i r' Hi.
      destruct (decide (i < length p.(Picture.placedComponents))) as [Hlt|Hge].
      + rewrite lookup_app_l in Hi by exact Hlt.
        apply (justified_later p _ [r]); [reflexivity| |exact Hi|apply Hjust, Hi].
        simpl. intros r'' Hr''. apply list_lookup_insert_ne.
        intros ->. contradiction.
      + rewrite lookup_app_r in Hi by lia.
        apply list_lookup_singleton_Some in Hi as (Hi & <-).
        replace i with (length p.(Picture.placedComponents)) by lia.
        exact Hlast. }
  unfold assembleIteration. rewrite Hun.
  eapply total_bind; [apply getComponent_total, Hc|]. cbv beta. intros ? ->.
  eapply total_bind; [apply findBestPosition_spec, Hobjs|]. cbv beta. intros o ->.
  destruct (length p.(Picture.placedComponents)) as [|n] eqn:Hn; simpl Nat.eqb; cbv iota.
  - (* the first piece goes to the origin *)
    apply total_ret. split; [|split; [reflexivity|split; [reflexivity|]]].
    + apply Hnew. exists (place c origin), origin. simpl.
      rewrite list_lookup_insert_eq by exact Hr. auto.
    + simpl. intros r' Hne. apply list_lookup_insert_ne. congruence.
  - (* a later piece: the candidates are not empty *)
    assert (Hhead : exists r0, p.(Picture.placedComponents) !! 0 = Some r0).
    { apply lookup_lt_is_Some. lia. }
    destruct Hhead as (r0 & Hr0).
    destruct (Forall2_lookup_l _ _ _ _ _ Hobjs Hr0) as (o0 & Ho0 & Hco0 & pos0 & Hpos0).
    assert (Hne0 : r <> r0).
    { intros ->. apply Hfresh. apply list_elem_of_lookup. eauto. }
    destruct (candidates_nonempty raw p r r0 c o0 HF Hc0 Hco0 Hne0) as (e0 & He0 & Hinc0).
    destruct (sortDesc snd (candidates c objs)) as [|best sorted] eqn:Hsort.
    { exfalso.
      assert (Hin : (adjacentTo pos0 e0.(ComponentEdge.direction), score c e0)
                    ∈ sortDesc snd (candidates c objs)).
      { apply sortDesc_elem_of, elem_of_candidates. exists o0, pos0, e0.
        split; [apply list_elem_of_lookup; eauto|]. auto. }
      rewrite Hsort in Hin. inversion Hin. }
    apply total_ret. split; [|split; [reflexivity|split; [reflexivity|]]].
    + apply Hnew.
      assert (Hbest : best ∈ candidates c objs).
      { apply (sortDesc_elem_of snd). rewrite Hsort. left. }
      apply elem_of_candidates in Hbest
        as (o & pos & e & Ho & Hpos & He & Hinc & Hbest).
      destruct (Forall2_elem_of_r _ _ _ _ Hobjs Ho) as (j & r' & Hj & _ & Hr' & _).
      assert (Hjlt : j < S n).
      { rewrite <- Hn. apply lookup_lt_is_Some. eauto. }
      assert (Hne : r' <> r).
      { intros ->. apply Hfresh. apply list_elem_of_lookup. eauto. }
      exists (place c (fst best)), (fst best). simpl.
      rewrite list_lookup_insert_eq by exact Hr.
      split; [reflexivity|]. split; [reflexivity|]. split; [reflexivity|].
      exists j, r', o, pos, e. split; [exact Hjlt|].
      split. { rewrite lookup_app_l by lia. exact Hj. }
      split. { rewrite list_lookup_insert_ne by congruence. exact Hr'. }
      split; [exact Hpos|]. split; [exact He|]. split; [exact Hinc|].
      split. { rewrite Hbest. reflexivity. }
      intros j' r'' c'' e' Hj' Hr'' Hc'' He' Hinc'.
      rewrite lookup_app_l in Hr'' by lia.
      assert (Hne' : r'' <> r).
      { intros ->. apply Hfresh. apply list_elem_of_lookup. eauto. }
      rewrite list_lookup_insert_ne in Hc'' by congruence.
      destruct (Forall2_lookup_l _ _ _ _ _ Hobjs Hr'')
        as (o'' & Ho'' & Hco'' & pos'' & Hpos'').
      assert (Some o'' = Some c'') as [= ->].
      { transitivity (p.(Picture.components) !! r''); [symmetry; exact Hco''|exact Hc'']. }
      assert (Hin : (adjacentTo pos'' e'.(ComponentEdge.direction), score c e')
                    ∈ candidates c objs).
      { apply elem_of_candidates. exists c'', pos'', e'.
        split; [apply list_elem_of_lookup; eauto|]. auto. }
      pose proof (sortDesc_head snd _ _ _ Hsort _ Hin) as Hle.
      rewrite Hbest in Hle. exact Hle.
    + simpl. intros r' Hne. apply list_lookup_insert_ne. congruence.
Qed.

Lemma assembleLoop_places (raw : list JigsawComponent.t) (maxIterations : nat) :
  forall (fuel iterations : nat) (p : Picture.t),
    placing raw p ->
    iterations + length p.(Picture.unplacedComponents) <= maxIterations ->
    length p.(Picture.unplacedComponents) <= fuel ->
    total (assembleLoop fuel maxIterations iterations p)
          (fun out => placing raw (fst out)
                      /\ (fst out).(Picture.unplacedComponents) = []
                      /\ (fst out).(Picture.placedComponents)
                         = p.(Picture.placedComponents)
                           ++ p.(Picture.unplacedComponents)
                      /\ snd out = iterations + length p.(Picture.unplacedComponents)).
Proof.
  induction fuel as [|fuel IH]; intros iterations p Hinv Hle Hfuel; simpl.
  - destruct p.(Picture.unplacedComponents) as [|r rest] eqn:Hun; [|simpl in Hfuel; lia].
    simpl. apply total_ret. simpl. rewrite Hun, app_nil_r. auto with lia.
  - destruct p.(Picture.unplacedComponents) as [|r rest] eqn:Hun.
    + simpl. apply total_ret. simpl. rewrite Hun, app_nil_r. auto with lia.
    + simpl in Hle, Hfuel. simpl length.
      destruct (Nat.ltb_spec iterations maxIterations) as [_|Hge]; [|lia].
      replace (0 <? S (length rest)) with true by reflexivity. simpl andb. cbv iota.
      step_with (assembleIteration_places raw p r rest) as p' Hp';
        [exact Hinv|exact Hun|].
      destruct Hp' as (Hinv' & Hplaced' & Hun' & _).
      eapply total_weaken.
      * apply IH; [exact Hinv'|rewrite Hun'; lia|rewrite Hun'; lia].
      * cbv beta. intros out (Hout & Hnil & Hplaced & Hcount).
        split; [exact Hout|]. split; [exact Hnil|]. split.
        -- rewrite Hplaced, Hplaced', Hun', <- app_assoc. reflexivity.
        -- rewrite Hcount, Hun'. lia.
Qed.

Lemma weighted_refs (components : list JigsawComponent.t) (weighted : list (ref * Q)) :
  Forall2 (fun r x => exists c, components !! r = Some c
                                /\ x = (r, c.(JigsawComponent.weight)))
          (seq 0 (length components)) weighted ->
  weighted = imap (fun r c => (r, c.(JigsawComponent.weight))) components.
Proof.
  intros HF. apply list_eq. intros i.
  rewrite list_lookup_imap.
  destruct (components !! i) as [c|] eqn:Hc.
  - assert (Hi : seq 0 (length components) !! i = Some i).
    { apply lookup_seq. split; [reflexivity|]. apply lookup_lt_is_Some. eauto. }
    destruct (Forall2_lookup_l _ _ _ _ _ HF Hi) as (x & Hx & c' & Hc' & ->).
    assert (c' = c) as -> by congruence. exact Hx.
  - change (weighted !! i = None).
    apply lookup_ge_None. apply lookup_ge_None in Hc.
    pose proof (Forall2_length _ _ _ HF) as Hl. rewrite length_seq in Hl.
    unfold ref in *. lia.
Qed.

Lemma sortByWeight_spec (p : Picture.t) :
  total (sortByWeight p (seq 0 (length p.(Picture.components))))
        (fun sorted => sorted = queueOrder p.(Picture.components)).
Proof.
  unfold sortByWeight.
  step_with (total_mapM
               (fun r => (c <~ getComponent p r ;; ret (r, c.(JigsawComponent.weight)))%M)
               (fun r x => exists c, p.(Picture.components) !! r = Some c
                                     /\ x = (r, c.(JigsawComponent.weight))))
    as weighted Hweighted.
  - apply Forall_forall. intros r Hr.
    apply elem_of_seq in Hr as (_ & Hr). simpl in Hr.
    destruct (lookup_lt_is_Some_2 _ _ Hr) as (c & Hc).
    step_with (getComponent_total _ _ _ Hc) as c' Hc'. subst c'.
    apply total_ret. eauto.
  - apply total_ret. rewrite (weighted_refs _ _ Hweighted). reflexivity.
Qed.

Lemma placing_initial (raw : list JigsawComponent.t) (p : Picture.t) :
  p.(Picture.components) = engineerEdges raw ->
  p.(Picture.placedComponents) = [] ->
  p.(Picture.unplacedComponents) = queueOrder (engineerEdges raw) ->
  placing raw p.
Proof.
  intros Hc Hplaced Hun. split; [|split].
  - split; [|split; [|split]].
    + rewrite Hc. apply placementOf_refl.
    + rewrite Hplaced, Hun. simpl. apply queueOrder_perm.
    + rewrite Hplaced. intros r Hr. inversion Hr.
    + intros r _. rewrite Hc. reflexivity.
  - rewrite Hplaced, Hun. reflexivity.
  - rewrite Hplaced. intros i r Hi. rewrite lookup_nil in Hi. discriminate.
Qed.

Lemma queueOrder_length (components : list JigsawComponent.t) :
  length (queueOrder components) = length components.
Proof.
  rewrite (Permutation_length (queueOrder_perm components)). apply length_seq.
Qed.

(** The loop from a fresh picture: it ends with an empty queue after as
    many turns as there are components. *)
Lemma assembleRun_places (raw : list JigsawComponent.t) (p : Picture.t) :
  p.(Picture.components) = engineerEdges raw ->
  p.(Picture.placedComponents) = [] ->
  p.(Picture.unplacedComponents) = seq 0 (length (engineerEdges raw)) ->
  total (assembleRun p)
        (fun out => placing raw (fst out)
                    /\ (fst out).(Picture.unplacedComponents) = []
                    /\ (fst out).(Picture.placedComponents)
                       = queueOrder (engineerEdges raw)
                    /\ snd out = length raw).
Proof.
  intros Hc Hplaced Hun. unfold assembleRun.
  rewrite Hun, <- Hc.
  step_with (sortByWeight_spec p) as sorted Hsorted. subst sorted.
  rewrite length_seq.
  eapply total_weaken.
  - apply (assembleLoop_places raw).
    + apply placing_initial; simpl; [exact Hc|exact Hplaced|rewrite Hc; reflexivity].
    + simpl. rewrite queueOrder_length. lia.
    + simpl. rewrite queueOrder_length. lia.
  - cbv beta. simpl. intros out (Hout & Hnil & Hpl & Hcount).
    split; [exact Hout|]. split; [exact Hnil|].
    rewrite Hpl, Hcount, Hplaced, queueOrder_length, Hc, engineerEdges_length.
    auto.
Qed.

(** ** The stages after the loop, exactly *)

Lemma placing_ext (raw : list JigsawComponent.t) (p p' : Picture.t) :
  p'.(Picture.components) = p.(Picture.components) ->
  p'.(Picture.placedComponents) = p.(Picture.placedComponents) ->
  p'.(Picture.unplacedComponents) = p.(Picture.unplacedComponents) ->
  placing raw p -> placing raw p'.
Proof.
  unfold placing, assembling, allPositioned, justified.
  intros -> -> ->. exact (fun x => x).
Qed.

Lemma assemblePicture_places (raw : list JigsawComponent.t) (p : Picture.t) :
  p.(Picture.components) = engineerEdges raw ->
  p.(Picture.placedComponents) = [] ->
  p.(Picture.unplacedComponents) = seq 0 (length (engineerEdges raw)) ->
  total (assemblePicture p)
        (fun p' => placing raw p'
                   /\ p'.(Picture.unplacedComponents) = []
                   /\ p'.(Picture.placedComponents) = queueOrder (engineerEdges raw)
                   /\ p'.(Picture.completionPercentage)
                      = num_scale (div_lengths (length raw) (length raw)) 100).
Proof.
  intros Hc Hplaced Hun. unfold assemblePicture.
  step_with (assembleRun_places raw p Hc Hplaced Hun) as out Hout.
  destruct Hout as (Hinv & Hnil & Hpl & _).
  apply total_ret. simpl.
  split. { eapply placing_ext; [| | |exact Hinv]; reflexivity. }
  split; [exact Hnil|]. split; [exact Hpl|].
  rewrite Hpl, queueOrder_length, engineerEdges_length.
  destruct Hinv as (Hasm & _).
  rewrite (assembling_length _ _ Hasm), engineerEdges_length. reflexivity.
Qed.

Lemma placedWithPositions_unique (p : Picture.t) (l k : list JigsawComponent.t) :
  placedWithPositions p l -> placedWithPositions p k -> l = k.
Proof.
  unfold placedWithPositions. intros Hl. revert k.
  induction Hl as [|r c refs l [Hc _] _ IH]; intros k Hk; inversion Hk; subst.
  - reflexivity.
  - f_equal; [|apply IH; assumption].
    match goal with Hy : _ /\ _ |- _ => destruct Hy as [Hy _] end. congruence.
Qed.

Lemma placedObjects_spec (p : Picture.t) (placed : list JigsawComponent.t) :
  allPositioned p p.(Picture.placedComponents) ->
  placedWithPositions p placed ->
  total (placedObjects p) (fun l => l = placed).
Proof.
  intros Hall Hplaced.
  eapply total_weaken; [apply placedObjects_total, Hall|].
  cbv beta. intros l Hl. exact (placedWithPositions_unique _ _ _ Hl Hplaced).
Qed.

Lemma identifyGaps_spec (p : Picture.t) (placed : list JigsawComponent.t) :
  allPositioned p p.(Picture.placedComponents) ->
  placedWithPositions p placed ->
  total (identifyGaps p)
        (fun p' => sameAssembly p p'
                   /\ Forall2 gapFor (gapSites placed) p'.(Picture.gaps)).
Proof.
  intros Hall Hplaced.
  eapply total_weaken; [apply identifyGaps_total, Hall|].
  cbv beta. intros p' (Hsame & placed' & Hplaced' & Hgaps).
  split; [exact Hsame|].
  rewrite (placedWithPositions_unique p' placed placed'); [exact Hgaps| |exact Hplaced'].
  eapply sameAssembly_placed; eassumption.
Qed.

Lemma drawConclusions_spec (p : Picture.t) (placed : list JigsawComponent.t) :
  allPositioned p p.(Picture.placedComponents) ->
  placedWithPositions p placed ->
  total (drawConclusions p)
        (fun p' => sameAssembly p p'
                   /\ p'.(Picture.gaps) = p.(Picture.gaps)
                   /\ map kind p'.(Picture.conclusions)
                      = conclusionKinds p.(Picture.completionPercentage)
                                        (length p.(Picture.gaps))
                                        (weighing 80 placed)).
Proof.
  intros Hall Hplaced. unfold drawConclusions.
  step_with (placedObjects_spec p placed Hall Hplaced) as placed' Heq. subst placed'.
  eapply (total_bind _ _
            (fun c1 => map kind c1
                       = if num_geb p.(Picture.completionPercentage) 90
                         then [(certainty, true, false)] else [])).
  { destruct (num_geb _ 90); [step_any|]; apply total_ret; reflexivity. }
  intros c1 Hc1.
  eapply (total_bind _ _
            (fun c2 => map kind c2
                       = if 0 <? length p.(Picture.gaps)
                         then [(recommendation, false, false)] else [])).
  { destruct (0 <? _); [step_any|]; apply total_ret; reflexivity. }
  intros c2 Hc2.
  eapply (total_bind _ _
            (fun c3 => map kind c3
                       = if 3 <=? weighing 80 placed
                         then [(finding, true, false)] else [])).
  { unfold weighing. destruct (3 <=? _); [step_any|]; apply total_ret; reflexivity. }
  intros c3 Hc3.
  apply total_ret. split; [repeat split|]. split; [reflexivity|].
  simpl. rewrite !map_app, Hc1, Hc2, Hc3. reflexivity.
Qed.

Lemma assessCourtReadiness_spec (p : Picture.t) (placed : list JigsawComponent.t) :
  allPositioned p p.(Picture.placedComponents) ->
  placedWithPositions p placed ->
  total (assessCourtReadiness p)
        (fun p' => sameAssembly p p'
                   /\ p'.(Picture.gaps) = p.(Picture.gaps)
                   /\ p'.(Picture.conclusions) = p.(Picture.conclusions)
                   /\ p'.(Picture.courtReady)
                      = (num_geb p.(Picture.completionPercentage) 80
                         && (1 <=? length (List.filter Conclusion.courtReady
                                                       p.(Picture.conclusions)))
                         && (3 <=? weighing 70 placed))
                   /\ p'.(Picture.humanReviewRequired)
                      = (existsb (fun c => bool_decide (c.(Conclusion.type) = certainty))
                                 p.(Picture.conclusions)
                         || num_geb p.(Picture.completionPercentage) 95)).
Proof.
  intros Hall Hplaced. unfold assessCourtReadiness.
  step_with (placedObjects_spec p placed Hall Hplaced) as placed' Heq. subst placed'.
  step_any. apply total_ret. repeat split.
Qed.

Lemma calculateCourtReadiness_spec (p : Picture.t) (placed : list JigsawComponent.t) :
  allPositioned p p.(Picture.placedComponents) ->
  placedWithPositions p placed ->
  total (calculateCourtReadiness p) (fun score => score = readinessScore p placed).
Proof.
  intros Hall Hplaced. unfold calculateCourtReadiness.
  step_with (placedObjects_spec p placed Hall Hplaced) as placed' Heq. subst placed'.
  apply total_ret. reflexivity.
Qed.

Lemma processFragments_finished
    (this : JigsawProtocolEngine.t) (fragments : list TruthFragment.t)
    (caseId : string) (caseType : CaseType) (caseTitle : string) :
  total (processFragments this fragments caseId caseType caseTitle)
        (finished fragments).
Proof.
  unfold processFragments. step_any.
  step_with (compressFragments_total this (filterVerifiedFragments fragments))
    as raw Hraw.
  step_with (initializePicture_total caseId caseType caseTitle (engineerEdges raw))
    as p0 Hp0.
  destruct Hp0 as (Hcomps & Hplaced0 & Hunplaced0).
  step_with (assemblePicture_places raw p0 Hcomps Hplaced0 Hunplaced0) as p1 Hp1.
  destruct Hp1 as (Hinv1 & Hnil1 & Hpl1 & Hcompletion1).
  assert (Hall1 : allPositioned p1 p1.(Picture.placedComponents)) by apply Hinv1.
  destruct (allPositioned_objects _ _ Hall1) as (placed & Hplaced1).
  step_with (identifyGaps_spec p1 placed Hall1 Hplaced1) as p2 Hp2.
  destruct Hp2 as (Hsame2 & Hgaps2).
  pose proof (sameAssembly_positioned _ _ Hsame2 Hall1) as Hall2.
  pose proof (sameAssembly_placed _ _ _ Hsame2 Hplaced1) as Hplaced2.
  step_with (drawConclusions_spec p2 placed Hall2 Hplaced2) as p3 Hp3.
  destruct Hp3 as (Hsame3 & Hgaps3 & Hkinds3).
  pose proof (sameAssembly_positioned _ _ Hsame3 Hall2) as Hall3.
  pose proof (sameAssembly_placed _ _ _ Hsame3 Hplaced2) as Hplaced3.
  step_with (assessCourtReadiness_spec p3 placed Hall3 Hplaced3) as p4 Hp4.
  destruct Hp4 as (Hsame4 & Hgaps4 & Hconcl4 & Hready4 & Hreview4).
  pose proof (sameAssembly_positioned _ _ Hsame4 Hall3) as Hall4.
  pose proof (sameAssembly_placed _ _ _ Hsame4 Hplaced3) as Hplaced4.
  step_any.
  step_with (calculateCourtReadiness_spec p4 placed Hall4 Hplaced4) as score Hscore.
  apply total_ret. unfold finished. simpl.
  pose proof (sameAssembly_trans _ _ _ Hsame2
                (sameAssembly_trans _ _ _ Hsame3 Hsame4)) as (E1 & E2 & E3 & E4).
  destruct Hsame3 as (_ & _ & _ & E43). destruct Hsame4 as (_ & _ & _ & E44).
  exists raw, placed.
  split; [exact Hraw|].
  split. { eapply placing_ext; [exact E1|exact E2|exact E3|exact Hinv1]. }
  split. { rewrite E3. exact Hnil1. }
  split. { rewrite E2. exact Hpl1. }
  split; [exact Hplaced4|].
  split. { rewrite E4. exact Hcompletion1. }
  split. { rewrite Hgaps4, Hgaps3. exact Hgaps2. }
  split. { rewrite Hconcl4, Hkinds3, Hgaps4, Hgaps3, E44, E43. reflexivity. }
  split. { rewrite Hready4, Hconcl4, E44. reflexivity. }
  split. { rewrite Hreview4, Hconcl4, E44. reflexivity. }
  split; [exact Hscore|].
  repeat (split; [reflexivity|]). reflexivity.
Qed.

Lemma total_run {A} (m : M A) (post : A -> Prop) (w w' : World) (a : A) :
  total m post -> m w = Ok (a, w') -> post a.
Proof.
  intros Hm Hrun. destruct (Hm w) as (a' & w'' & Hrun' & Ha').
  rewrite Hrun in Hrun'. inversion Hrun'; subst. exact Ha'.
Qed.

(** ** The placed components are all the components *)

Lemma Forall2_perm_l {A B} (R : A -> B -> Prop) (l l' : list A) (k : list B) :
  l ≡ₚ l' -> Forall2 R l k -> exists k', k ≡ₚ k' /\ Forall2 R l' k'.
Proof.
  intros Hperm. revert k.
  induction Hperm as [|a l l' _ IH|a b l|l l' l'' _ IH1 _ IH2]; intros k HF.
  - inversion HF; subst. exists []. split; [reflexivity|constructor].
  - inversion HF as [|? c ? k0 Hac HF0]; subst.
    destruct (IH _ HF0) as (k' & Hk' & HF').
    exists (c :: k'). split; [rewrite Hk'; reflexivity|constructor; assumption].
  - inversion HF as [|? c ? k0 Hac HF0]; subst.
    inversion HF0 as [|? d ? k1 Hbd HF1]; subst.
    exists (d :: c :: k1). split; [apply perm_swap|repeat constructor; assumption].
  - destruct (IH1 _ HF) as (k' & Hk' & HF').
    destruct (IH2 _ HF') as (k'' & Hk'' & HF'').
    exists k''. split; [etransitivity; eassumption|exact HF''].
Qed.

Lemma lookups_in_order {A} (l k : list A) :
  Forall2 (fun r c => l !! r = Some c) (seq 0 (length l)) k -> k = l.
Proof.
  intros HF. apply list_eq. intros i.
  destruct (l !! i) as [c|] eqn:Hc.
  - assert (Hi : seq 0 (length l) !! i = Some i).
    { apply lookup_seq. split; [reflexivity|]. apply lookup_lt_is_Some. eauto. }
    destruct (Forall2_lookup_l _ _ _ _ _ HF Hi) as (x & Hx & Hlx).
    rewrite Hx. congruence.
  - apply lookup_ge_None. apply lookup_ge_None in Hc.
    pose proof (Forall2_length _ _ _ HF) as Hl. rewrite length_seq in Hl. lia.
Qed.

Lemma placed_all (raw : list JigsawComponent.t) (p : Picture.t)
    (placed : list JigsawComponent.t) :
  placing raw p ->
  p.(Picture.unplacedComponents) = [] ->
  placedWithPositions p placed ->
  placed ≡ₚ p.(Picture.components).
Proof.
  intros (Hasm & _) Hnil Hplaced.
  pose proof (assembling_length _ _ Hasm) as Hlen.
  destruct Hasm as (_ & Hperm & _). rewrite Hnil, app_nil_r, <- Hlen in Hperm.
  assert (HF : Forall2 (fun r c => p.(Picture.components) !! r = Some c)
                       p.(Picture.placedComponents) placed).
  { eapply Forall2_impl; [exact Hplaced|]. cbv beta. tauto. }
  destruct (Forall2_perm_l _ _ _ _ Hperm HF) as (k' & Hk' & HF').
  rewrite Hk'. rewrite (lookups_in_order _ _ HF'). reflexivity.
Qed.

Lemma filter_length_perm {A} (f : A -> bool) (l l' : list A) :
  l ≡ₚ l' -> length (List.filter f l) = length (List.filter f l').
Proof.
  induction 1 as [|a l l' _ IH|a b l|l l' l'' _ IH1 _ IH2]; simpl.
  - reflexivity.
  - destruct (f a); simpl; rewrite IH; reflexivity.
  - destruct (f a), (f b); reflexivity.
  - congruence.
Qed.

Lemma weighing_perm (threshold : Q) (l l' : list JigsawComponent.t) :
  l ≡ₚ l' -> weighing threshold l = weighing threshold l'.
Proof. apply filter_length_perm. Qed.

Lemma weighing_Forall2 {A} (threshold : Q) (weightOf : A -> Q)
    (l : list A) (k : list JigsawComponent.t) :
  Forall2 (fun a c => c.(JigsawComponent.weight) = weightOf a) l k ->
  weighing threshold k
  = length (List.filter (fun a => Qle_bool threshold (weightOf a)) l).
Proof.
  unfold weighing. induction 1 as [|a c l k Hac _ IH]; simpl; [reflexivity|].
  rewrite Hac. destruct (Qle_bool _ _); simpl; rewrite IH; reflexivity.
Qed.

(** The weights of the final components are those of the gated fragments. *)
Lemma final_weights
    (gated : list TruthFragment.t) (raw : list JigsawComponent.t) (p : Picture.t) :
  Forall2 compressedFrom gated raw ->
  placing raw p ->
  Forall2 (fun f c => c.(JigsawComponent.weight) = calculateWeight f
                      /\ c.(JigsawComponent.shape) = generateShape f
                      /\ c.(JigsawComponent.fragmentId) = f.(TruthFragment.id))
          gated p.(Picture.components).
Proof.
  intros Hraw ((HF & _) & _).
  apply engineerEdges_from_fragments in Hraw.
  pose proof (Forall2_compose _ _ _ _ _ Hraw HF) as Hboth.
  eapply Forall2_impl; [exact Hboth|]. cbv beta.
  intros f c (c0 & (Hid & Hshape & Hweight & _) & Hpl).
  pose proof (placementOf_fragmentId _ _ Hpl) as Hfid.
  apply placementOf_fields in Hpl as (_ & _ & Hw & Hs).
  rewrite Hw, Hs, Hfid. auto.
Qed.

Lemma weighing_final
    (threshold : Q) (gated : list TruthFragment.t) (raw : list JigsawComponent.t)
    (p : Picture.t) (placed : list JigsawComponent.t) :
  Forall2 compressedFrom gated raw ->
  placing raw p ->
  p.(Picture.unplacedComponents) = [] ->
  placedWithPositions p placed ->
  weighing threshold placed
  = length (List.filter (fun f => Qle_bool threshold (calculateWeight f)) gated).
Proof.
  intros Hraw Hinv Hnil Hplaced.
  rewrite (weighing_perm _ _ _ (placed_all _ _ _ Hinv Hnil Hplaced)).
  apply weighing_Forall2.
  eapply Forall2_impl; [apply (final_weights _ _ _ Hraw Hinv)|]. cbv beta. tauto.
Qed.

Lemma completion_of_all (n : nat) :
  n <> 0 ->
  exists q, num_scale (div_lengths n n) 100 = Fin q /\ (q == 100)%Q.
Proof.
  intros Hn. destruct n as [|n]; [congruence|].
  unfold div_lengths, num_scale.
  eexists. split; [reflexivity|].
  field. unfold Qeq. simpl. lia.
Qed.

(** ** What the assembly always ends in *)

Lemma queueOrder_weights (l l' : list JigsawComponent.t) :
  Forall2 (fun c c' => c'.(JigsawComponent.weight) = c.(JigsawComponent.weight)) l l' ->
  queueOrder l' = queueOrder l.
Proof.
  intros HF. unfold queueOrder. do 2 f_equal.
  apply list_eq. intros i. rewrite !list_lookup_imap.
  destruct (l !! i) as [c|] eqn:Hc.
  - destruct (Forall2_lookup_l _ _ _ _ _ HF Hc) as (c' & Hc' & Hw).
    rewrite Hc'. simpl. rewrite Hw. reflexivity.
  - apply lookup_ge_None in Hc. rewrite (Forall2_length _ _ _ HF) in Hc.
    apply lookup_ge_None in Hc. rewrite Hc. reflexivity.
Qed.

Lemma placing_queueOrder (raw : list JigsawComponent.t) (p : Picture.t) :
  placing raw p ->
  queueOrder p.(Picture.components) = queueOrder (engineerEdges raw).
Proof.
  intros ((HF & _) & _). apply queueOrder_weights.
  eapply Forall2_impl; [exact HF|]. cbv beta.
  intros c c' Hpl. apply placementOf_fields in Hpl. tauto.
Qed.

Lemma finished_all_placed
    (fragments : list TruthFragment.t) (result : JigsawResult.t) :
  finished fragments result ->
  let p := result.(JigsawResult.picture) in
  p.(Picture.unplacedComponents) = []
  /\ p.(Picture.placedComponents) ≡ₚ seq 0 (length p.(Picture.components))
  /\ (forall c, c ∈ p.(Picture.components) ->
        is_Some c.(JigsawComponent.position)
        /\ c.(JigsawComponent.locked) = true)
  /\ result.(JigsawResult.componentsPlaced)
     = result.(JigsawResult.componentsCreated)
  /\ result.(JigsawResult.componentsCreated)
     = length (filterVerifiedFragments fragments)
  /\ (filterVerifiedFragments fragments <> [] ->
      exists q, p.(Picture.completionPercentage) = Fin q /\ (q == 100)%Q).
Proof.
  intros (raw & placed & Hraw & Hinv & Hnil & Hpl & Hplaced
                           & Hcompletion & _ & _ & _ & _ & _ & _ & _ & _
                           & Hcreated & Hcount & _).
  cbv zeta.
  pose proof Hinv as (Hasm & _).
  pose proof (assembling_length _ _ Hasm) as Hlen.
  pose proof Hasm as (_ & Hperm & Hall & _).
  rewrite Hnil, app_nil_r in Hperm.
  pose proof (Forall2_length _ _ _ Hraw) as Hgated.
  split; [exact Hnil|]. split; [rewrite Hlen; exact Hperm|].
  split.
  { intros c Hc. apply list_elem_of_lookup in Hc as (r & Hr).
    destruct (Hall r) as (c' & Hc' & Hpos & Hlocked).
    - rewrite Hperm. apply elem_of_seq. apply lookup_lt_Some in Hr. lia.
    - assert (Some c' = Some c) as [= ->]; [|auto].
      etransitivity; [symmetry; exact Hc'|exact Hr]. }
  split. { rewrite Hcount, Hcreated, Hpl, queueOrder_length, engineerEdges_length.
           reflexivity. }
  split. { rewrite Hcreated. symmetry. exact Hgated. }
  intros Hne. rewrite Hcompletion. apply completion_of_all.
  rewrite <- Hgated. destruct (filterVerifiedFragments fragments); [congruence|].
  discriminate.
Qed.

(** X4: the assembly loop of [processFragments] leaves nothing unplaced.
    Whatever the fragments are, the queue of unplaced components is empty
    at the end, every component has a position and is locked, the number of
    placed components is the number of components created, which is the
    number of fragments that pass the gate, and the completion percentage is
    100 unless no fragment passes the gate. *)
Theorem every_component_is_placed
    (this : JigsawProtocolEngine.t) (fragments : list TruthFragment.t)
    (caseId : string) (caseType : CaseType) (caseTitle : string) :
  total (processFragments this fragments caseId caseType caseTitle)
        (fun result =>
           let p := result.(JigsawResult.picture) in
           p.(Picture.unplacedComponents) = []
           /\ p.(Picture.placedComponents) ≡ₚ seq 0 (length p.(Picture.components))
           /\ (forall c, c ∈ p.(Picture.components) ->
                 is_Some c.(JigsawComponent.position)
                 /\ c.(JigsawComponent.locked) = true)
           /\ result.(JigsawResult.componentsPlaced)
              = result.(JigsawResult.componentsCreated)
           /\ result.(JigsawResult.componentsCreated)
              = length (filterVerifiedFragments fragments)
           /\ (filterVerifiedFragments fragments <> [] ->
               exists q, p.(Picture.completionPercentage) = Fin q /\ (q == 100)%Q)).
Proof.
  eapply total_weaken; [apply processFragments_finished|].
  cbv beta. intros result Hfinished.
  exact (finished_all_placed fragments result Hfinished).
Qed.

(** X5: the components are placed heaviest first.  The order of
    [placedComponents] in the result is the order of the sorted queue: a
    component comes before every component of smaller weight, and before
    those of the same weight that follow it in [components]. *)
Theorem placed_heaviest_first
    (this : JigsawProtocolEngine.t) (fragments : list TruthFragment.t)
    (caseId : string) (caseType : CaseType) (caseTitle : string) :
  total (processFragments this fragments caseId caseType caseTitle)
        (fun result =>
           let p := result.(JigsawResult.picture) in
           p.(Picture.placedComponents) = queueOrder p.(Picture.components)
           /\ StronglySorted (queuedBefore p.(Picture.components))
                             p.(Picture.placedComponents)).
Proof.
  eapply total_weaken; [apply processFragments_finished|].
  cbv beta. intros result (raw & placed & _ & Hinv & _ & Hpl & _). cbv zeta.
  assert (Heq : (JigsawResult.picture result).(Picture.placedComponents)
                = queueOrder (JigsawResult.picture result).(Picture.components)).
  { rewrite (placing_queueOrder _ _ Hinv). exact Hpl. }
  split; [exact Heq|]. rewrite Heq. apply queueOrder_sorted.
Qed.


(** ** Gaps *)

Lemma NoDup_map_lookup {A B} (f : A -> B) (l : list A) (i j : nat) (x y : A) :
  NoDup (map f l) -> l !! i = Some x -> l !! j = Some y -> f x = f y -> i = j.
Proof.
  revert i j. induction l as [|a l IH]; intros i j Hnd Hi Hj Hf.
  - rewrite lookup_nil in Hi. discriminate.
  - simpl in Hnd. apply NoDup_cons in Hnd as (Ha & Hnd).
    destruct i as [|i], j as [|j]; simpl in Hi, Hj.
    + reflexivity.
    + exfalso. apply Ha. injection Hi as ->. rewrite Hf.
      apply list_elem_of_In, in_map, list_elem_of_In, list_elem_of_lookup. eauto.
    + exfalso. apply Ha. injection Hj as ->. rewrite <- Hf.
      apply list_elem_of_In, in_map, list_elem_of_In, list_elem_of_lookup. eauto.
    + f_equal. eapply IH; eassumption.
Qed.

Lemma elem_of_delete_lookup {A} (l : list A) (i : nat) (x : A) :
  x ∈ delete i l -> exists j, j <> i /\ l !! j = Some x.
Proof.
  intros Hx. apply list_elem_of_lookup in Hx as (j & Hj).
  rewrite list_lookup_delete in Hj.
  destruct (decide (j < i)); [exists j|exists (S j)]; split; auto with lia.
Qed.

(** The ids that an engineered edge lists are ids of other components. *)
Lemma compatibleWith_others
    (raw : list JigsawComponent.t) (i : nat) (c : JigsawComponent.t)
    (e : ComponentEdge.t) (s : string) :
  e ∈ calculateEdges c raw i ->
  s ∈ e.(ComponentEdge.compatibleWith) ->
  exists j x, j <> i /\ raw !! j = Some x /\ x.(JigsawComponent.id) = s.
Proof.
  intros He Hs. unfold calculateEdges in He.
  apply list_elem_of_In, in_map_iff in He as (d & <- & _).
  rewrite findCompatibleComponents_eq in Hs. simpl in Hs.
  apply list_elem_of_In, in_map_iff in Hs as (x & <- & Hx).
  apply filter_In in Hx as (Hx & _).
  apply list_elem_of_In, elem_of_delete_lookup in Hx as (j & Hj & Hx).
  exists j, x. auto.
Qed.

Lemma flat_map_nil {A B} (f : A -> list B) (l : list A) :
  (forall a, a ∈ l -> f a = []) -> flat_map f l = [].
Proof.
  induction l as [|a l IH]; intros Hf; simpl; [reflexivity|].
  rewrite Hf by left. apply IH. intros a' Ha'. apply Hf. right. exact Ha'.
Qed.

Lemma filter_nil {A} (f : A -> bool) (l : list A) :
  (forall a, a ∈ l -> f a = false) -> List.filter f l = [].
Proof.
  induction l as [|a l IH]; intros Hf; simpl; [reflexivity|].
  rewrite Hf by left. apply IH. intros a' Ha'. apply Hf. right. exact Ha'.
Qed.

Lemma gapSites_nil
    (raw : list JigsawComponent.t) (p : Picture.t) (placed : list JigsawComponent.t) :
  placing raw p ->
  p.(Picture.unplacedComponents) = [] ->
  placedWithPositions p placed ->
  NoDup (map JigsawComponent.id p.(Picture.components)) ->
  gapSites placed = [].
Proof.
  intros Hinv Hnil Hplaced Hnd.
  pose proof (placed_all _ _ _ Hinv Hnil Hplaced) as Hperm.
  destruct Hinv as ((HF & _) & _).
  unfold gapSites. apply flat_map_nil. intros component Hcomponent.
  rewrite filter_nil; [reflexivity|]. intros e He.
  apply emitsGap_false. intros Hne.
  rewrite Hperm in Hcomponent.
  apply list_elem_of_lookup in Hcomponent as (i & Hi).
  destruct (Forall2_lookup_r _ _ _ _ _ HF Hi) as (c1 & Hc1 & Hpl).
  apply placementOf_fields in Hpl as (Hid & Hedges & _).
  apply engineerEdges_lookup_inv in Hc1 as (c0 & Hc0 & ->).
  rewrite Hedges in He. simpl in He, Hid.
  destruct e.(ComponentEdge.compatibleWith) as [|s rest] eqn:Hcw; [congruence|].
  destruct (compatibleWith_others raw i c0 e s He) as (j & x & Hj & Hx & Hs).
  { rewrite Hcw. left. }
  destruct (Forall2_lookup_l _ _ _ _ _ HF (engineerEdges_lookup _ _ _ Hx))
    as (other & Hother & Hpl').
  apply placementOf_fields in Hpl' as (Hid' & _). simpl in Hid'.
  exists other. split; [|split].
  - rewrite Hperm. apply list_elem_of_lookup. eauto.
  - intros Heq. apply Hj.
    exact (NoDup_map_lookup JigsawComponent.id _ _ _ _ _ Hnd Hother Hi Heq).
  - rewrite Hid', Hs. left.
Qed.

(** X7: when the components have distinct ids (they are [JC-] followed by
    a fresh UUID), [identifyGaps] finds no gap: every edge that lists a
    compatible id lists the id of another component, and all components are
    placed.  So [gapsIdentified] is 0 and no conclusion of type
    [recommendation] is drawn. *)
Theorem distinct_ids_leave_no_gaps
    (this : JigsawProtocolEngine.t) (fragments : list TruthFragment.t)
    (caseId : string) (caseType : CaseType) (caseTitle : string)
    (w w' : World) (result : JigsawResult.t) :
  processFragments this fragments caseId caseType caseTitle w = Ok (result, w') ->
  NoDup (map JigsawComponent.id result.(JigsawResult.picture).(Picture.components)) ->
  result.(JigsawResult.picture).(Picture.gaps) = []
  /\ result.(JigsawResult.gapsIdentified) = 0
  /\ forall c, c ∈ result.(JigsawResult.picture).(Picture.conclusions) ->
       c.(Conclusion.type) <> recommendation.
Proof.
  intros Hrun Hnd.
  destruct (total_run _ _ _ _ _ (processFragments_finished _ _ _ _ _) Hrun)
    as (raw & placed & _ & Hinv & Hnil & _ & Hplaced & _ & Hgaps & Hkinds
        & _ & _ & _ & _ & _ & _ & _ & _ & Hcount & _).
  rewrite (gapSites_nil _ _ _ Hinv Hnil Hplaced Hnd) in Hgaps.
  apply Forall2_nil_inv_l in Hgaps. rename Hgaps into Hg'.
  split; [exact Hg'|]. split; [rewrite Hcount, Hg'; reflexivity|].
  intros c Hc Htype.
  assert (Hin : In (kind c) (map kind result.(JigsawResult.picture).(Picture.conclusions))).
  { apply in_map, list_elem_of_In, Hc. }
  rewrite Hkinds, Hg' in Hin. unfold conclusionKinds, kind in Hin.
  rewrite Htype in Hin.
  apply in_app_or in Hin as [Hin|Hin]; [|apply in_app_or in Hin as [Hin|Hin]].
  - destruct (num_geb _ 90); [destruct Hin as [Hin|[]]; discriminate|destruct Hin].
  - destruct Hin.
  - destruct (3 <=? _); [destruct Hin as [Hin|[]]; discriminate|destruct Hin].
Qed.

(** ** Conclusions and readiness *)

Lemma num_geb_100 (q k : Q) : (q == 100)%Q -> (k <= 100)%Q -> num_geb (Fin q) k = true.
Proof.
  intros Hq Hk. simpl. apply Qle_bool_iff. rewrite Hq. exact Hk.
Qed.

Lemma courtReady_kinds (conclusions : list Conclusion.t) :
  length (List.filter Conclusion.courtReady conclusions)
  = length (List.filter (fun k => snd (fst k)) (map kind conclusions)).
Proof.
  induction conclusions as [|c l IH]; simpl; [reflexivity|].
  destruct (Conclusion.courtReady c); simpl; rewrite IH; reflexivity.
Qed.

Lemma certainty_kinds (conclusions : list Conclusion.t) :
  existsb (fun c => bool_decide (c.(Conclusion.type) = certainty)) conclusions
  = existsb (fun k => bool_decide (fst (fst k) = certainty)) (map kind conclusions).
Proof.
  induction conclusions as [|c l IH]; simpl; [reflexivity|].
  rewrite IH. reflexivity.
Qed.

Lemma weighing_le (threshold : Q) (placed : list JigsawComponent.t) :
  weighing threshold placed <= length placed.
Proof.
  unfold weighing. induction placed as [|c l IH]; simpl; [lia|].
  destruct (Qle_bool _ _); simpl; lia.
Qed.

(** The two cases of a finished run: nothing passed the gate, or the
    picture is complete. *)
Lemma finished_cases
    (gated : list TruthFragment.t) (raw placed : list JigsawComponent.t)
    (p : Picture.t) :
  Forall2 compressedFrom gated raw ->
  placedWithPositions p placed ->
  p.(Picture.placedComponents) = queueOrder (engineerEdges raw) ->
  p.(Picture.completionPercentage)
  = num_scale (div_lengths (length raw) (length raw)) 100 ->
  (gated = [] /\ placed = [] /\ p.(Picture.completionPercentage) = NaN)
  \/ (gated <> [] /\ length placed = length gated
      /\ exists q, p.(Picture.completionPercentage) = Fin q /\ (q == 100)%Q).
Proof.
  intros Hraw Hplaced Hpl Hcompletion.
  pose proof (Forall2_length _ _ _ Hraw) as Hlen.
  pose proof (Forall2_length _ _ _ Hplaced) as Hlen'.
  rewrite Hpl, queueOrder_length, engineerEdges_length in Hlen'.
  destruct gated as [|f gated].
  - left. simpl in Hlen. rewrite <- Hlen in Hlen', Hcompletion.
    split; [reflexivity|]. split; [|exact Hcompletion].
    destruct placed; [reflexivity|discriminate].
  - right. split; [discriminate|]. split; [congruence|].
    rewrite Hcompletion. apply completion_of_all. rewrite <- Hlen. discriminate.
Qed.



Lemma finished_flags
    (fragments : list TruthFragment.t) (result : JigsawResult.t) :
  finished fragments result ->
  let p := result.(JigsawResult.picture) in
  let gated := filterVerifiedFragments fragments in
  let solid :=
    List.filter (fun f => Qle_bool 70 (calculateWeight f)) gated in
  p.(Picture.courtReady) = (3 <=? length solid)
  /\ p.(Picture.humanReviewRequired) = (0 <? length gated)
  /\ result.(JigsawResult.humanReviewRequired) = (0 <? length gated).
Proof.
  intros (raw & placed & Hraw & Hinv & Hnil & Hpl & Hplaced
                           & Hcompletion & Hgaps & Hkinds & Hready & Hreview
                           & _ & Hflag & _).
  cbv zeta. rewrite Hflag, Hready, Hreview, courtReady_kinds, certainty_kinds, Hkinds.
  rewrite (weighing_final 70 _ _ _ _ Hraw Hinv Hnil Hplaced).
  unfold conclusionKinds.
  destruct (finished_cases _ _ _ _ Hraw Hplaced Hpl Hcompletion)
    as [(Hgated & Hempty & ->)|(Hgated & _ & q & -> & Hq)].
  - subst placed. simpl in Hgaps. apply Forall2_nil_inv_l in Hgaps.
    rewrite Hgaps, Hgated. simpl. auto.
  - rewrite (num_geb_100 q 90 Hq), (num_geb_100 q 80 Hq), (num_geb_100 q 95 Hq)
      by (unfold Qle; simpl; lia).
    assert (Hpos : (0 <? length (filterVerifiedFragments fragments)) = true).
    { destruct (filterVerifiedFragments fragments); [congruence|reflexivity]. }
    rewrite Hpos. simpl. auto.
Qed.


Lemma ratio_bounds (a n : nat) :
  a <= n ->
  (0 <= inject_Z (Z.of_nat a) / inject_Z (Z.of_nat (Nat.max 1 n)))%Q
  /\ (inject_Z (Z.of_nat a) / inject_Z (Z.of_nat (Nat.max 1 n)) <= 1)%Q.
Proof.
  intros Hle.
  assert (Hpos : (0 < inject_Z (Z.of_nat (Nat.max 1 n)))%Q).
  { rewrite <- (Zlt_Qlt 0). lia. }
  split.
  - apply Qle_shift_div_l; [exact Hpos|]. rewrite Qmult_0_l.
    rewrite <- (Zle_Qle 0). lia.
  - apply Qle_shift_div_r; [exact Hpos|]. rewrite Qmult_1_l.
    rewrite <- Zle_Qle. lia.
Qed.

Lemma ratio_half (a n : nat) :
  1 <= a -> n <= 2 * a ->
  ((1 # 2) <= inject_Z (Z.of_nat a) / inject_Z (Z.of_nat (Nat.max 1 n)))%Q.
Proof.
  intros Ha Hle.
  assert (Hpos : (0 < inject_Z (Z.of_nat (Nat.max 1 n)))%Q).
  { rewrite <- (Zlt_Qlt 0). lia. }
  apply Qle_shift_div_l; [exact Hpos|].
  unfold Qle, Qmult, inject_Z. cbn [Qnum Qden]. lia.
Qed.

Lemma ratio_one (n : nat) :
  1 <= n ->
  (inject_Z (Z.of_nat n) / inject_Z (Z.of_nat (Nat.max 1 n)) == 1)%Q.
Proof.
  intros Hle. replace (Nat.max 1 n) with n by lia.
  field. unfold Qeq. simpl. lia.
Qed.

(** X10: the court readiness score of the result.  It is not a number
    when no fragment passes the gate (0 / 0 components placed); otherwise
    it lies between 55 and 100, and is at least 80 when no gap was found. *)
Theorem courtReadiness_range
    (this : JigsawProtocolEngine.t) (fragments : list TruthFragment.t)
    (caseId : string) (caseType : CaseType) (caseTitle : string) :
  total (processFragments this fragments caseId caseType caseTitle)
        (fun result =>
           (filterVerifiedFragments fragments = [] ->
            result.(JigsawResult.courtReadiness) = NaN)
           /\ (filterVerifiedFragments fragments <> [] ->
               exists q,
                 result.(JigsawResult.courtReadiness) = Fin q
                 /\ (55 <= q)%Q /\ (q <= 100)%Q
                 /\ (result.(JigsawResult.picture).(Picture.gaps) = [] ->
                     (80 <= q)%Q))).
Proof.
  eapply total_weaken; [apply processFragments_finished|].
  cbv beta. intros result (raw & placed & Hraw & Hinv & Hnil & Hpl & Hplaced
                           & Hcompletion & Hgaps & Hkinds & _ & _ & Hscore & _).
  rewrite Hscore. unfold readinessScore.
  destruct (finished_cases _ _ _ _ Hraw Hplaced Hpl Hcompletion)
    as [(Hgated & _ & Hnan)|(Hgated & _ & q & Hfin & Hq)].
  { split; [|congruence]. intros _. rewrite Hnan. simpl.
    destruct (length _ =? 0); reflexivity. }
  split; [congruence|]. intros _.
  rewrite Hfin in Hkinds |- *. unfold conclusionKinds in Hkinds.
  rewrite (num_geb_100 q 90 Hq) in Hkinds by (unfold Qle; simpl; lia).
  unfold Qlen. rewrite courtReady_kinds, <- (length_map kind), Hkinds.
  destruct (ratio_bounds (weighing 70 placed) (length placed) (weighing_le _ _))
    as (Hlow & Hhigh).
  set (solid := (inject_Z (Z.of_nat (weighing 70 placed))
                 / inject_Z (Z.of_nat (Nat.max 1 (length placed))))%Q) in *.
  clearbody solid.
  destruct (result.(JigsawResult.picture).(Picture.gaps)) as [|gap gaps] eqn:Hg;
    destruct (3 <=? weighing 80 placed); cbn [length Nat.ltb Nat.leb Nat.eqb app
                                              List.filter fst snd num_scale
                                              num_add num_min];
    (eexists; split; [reflexivity|]);
    [ pose proof (ratio_one 2 ltac:(lia)) as Hratio
    | pose proof (ratio_one 1 ltac:(lia)) as Hratio
    | pose proof (ratio_half 2 3 ltac:(lia) ltac:(lia)) as Hratio;
      pose proof (proj2 (ratio_bounds 2 3 ltac:(lia))) as Hratio'
    | pose proof (ratio_half 1 2 ltac:(lia) ltac:(lia)) as Hratio;
      pose proof (proj2 (ratio_bounds 1 2 ltac:(lia))) as Hratio' ];
    cbn [Nat.max] in *;
    match goal with
    | |- context [(inject_Z (Z.of_nat ?a) / inject_Z (Z.of_nat ?n))%Q] =>
        set (ready := (inject_Z (Z.of_nat a) / inject_Z (Z.of_nat n))%Q) in *;
        clearbody ready
    end;
    assert (Hbase : (q * (1 / 100) * 40 == 40)%Q) by (rewrite Hq; reflexivity);
    set (base := (q * (1 / 100) * 40)%Q) in *; clearbody base;
    (split; [apply Q.min_glb; lra|]);
    (split; [apply Q.le_min_l|]);
    intros Hnone; try discriminate; apply Q.min_glb; lra.
Qed.

(** ** Ranges of weights, complexities and strengths *)

Lemma tenth_nonneg (q : Q) : (0 <= q)%Q -> (0 <= q / 10)%Q.
Proof.
  intros Hq. apply Qle_shift_div_l; [reflexivity|]. rewrite Qmult_0_l. exact Hq.
Qed.


Lemma calculateWeight_ge (fragment : TruthFragment.t) :
  (5 <= fragment.(TruthFragment.verificationLevel))%Q ->
  (0 <= fragment.(TruthFragment.confidence))%Q ->
  (50 <= calculateWeight fragment)%Q.
Proof.
  intros Hlevel Hconfidence. unfold calculateWeight.
  pose proof (tenth_nonneg _ Hconfidence) as Htenth.
  set (tenth := (fragment.(TruthFragment.confidence) / 10)%Q) in *. clearbody tenth.
  apply Q.min_glb; [unfold Qle; simpl; lia|].
  repeat match goal with |- context [if ?b then _ else _] => destruct b end; lra.
Qed.

Lemma complexity_le (fragment : TruthFragment.t) :
  ((generateShape fragment).(ComponentShape.complexity) <= 10)%Z.
Proof. simpl. apply Z.le_min_l. Qed.



Lemma passesGate_level (fragment : TruthFragment.t) :
  passesGate fragment = true ->
  fragment.(TruthFragment.isReal) = true
  /\ fragment.(TruthFragment.isTrue) = true
  /\ fragment.(TruthFragment.isNeeded) = true
  /\ (5 <= fragment.(TruthFragment.verificationLevel))%Q.
Proof.
  unfold passesGate. rewrite !andb_true_iff, Qle_bool_iff. tauto.
Qed.


(** ** The picture is a column *)

Lemma strength_compass_lt (component : JigsawComponent.t) (direction : Direction) :
  (component.(JigsawComponent.shape).(ComponentShape.complexity) <= 10)%Z ->
  direction <> temporal -> direction <> causal ->
  (calculateEdgeStrength component direction
   < calculateEdgeStrength component temporal)%Q.
Proof.
  intros Hk Ht Hc. unfold calculateEdgeStrength.
  rewrite (bool_decide_eq_false_2 _ Ht), (bool_decide_eq_false_2 _ Hc).
  rewrite (bool_decide_eq_true_2 (temporal = temporal) eq_refl).
  rewrite (bool_decide_eq_false_2 (temporal = causal)) by discriminate.
  assert (Hk' : (inject_Z component.(JigsawComponent.shape).(ComponentShape.complexity)
                 <= 10)%Q).
  { rewrite (Zle_Qle _ 10) in Hk. exact Hk. }
  set (k := inject_Z _) in *. clearbody k.
  destruct (negb _).
  - eapply Qle_lt_trans; [apply Q.le_min_r|]. apply Q.min_glb_lt; lra.
  - eapply Qle_lt_trans; [apply Q.le_min_r|]. apply Q.min_glb_lt; lra.
Qed.

Lemma final_component
    (raw : list JigsawComponent.t) (p : Picture.t) (r : ref) (c : JigsawComponent.t) :
  placing raw p ->
  p.(Picture.components) !! r = Some c ->
  exists c0,
    raw !! r = Some c0
    /\ c.(JigsawComponent.id) = c0.(JigsawComponent.id)
    /\ c.(JigsawComponent.weight) = c0.(JigsawComponent.weight)
    /\ c.(JigsawComponent.shape) = c0.(JigsawComponent.shape)
    /\ c.(JigsawComponent.edges) = calculateEdges c0 raw r.
Proof.
  intros ((HF & _) & _) Hc.
  destruct (Forall2_lookup_r _ _ _ _ _ HF Hc) as (c1 & Hc1 & Hpl).
  apply placementOf_fields in Hpl as (Hid & Hedges & Hweight & Hshape).
  apply engineerEdges_lookup_inv in Hc1 as (c0 & Hc0 & ->).
  exists c0. simpl in *. auto.
Qed.

Lemma edge_strength
    (c0 : JigsawComponent.t) (raw : list JigsawComponent.t) (r : nat)
    (e : ComponentEdge.t) :
  e ∈ calculateEdges c0 raw r ->
  e.(ComponentEdge.strength) = calculateEdgeStrength c0 e.(ComponentEdge.direction).
Proof.
  intros He. unfold calculateEdges in He.
  apply list_elem_of_In, in_map_iff in He as (d & <- & _).
  destruct (findCompatibleComponents _ _ _ _ _). reflexivity.
Qed.

Lemma adjacentTo_inColumn (pos : ComponentPosition.t) (direction : Direction) :
  inColumn pos -> direction = temporal \/ direction = causal ->
  inColumn (adjacentTo pos direction).
Proof. intros Hpos [->| ->]; exact Hpos. Qed.

Lemma placing_column (raw : list JigsawComponent.t) (p : Picture.t) :
  Forall (fun c0 => (0 < c0.(JigsawComponent.weight))%Q
                    /\ (c0.(JigsawComponent.shape).(ComponentShape.complexity) <= 10)%Z)
         raw ->
  placing raw p ->
  forall i r,
    p.(Picture.placedComponents) !! i = Some r ->
    exists c pos,
      p.(Picture.components) !! r = Some c
      /\ c.(JigsawComponent.position) = Some pos
      /\ inColumn pos.
Proof.
  intros Hraw Hinv.
  pose proof Hinv as (Hasm & _ & Hjust).
  pose proof (assembling_NoDup _ _ Hasm) as Hnd.
  apply NoDup_app in Hnd as (Hnd & _).
  induction i as [i IH] using lt_wf_ind. intros r Hi.
  destruct (Hjust i r Hi) as (c & pos & Hc & Hpos & _ & Hwhere).
  exists c, pos. split; [exact Hc|]. split; [exact Hpos|].
  destruct i as [|i].
  { rewrite Hwhere. repeat split. }
  destruct Hwhere as (j & r' & c' & pos' & e & Hj & Hr' & Hc' & Hpos' & He & Hinc
                      & -> & Hbest).
  destruct (IH j Hj r' Hr') as (c'' & pos'' & Hc'' & Hpos'' & Hcolumn).
  assert (Some c'' = Some c') as [= ->].
  { etransitivity; [symmetry; exact Hc''|exact Hc']. }
  assert (pos'' = pos') as -> by congruence.
  apply adjacentTo_inColumn; [exact Hcolumn|].
  destruct (final_component _ _ _ _ Hinv Hc) as (c0 & Hc0 & _ & Hweight & Hshape & Hedges).
  destruct (final_component _ _ _ _ Hinv Hc') as (c0' & Hc0' & Hid' & _).
  destruct (decide (e.(ComponentEdge.direction) = temporal)) as [|Hnt]; [auto|].
  destruct (decide (e.(ComponentEdge.direction) = causal)) as [|Hnc]; [auto|].
  exfalso.
  assert (Hne : r <> r').
  { intros ->. pose proof (NoDup_lookup _ _ _ _ Hnd Hi Hr'). lia. }
  destruct (temporal_edge_of c0 raw r) as (t & Ht & _ & Hcw & _ & Hstrength).
  assert (Htin : t ∈ c.(JigsawComponent.edges)).
  { rewrite Hedges. apply list_elem_of_lookup. eauto. }
  assert (Htinc : includes t.(ComponentEdge.compatibleWith) c'.(JigsawComponent.id)
                  = true).
  { apply includes_true. rewrite Hcw, Hid'.
    apply list_elem_of_In, in_map, list_elem_of_In.
    apply (elem_of_delete_ne _ _ r'); assumption. }
  pose proof (Hbest j r' c' t Hj Hr' Hc' Htin Htinc) as Hle.
  unfold score in Hle. rewrite Hstrength in Hle.
  rewrite Hedges in He. rewrite (edge_strength _ _ _ _ He) in Hle.
  apply (Forall_lookup_1 _ _ _ _ Hraw) in Hc0 as (Hpositive & Hcomplexity).
  pose proof (strength_compass_lt c0 _ Hcomplexity Hnt Hnc) as Hlt.
  rewrite Hweight in Hle.
  assert (Hfactor : (0 < c0.(JigsawComponent.weight) / 100)%Q).
  { apply Qlt_shift_div_l; [reflexivity|]. rewrite Qmult_0_l. exact Hpositive. }
  apply (Qmult_lt_compat_r _ _ _ Hfactor) in Hlt.
  apply (Qlt_not_le _ _ Hlt). exact Hle.
Qed.

Lemma finished_column
    (fragments : list TruthFragment.t) (result : JigsawResult.t) :
  Forall (fun f => (0 <= f.(TruthFragment.confidence))%Q)
         (filterVerifiedFragments fragments) ->
  finished fragments result ->
  forall c, c ∈ result.(JigsawResult.picture).(Picture.components) ->
    exists pos,
      c.(JigsawComponent.position) = Some pos
      /\ pos.(ComponentPosition.x) = 0%Z
      /\ pos.(ComponentPosition.y) = 0%Z
      /\ pos.(ComponentPosition.rotation) = 0%Z.
Proof.
  intros Hconfidence.
  intros (raw & placed & Hraw & Hinv & Hnil & _).
  assert (Hbounds :
            Forall (fun c0 => (0 < c0.(JigsawComponent.weight))%Q
                              /\ (c0.(JigsawComponent.shape).(ComponentShape.complexity)
                                  <= 10)%Z) raw).
  { apply Forall_forall. intros c0 Hc0.
    destruct (Forall2_elem_of_r _ _ _ _ Hraw Hc0) as (i & f & Hf & _ & Hfrom).
    destruct Hfrom as (_ & Hshape & Hweight & _).
    assert (Hin : f ∈ filterVerifiedFragments fragments).
    { apply list_elem_of_lookup. eauto. }
    pose proof (proj1 (Forall_forall _ _) Hconfidence f Hin) as Hf0.
    apply list_elem_of_In, filter_In in Hin as (_ & Hgate).
    apply passesGate_level in Hgate as (_ & _ & _ & Hlevel).
    rewrite Hshape, Hweight. split; [|apply complexity_le].
    eapply Qlt_le_trans; [|apply calculateWeight_ge; assumption]. reflexivity. }
  intros c Hc. apply list_elem_of_lookup in Hc as (r & Hr).
  pose proof Hinv as (Hasm & _).
  pose proof (assembling_length _ _ Hasm) as Hlen.
  destruct Hasm as (_ & Hperm & _). rewrite Hnil, app_nil_r in Hperm.
  assert (Hin : r ∈ (JigsawResult.picture result).(Picture.placedComponents)).
  { rewrite Hperm. apply elem_of_seq. apply lookup_lt_Some in Hr. lia. }
  apply list_elem_of_lookup in Hin as (i & Hi).
  destruct (placing_column raw _ Hbounds Hinv i r Hi) as (c' & pos & Hc' & Hpos & Hcol).
  assert (Some c' = Some c) as [= ->].
  { etransitivity; [symmetry; exact Hc'|exact Hr]. }
  exists pos. split; [exact Hpos|exact Hcol].
Qed.

(** X12: the picture is a column.  When the fragments that pass the gate
    have a confidence that is not negative, [assemblePicture] puts every
    component at x = 0 and y = 0 with rotation 0: against any placed
    component the temporal edge is always compatible and stronger than the
    north, south, east and west edges, so a component is only ever placed
    above or below another one. *)
Theorem assembled_in_a_column
    (this : JigsawProtocolEngine.t) (fragments : list TruthFragment.t)
    (caseId : string) (caseType : CaseType) (caseTitle : string) :
  Forall (fun f => (0 <= f.(TruthFragment.confidence))%Q)
         (filterVerifiedFragments fragments) ->
  total (processFragments this fragments caseId caseType caseTitle)
        (fun result =>
           forall c, c ∈ result.(JigsawResult.picture).(Picture.components) ->
             exists pos,
               c.(JigsawComponent.position) = Some pos
               /\ pos.(ComponentPosition.x) = 0%Z
               /\ pos.(ComponentPosition.y) = 0%Z
               /\ pos.(ComponentPosition.rotation) = 0%Z).
Proof.
  intros Hconfidence.
  eapply total_weaken; [apply processFragments_finished|].
  cbv beta. intros result Hfinished.
  exact (finished_column fragments result Hconfidence Hfinished).
Qed.

(** ** The budget of the loop *)

(** X13: the assembly loop takes one turn for each component.  On the
    picture that [initializePicture] builds from engineered components, the
    loop of [assemblePicture] ends after exactly as many iterations as there
    are components, a tenth of its budget, with nothing left in the queue:
    no component is ever put back. *)
Theorem one_turn_per_component
    (caseId : string) (caseType : CaseType) (caseTitle : string)
    (raw : list JigsawComponent.t) :
  total (bind (initializePicture caseId caseType caseTitle (engineerEdges raw))
              assembleRun)
        (fun out =>
           snd out = length raw
           /\ (fst out).(Picture.unplacedComponents) = []
           /\ (fst out).(Picture.placedComponents) = queueOrder (engineerEdges raw)).
Proof.
  step_with (initializePicture_total caseId caseType caseTitle (engineerEdges raw))
    as p Hp.
  destruct Hp as (Hc & Hplaced & Hun).
  eapply total_weaken; [apply (assembleRun_places raw p Hc Hplaced Hun)|].
  cbv beta. intros out (_ & Hnil & Hpl & Hcount). auto.
Qed.

(** ** Directions *)

(** X14: stepping in a direction and then in its opposite.  For north,
    south, east and west [oppositeDirection] undoes the step of
    [calculateAdjacentPosition]; for temporal and causal it does not, these
    directions being their own opposites: the two steps move z by 2.  The
    opposite of the opposite is always the direction itself. *)
Theorem opposite_direction_round_trip
    (pos : ComponentPosition.t) (direction : Direction) :
  let there := adjacentTo pos direction in
  let back := adjacentTo there (oppositeDirection direction) in
  oppositeDirection (oppositeDirection direction) = direction
  /\ back.(ComponentPosition.x) = pos.(ComponentPosition.x)
  /\ back.(ComponentPosition.y) = pos.(ComponentPosition.y)
  /\ back.(ComponentPosition.rotation) = pos.(ComponentPosition.rotation)
  /\ back.(ComponentPosition.z)
     = match direction with
       | temporal => (pos.(ComponentPosition.z) + 2)%Z
       | causal => (pos.(ComponentPosition.z) - 2)%Z
       | _ => pos.(ComponentPosition.z)
       end.
Proof.
  destruct direction; simpl; repeat split; lia.
Qed.


(** ** The advice that goes with the picture *)

Lemma num_ltb_100 (q k : Q) : (q == 100)%Q -> (k <= 100)%Q -> num_ltb (Fin q) k = false.
Proof.
  intros Hq Hk. simpl. apply negb_false_iff, Qle_bool_iff. rewrite Hq. exact Hk.
Qed.

(** X26: the recommendations and next steps of [processFragments].  The
    completion percentage of its picture is never a number below 80, so the
    recommendation to continue the investigation is never given, not even
    when no fragment passed the gate.  What is given: the gaps to address
    when there are gaps, the mandatory human review as soon as one fragment
    passes the gate, and the court-ready line when three gated fragments
    weigh 70 or more, the not-yet line otherwise.  The next steps keep
    their fixed numbers: without gaps the list starts at 2, and without a
    gated fragment at 3. *)
Theorem advice_given
    (this : JigsawProtocolEngine.t) (fragments : list TruthFragment.t)
    (caseId : string) (caseType : CaseType) (caseTitle : string) :
  total (processFragments this fragments caseId caseType caseTitle)
        (fun result =>
           let p := result.(JigsawResult.picture) in
           let gated := filterVerifiedFragments fragments in
           let solid :=
             List.filter (fun f => Qle_bool 70 (calculateWeight f)) gated in
           let urgent :=
             List.filter (fun g => (7 <=? g.(PictureGap.priority))%Z)
                         p.(Picture.gaps) in
           generateRecommendations p
           = (if 0 <? length p.(Picture.gaps)
              then ["Address "
                    +:+ Number_toString (Number_ofNat (length p.(Picture.gaps)))
                    +:+ " identified gaps before proceeding to court"]
              else [])
             ++ (if 0 <? length gated
                 then ["MANDATORY: Human review required before any legal action"]
                 else [])
             ++ [if 3 <=? length solid
                 then "Picture is court-ready - proceed with legal counsel review"
                 else "Picture not yet court-ready - additional verification needed"]
           /\ generateNextSteps p
              = (if 0 <? length urgent
                 then ["1. Investigate "
                       +:+ Number_toString (Number_ofNat (length urgent))
                       +:+ " high-priority gaps"]
                 else [])
                ++ (if 0 <? length gated
                    then ["2. Submit for human expert review (Level 7+ verification)"]
                    else [])
                ++ (if 3 <=? length solid
                    then ["3. Generate court-ready documentation package";
                          "4. Coordinate with legal counsel for filing"]
                    else ["3. Continue evidence gathering";
                          "4. Re-run Jigsaw Protocol when new fragments available"])).
Proof.
  eapply total_weaken; [apply processFragments_finished|].
  cbv beta. intros result Hfinished.
  destruct (finished_flags _ _ Hfinished) as (Hready & Hreview & _).
  cbv zeta in Hready, Hreview. cbv zeta.
  unfold generateRecommendations, generateNextSteps.
  rewrite Hready, Hreview.
  destruct Hfinished as (raw & placed & Hraw & _ & _ & Hpl & Hplaced & Hcompletion & _).
  assert (Hlow : num_ltb (JigsawResult.picture result).(Picture.completionPercentage) 80
                 = false).
  { destruct (finished_cases _ _ _ _ Hraw Hplaced Hpl Hcompletion)
      as [(_ & _ & ->)|(_ & _ & q & -> & Hq)]; [reflexivity|].
    apply num_ltb_100; [exact Hq|discriminate]. }
  rewrite Hlow. cbn [app]. split.
  - destruct (3 <=? _); reflexivity.
  - f_equal.
    destruct (JigsawResult.picture result).(Picture.gaps) as [|g gaps]; reflexivity.
Qed.

End WithPlatform.

(** ** Worked instances *)


Lemma temporal_edge_lists_all_others_witness :
  let c := JigsawComponent.mk "JC-A" "TF-1"
             (ComponentShape.mk Topology.keystone 3 false "u") [] 80 None false
             "h" 1 "s" in
  let c2 := JigsawComponent.mk "JC-B" "TF-2"
             (ComponentShape.mk Topology.corner 3 true "v") [] 80 None false
             "h" 1 "s" in
  [c; c2] !! 0 = Some c
  /\ exists c' e,
       engineerEdges (H := Examples.platform) [c; c2] !! 0 = Some c'
       /\ c'.(JigsawComponent.edges) !! 4 = Some e
       /\ e.(ComponentEdge.direction) = temporal
       /\ e.(ComponentEdge.compatibleWith)
          = map JigsawComponent.id (delete 0 [c; c2])
       /\ e.(ComponentEdge.incompatibleWith) = [].
Proof.
  split; [reflexivity|].
  apply (temporal_edge_lists_all_others (H := Examples.platform) [_; _] 0 _ eq_refl).
Defined.

Lemma distinct_ids_leave_no_gaps_witness :
  exists result w',
    processFragments (H := Examples.platform) Examples.engine Examples.twoTraces
                     "CASE-1" fraud "Two traces" Examples.world
    = Ok (result, w')
    /\ NoDup (map JigsawComponent.id
                  result.(JigsawResult.picture).(Picture.components))
    /\ result.(JigsawResult.picture).(Picture.gaps) = []
    /\ result.(JigsawResult.gapsIdentified) = 0.
Proof.
  eexists _, _. split; [vm_compute; reflexivity|].
  match goal with
  | |- NoDup ?l /\ _ =>
      assert (Hnd : NoDup l)
        by (refine (bool_decide_unpack _ _); vm_compute; exact I)
  end.
  split; [exact Hnd|].
  match goal with
  | |- Picture.gaps (JigsawResult.picture ?r) = [] /\ _ =>
      pose proof (distinct_ids_leave_no_gaps (H := Examples.platform)
                    Examples.engine Examples.twoTraces "CASE-1" fraud "Two traces"
                    Examples.world _ r ltac:(vm_compute; reflexivity) Hnd) as Hgaps
  end.
  split; apply Hgaps.
Defined.


Lemma assembled_in_a_column_witness :
  Forall (fun f => (0 <= f.(TruthFragment.confidence))%Q)
         (filterVerifiedFragments Examples.twoTraces)
  /\ exists result w',
       processFragments (H := Examples.platform) Examples.engine Examples.twoTraces
                        "CASE-1" fraud "Two traces" Examples.world
       = Ok (result, w').
Proof.
  assert (Hconfidence :
            Forall (fun f => (0 <= f.(TruthFragment.confidence))%Q)
                   (filterVerifiedFragments Examples.twoTraces)).
  { simpl. repeat constructor; unfold Qle; simpl; lia. }
  split; [exact Hconfidence|].
  destruct (assembled_in_a_column (H := Examples.platform) Examples.engine
              Examples.twoTraces "CASE-1" fraud "Two traces" Hconfidence
              Examples.world) as (result & w' & Hrun & _).
  exists result, w'. exact Hrun.
Defined.


End AssemblyProperties.

(** * Further properties of the CVK 1100 engine *)

Module VerificationProperties.
Import CVK1100Engine Verification CvkProperties.

Section WithPlatform.
Context `{Platform}.

(** ** One input, run from a world *)


(** ** Sums and averages *)





(** ** What decides [isReal] and [isTrue] *)








(** ** Confidence and level of an accepted input *)




(** ** What an examined result looks like *)


(** ** The acceptance rule *)





(** ** All inputs *)




(** ** The fragment of an accepted input *)








(** ** Accounting *)








(** ** Rejections *)






(** ** The review items *)



(** ** The summary *)






(** ** From the verification to the picture *)



(** ** The assessment and the decision *)


(** X24: the pieces that verified inputs become.  Whatever the source
    type of an input, the fragment type that [mapSourceToFragmentType] gives
    it leads [determineTopology] to a corner (surveillance data), a keystone
    (witness statements) or an interior piece (all the others): no input
    becomes an edge or a bridge. *)
Theorem topologies_of_verified_inputs
    (sourceType : SourceType.t) (fragment : TruthFragment.t) :
  fragment.(TruthFragment.type) = mapSourceToFragmentType sourceType ->
  JigsawProtocolEngine.determineTopology fragment
  = match sourceType with
    | SourceType.surveillance_data => Topology.corner
    | SourceType.witness_statement => Topology.keystone
    | _ => Topology.interior
    end.
Proof.
  intros Htype. unfold JigsawProtocolEngine.determineTopology. rewrite Htype.
  destruct sourceType; reflexivity.
Qed.

End WithPlatform.

(** ** Worked instances of the verification *)

Lemma topologies_of_verified_inputs_witness :
  let fragment := Examples.fragment "TF-1" financial_trace 7 85 in
  fragment.(TruthFragment.type) = mapSourceToFragmentType SourceType.financial_record
  /\ JigsawProtocolEngine.determineTopology fragment = Topology.interior.
Proof.
  split; [reflexivity|].
  apply (topologies_of_verified_inputs
           SourceType.financial_record
           (Examples.fragment "TF-1" financial_trace 7 85) eq_refl).
Defined.

End VerificationProperties.

(** * Properties of the combined engine *)

Module CombinedProperties.
Import JigsawProtocolEngine Invariants Assembly JigsawProperties AssemblyProperties.

Section WithPlatform.
Context `{Platform}.

(** ** The consolidated review queue *)

Lemma insertDesc_by_key {A} (key : A -> Q) (a : A) (l : list A) :
  StronglySorted (fun x y => (key y <= key x)%Q) l ->
  StronglySorted (fun x y => (key y <= key x)%Q) (insertDesc key a l).
Proof.
  induction 1 as [|b l Hsorted IH Hb]; simpl.
  - repeat constructor.
  - destruct (Qltb (key a) (key b)) eqn:Hlt.
    + constructor; [exact IH|].
      apply Forall_forall. intros y Hy.
      rewrite (insertDesc_perm key a l) in Hy.
      apply elem_of_cons in Hy as [->|Hy].
      * apply Qlt_le_weak, Qltb_lt, Hlt.
      * exact (proj1 (Forall_forall _ _) Hb y Hy).
    + apply Qltb_false in Hlt.
      constructor; [constructor; assumption|].
      constructor; [exact Hlt|].
      eapply Forall_impl; [exact Hb|]. cbv beta. intros y Hy.
      eapply Qle_trans; eassumption.
Qed.

Lemma sortDesc_by_key {A} (key : A -> Q) (l : list A) :
  StronglySorted (fun x y => (key y <= key x)%Q) (sortDesc key l).
Proof.
  induction l as [|a l IH]; simpl; [constructor|].
  apply insertDesc_by_key, IH.
Qed.

(** X27: the review queue of [consolidateHumanReview].  It holds one
    pending item for every review item of CVK 1100, carrying its input id,
    reason, priority, expertise and deadline, and, exactly when the Jigsaw
    result requires human review, one pending item for the picture with
    priority 10 and a deadline 72 hours after the time the clock shows;
    nothing else; and it is in the order of priority, highest first. *)
Theorem consolidated_review_queue
    (cvk1100Result : CVK1100Result.t) (jigsawResult : JigsawResult.t) :
  total (CombinedEngine.consolidateHumanReview cvk1100Result jigsawResult)
        (fun items =>
           StronglySorted
             (fun a b => (b.(HumanReviewSummary.priority)
                          <= a.(HumanReviewSummary.priority))%Z)
             items
           /\ exists forPicture,
                items
                ≡ₚ map (fun review =>
                          HumanReviewSummary.mk
                            review.(HumanReviewItem.inputId) cvk1100
                            review.(HumanReviewItem.reason)
                            review.(HumanReviewItem.priority)
                            review.(HumanReviewItem.requiredExpertise)
                            review.(HumanReviewItem.deadline) pending)
                       cvk1100Result.(CVK1100Result.humanReviewRequired)
                   ++ forPicture
                /\ if jigsawResult.(JigsawResult.humanReviewRequired)
                   then exists now,
                          forPicture
                          = [HumanReviewSummary.mk
                               jigsawResult.(JigsawResult.picture).(Picture.id)
                               jigsaw
                               "Complete picture requires human verification before court submission"
                               10
                               ["Senior Investigator"; "Legal Counsel"]
                               (Some (now + 72 * 60 * 60 * 1000)%Z)
                               pending]
                   else forPicture = []).
Proof.
  unfold CombinedEngine.consolidateHumanReview.
  set (fromCvk := map _ cvk1100Result.(CVK1100Result.humanReviewRequired)).
  eapply (total_bind _ _
            (fun unsorted =>
               exists forPicture,
                 unsorted = fromCvk ++ forPicture
                 /\ if jigsawResult.(JigsawResult.humanReviewRequired)
                    then exists now,
                           forPicture
                           = [HumanReviewSummary.mk
                                jigsawResult.(JigsawResult.picture).(Picture.id)
                                jigsaw
                                "Complete picture requires human verification before court submission"
                                10
                                ["Senior Investigator"; "Legal Counsel"]
                                (Some (now + 72 * 60 * 60 * 1000)%Z)
                                pending]
                    else forPicture = [])).
  - destruct jigsawResult.(JigsawResult.humanReviewRequired).
    + intros w. unfold bind, Date_now, ret. eexists _, _. split; [reflexivity|].
      eexists. split; [reflexivity|]. eexists. reflexivity.
    + apply total_ret. exists []. rewrite app_nil_r. auto.
  - cbv beta. intros unsorted (forPicture & -> & HforPicture).
    apply total_ret. split.
    + pose proof (sortDesc_by_key
                    (fun item => inject_Z item.(HumanReviewSummary.priority))
                    (fromCvk ++ forPicture)) as Hsorted.
      induction Hsorted as [|a l _ IH Ha]; constructor; [exact IH|].
      eapply Forall_impl; [exact Ha|]. cbv beta. intros b Hb.
      rewrite Zle_Qle. exact Hb.
    + exists forPicture. split; [apply sortDesc_perm|exact HforPicture].
Qed.

(** ** The evidence chain *)

Lemma linksFrom_length (fragments : list TruthFragment.t) (p : Picture.t)
    (placed : list ref) :
  forall i chain,
    EvidenceChain.linksFrom fragments p i placed chain ->
    length chain = length placed
    /\ map EvidenceChainLink.position chain = seq (i + 1) (length placed).
Proof.
  induction placed as [|r placed IH]; intros i [|link chain] Hlinks;
    simpl in Hlinks; try contradiction.
  - split; reflexivity.
  - destruct Hlinks as (Hlink & Hrest).
    destruct (IH _ _ Hrest) as (Hlen & Hpos).
    destruct Hlink as (c & f & _ & _ & _ & _ & _ & Hi & _).
    simpl. rewrite Hlen, Hpos, Hi. split; reflexivity.
Qed.

Lemma evidenceLinks_spec (fragments : list TruthFragment.t) (p : Picture.t)
    (placed : list ref) :
  Forall (fun r => exists c f,
            p.(Picture.components) !! r = Some c
            /\ f ∈ fragments
            /\ f.(TruthFragment.id) = c.(JigsawComponent.fragmentId))
         placed ->
  forall i,
    total (CombinedEngine.evidenceLinks fragments p i placed)
          (EvidenceChain.linksFrom fragments p i placed).
Proof.
  induction 1 as [|r placed (c & f & Hc & Hf & Hid) _ IH]; intros i; simpl.
  - apply total_ret. exact I.
  - step_with (getComponent_total p r c Hc) as c' Hc'. subst c'.
    destruct (List.find _ fragments) as [f0|] eqn:Hfind.
    + apply find_some in Hfind as Hf0. destruct Hf0 as (_ & Hf0).
      apply String.eqb_eq in Hf0.
      eapply (total_bind _ _
                (fun here => exists link,
                     here = [link]
                     /\ EvidenceChain.linkFor fragments p i r link)).
      * intros w. unfold bind, randomUUID, ret. eexists _, _.
        split; [reflexivity|]. eexists. split; [reflexivity|].
        exists c, f0. simpl. repeat split; assumption.
      * cbv beta. intros here (link & -> & Hlink).
        step_with (IH (S i)) as rest Hrest.
        apply total_ret. simpl. split; assumption.
    + exfalso.
      pose proof (find_none _ _ Hfind f) as Hno.
      cbv beta in Hno. rewrite Hid, String.eqb_refl in Hno.
      apply list_elem_of_In in Hf. specialize (Hno Hf). discriminate.
Qed.

(** X28: the evidence chain that [buildEvidenceChain] makes of the
    fragments given to [processFragments] and of the picture it returns has
    one link for every placed component, in the order of placement and
    numbered 1, 2, ... without a gap, so as many links as fragments pass the
    gate; each link carries its component's id and hash, and the id and
    verification level of the first fragment that has the component's
    fragment id. *)
Theorem evidence_chain_covers_picture
    (this : JigsawProtocolEngine.t) (fragments : list TruthFragment.t)
    (caseId : string) (caseType : CaseType) (caseTitle : string) :
  total (result <~ processFragments this fragments caseId caseType caseTitle ;;
         chain <~ CombinedEngine.buildEvidenceChain
                    fragments result.(JigsawResult.picture) ;;
         ret (result, chain))%M
        (fun '(result, chain) =>
           let p := result.(JigsawResult.picture) in
           EvidenceChain.linksFrom fragments p 0 p.(Picture.placedComponents) chain
           /\ length chain = length (filterVerifiedFragments fragments)
           /\ map EvidenceChainLink.position chain = seq 1 (length chain)).
Proof.
  step_with (processFragments_finished this fragments caseId caseType caseTitle)
    as result Hfinished.
  pose proof (finished_all_placed _ _ Hfinished)
    as (_ & _ & _ & Hplaced & Hcreated & _).
  destruct Hfinished
    as (raw & placed & Hraw & Hinv & _ & _ & Hobjects & _ & _ & _ & _ & _ & _ & _
        & _ & _ & _ & Hcount & _).
  pose proof (final_weights _ _ _ Hraw Hinv) as Hweights.
  unfold CombinedEngine.buildEvidenceChain.
  eapply total_bind.
  - apply evidenceLinks_spec.
    apply Forall_forall. intros r Hr.
    apply list_elem_of_lookup in Hr as (k & Hk).
    destruct (Forall2_lookup_l _ _ _ _ _ Hobjects Hk) as (c & _ & Hc & _).
    exists c.
    destruct (Forall2_elem_of_r _ _ _ c Hweights) as (j & f & Hf & _ & _ & _ & Hid).
    { eapply list_elem_of_lookup_2. exact Hc. }
    exists f. split; [exact Hc|]. split; [|symmetry; exact Hid].
    apply list_elem_of_lookup_2 in Hf.
    unfold filterVerifiedFragments in Hf.
    apply list_elem_of_In, filter_In in Hf as (Hf & _).
    apply list_elem_of_In. exact Hf.
  - cbv beta. intros chain Hchain. apply total_ret. cbv zeta.
    destruct (linksFrom_length _ _ _ _ _ Hchain) as (Hlen & Hpos).
    split; [exact Hchain|]. split.
    + rewrite Hlen, <- Hcount, Hplaced, Hcreated. reflexivity.
    + rewrite Hpos, Hlen. reflexivity.
Qed.

End WithPlatform.

(** ** Worked instances of the combination *)

End CombinedProperties.
